(** * Tedee API client: retry, token cache and operation polling

    A shallow embedding of the class [TedeeApiClient] and of the response
    models it uses.  Every [async] method becomes a function in a
    small state-and-exception monad over the two private fields of the
    client and a trace of what the client did to the outside world (clock
    reads, timed waits, HTTP requests with their responses).  The outside
    world is an oracle that answers each clock read and each request from
    the trace so far, so any deterministic server behaviour can be
    expressed.  Recursion by self-call and the [while] loop are fuelled. *)

From Stdlib Require Import ZArith List String Bool Lia Relations.
Import ListNotations.

Set Implicit Arguments.

(** ** Records of the HTTP API *)

(** Whatever [axios] or the runtime throws; the client never inspects it. *)
Definition Error := string.

Module Lock.
(** Modelled from the spec: models/lock.ts is not part of the sources; the
    client only reads [id] and [name]. *)
Record t := mk { id : Z; name : string }.
End Lock.

Module LockSync.
(** Modelled from the spec: models/lock-sync.ts is not part of the sources;
    a state snapshot keyed by lock id, opaque to the client. *)
Record t := mk { id : Z; state : Z }.
End LockSync.

Module DeviceActivity.
Record t := mk {
  id : Z;
  deviceId : Z;
  userId : Z;
  username : string;
  event : Z;
  source : Z;
  date : string
}.
End DeviceActivity.

(** Modelled from the spec: models/operation-status.ts is not part of the
    sources; an enumeration with the terminal value [Completed] and
    pending or other intermediate values. *)
Inductive OperationStatus :=
| Pending
| Completed
| Intermediate (code : Z).

Definition OperationStatus_eqb (a b : OperationStatus) : bool :=
  match a, b with
  | Pending, Pending => true
  | Completed, Completed => true
  | Intermediate x, Intermediate y => Z.eqb x y
  | _, _ => false
  end.

Module Operation.
(** Modelled from the spec: models/operation-response.ts is not part of the
    sources; the [result] of an operation response carries [operationId]
    and [status]. *)
Record t := mk { operationId : string; status : OperationStatus }.
End Operation.

Module TokenResponse.
(** Modelled from the spec: models/token-response.ts is not part of the
    sources; the token endpoint answers [{access_token, expires_in}]. *)
Record t := mk { access_token : string; expires_in : Z }.
End TokenResponse.

(** Modelled from the spec: configuration/configuration.ts is not part of
    the sources; credentials, two retry counts and two retry intervals. *)
Record Configuration := {
  emailAddress : string;
  password : string;
  maximumTokenRetry : Z;
  tokenRetryInterval : Z;
  maximumApiRetry : Z;
  apiRetryInterval : Z
}.

(** ** The outside world *)

(** What an [axios] call comes to: [Ok a] when it resolves, [a] being the
    payload the client reads from the response ([response.data.result],
    or [response.data] for the token); [Failed e] when it rejects with
    [e]. *)
Inductive HttpResult (A : Type) :=
| Ok (a : A)
| Failed (e : Error).
Arguments Ok {A} a.
Arguments Failed {A} e.

(** The three command endpoints [/my/lock/close], [/my/lock/open] and
    [/my/lock/pull-spring]. *)
Inductive Command := Close | Open | PullSpring.

Inductive Event :=
| EvNow (t : Z)
| EvSleep (ms : Z)
| EvPostToken (username pwd : string) (r : HttpResult TokenResponse.t)
| EvGetLocks (bearer : string) (r : HttpResult (list Lock.t))
| EvGetLocksSync (bearer : string) (r : HttpResult (list LockSync.t))
| EvGetLockSync (lockId : Z) (bearer : string) (r : HttpResult LockSync.t)
| EvPostCommand (c : Command) (deviceId : Z) (bearer : string)
                (r : HttpResult Operation.t)
| EvGetOperation (operationId : string) (bearer : string)
                 (r : HttpResult Operation.t)
| EvGetDeviceActivity (deviceId elements : Z) (bearer : string)
                      (r : HttpResult (list DeviceActivity.t)).

(** Newest event first. *)
Definition Trace := list Event.

(** The server and the clock, as functions of everything that happened
    before. *)
Record Env := {
  clock : Trace -> Z;
  postToken : Trace -> string -> string -> HttpResult TokenResponse.t;
  getLocks : Trace -> string -> HttpResult (list Lock.t);
  getLocksSync : Trace -> string -> HttpResult (list LockSync.t);
  getLockSync : Trace -> Z -> string -> HttpResult LockSync.t;
  postCommand : Trace -> Command -> Z -> string -> HttpResult Operation.t;
  getOperation : Trace -> string -> string -> HttpResult Operation.t;
  getDeviceActivity :
    Trace -> Z -> Z -> string -> HttpResult (list DeviceActivity.t)
}.

(** ** Client state and the monad of [async] methods *)

(** The two private fields; [None] is [null]. *)
Record Client := {
  expirationDateTime : option Z;
  accessToken : option string
}.

Record State := { client : Client; trace : Trace }.

(** [new TedeeApiClient(configuration)] in a world where nothing happened. *)
Definition initial : State :=
  {| client := {| expirationDateTime := None; accessToken := None |};
     trace := [] |}.

Inductive Outcome (A : Type) :=
| Return (a : A)
| Throw (e : Error)
| OutOfFuel.
Arguments Return {A} a.
Arguments Throw {A} e.
Arguments OutOfFuel {A}.

Definition M (A : Type) := State -> Outcome A * State.

Definition ret {A} (a : A) : M A := fun st => (Return a, st).

Definition throw {A} (e : Error) : M A := fun st => (Throw e, st).

Definition outOfFuel {A} : M A := fun st => (OutOfFuel, st).

Definition bind {A B} (m : M A) (k : A -> M B) : M B :=
  fun st =>
    match m st with
    | (Return a, st') => k a st'
    | (Throw e, st') => (Throw e, st')
    | (OutOfFuel, st') => (OutOfFuel, st')
    end.

(** [try { m } catch (e) { handler e }]: state changes made before the
    exception stay. *)
Definition tryCatch {A} (m : M A) (handler : Error -> M A) : M A :=
  fun st =>
    match m st with
    | (Throw e, st') => handler e st'
    | other => other
    end.

Declare Scope client_scope.
Delimit Scope client_scope with client.
Notation "x <- m ;; k" := (bind m (fun x => k))
  (at level 100, m at next level, right associativity) : client_scope.
Notation "m ;; k" := (bind m (fun _ => k))
  (at level 100, right associativity) : client_scope.
Open Scope client_scope.

Definition record (ev : Event) (st : State) : State :=
  {| client := client st; trace := ev :: trace st |}.

Definition getExpirationDateTime : M (option Z) :=
  fun st => (Return (expirationDateTime (client st)), st).

Definition getAccessToken : M (option string) :=
  fun st => (Return (accessToken (client st)), st).

Definition setExpirationDateTime (v : option Z) : M unit :=
  fun st =>
    (Return tt,
     {| client := {| expirationDateTime := v;
                     accessToken := accessToken (client st) |};
        trace := trace st |}).

Definition setAccessToken (v : option string) : M unit :=
  fun st =>
    (Return tt,
     {| client := {| expirationDateTime := expirationDateTime (client st);
                     accessToken := v |};
        trace := trace st |}).

(** JavaScript truthiness of a [string|null]: [null] and the empty string
    are falsy.  A truthy value is handed back as the string it is. *)
Definition truthy (s : option string) : option string :=
  match s with
  | Some EmptyString => None
  | Some token => Some token
  | None => None
  end.

(** [if (!retryCount) retryCount = dflt]: [undefined] and [0] are falsy. *)
Definition orDefault (retryCount : option Z) (dflt : Z) : Z :=
  match retryCount with
  | Some r => if (r =? 0)%Z then dflt else r
  | None => dflt
  end.

Section WithWorld.

Variable configuration : Configuration.
Variable env : Env.

(** [new Date().getTime()] in milliseconds. *)
Definition now : M Z :=
  fun st => let t := clock env (trace st) in (Return t, record (EvNow t) st).

(** [await new Promise(resolve => setTimeout(resolve, ms))]. *)
Definition sleep (ms : Z) : M unit :=
  fun st => (Return tt, record (EvSleep ms) st).

(** One HTTP exchange: ask the oracle, log request and response, and throw
    when the exchange failed. *)
Definition exchange {A} (answer : Trace -> HttpResult A)
    (ev : HttpResult A -> Event) : M A :=
  fun st =>
    let r := answer (trace st) in
    match r with
    | Ok a => (Return a, record (ev r) st)
    | Failed e => (Throw e, record (ev r) st)
    end.

Definition axiosPostToken : M TokenResponse.t :=
  exchange
    (fun t => postToken env t (emailAddress configuration)
                        (password configuration))
    (EvPostToken (emailAddress configuration) (password configuration)).

Definition axiosGetLocks (bearer : string) : M (list Lock.t) :=
  exchange (fun t => getLocks env t bearer) (EvGetLocks bearer).

Definition axiosGetLocksSync (bearer : string) : M (list LockSync.t) :=
  exchange (fun t => getLocksSync env t bearer) (EvGetLocksSync bearer).

Definition axiosGetLockSync (id : Z) (bearer : string) : M LockSync.t :=
  exchange (fun t => getLockSync env t id bearer) (EvGetLockSync id bearer).

Definition axiosPostCommand (c : Command) (deviceId : Z) (bearer : string)
    : M Operation.t :=
  exchange (fun t => postCommand env t c deviceId bearer)
           (EvPostCommand c deviceId bearer).

Definition axiosGetOperation (operationId : string) (bearer : string)
    : M Operation.t :=
  exchange (fun t => getOperation env t operationId bearer)
           (EvGetOperation operationId bearer).

Definition axiosGetDeviceActivity (deviceId elements : Z) (bearer : string)
    : M (list DeviceActivity.t) :=
  exchange (fun t => getDeviceActivity env t deviceId elements bearer)
           (EvGetDeviceActivity deviceId elements bearer).

(** ** The methods of [TedeeApiClient] *)

(** [private async getAccessTokenAsync(retryCount?)].  The clock is read
    only when [expirationDateTime] is set ([&&] short-circuits). *)
Fixpoint getAccessTokenAsync (fuel : nat) (retryCount : option Z)
    : M string :=
  match fuel with
  | O => outOfFuel
  | S fuel' =>
    expiration <- getExpirationDateTime ;;
    expired <- match expiration with
               | Some e => t <- now ;; ret (e <? t - 120 * 1000)%Z
               | None => ret false
               end ;;
    (if expired : bool
     then setExpirationDateTime None ;; setAccessToken None
     else ret tt) ;;
    cached <- getAccessToken ;;
    match truthy cached with
    | Some token => ret token
    | None =>
      let retryCount :=
        orDefault retryCount (maximumTokenRetry configuration) in
      tryCatch
        (response <- axiosPostToken ;;
         setAccessToken (Some (TokenResponse.access_token response)) ;;
         t <- now ;;
         setExpirationDateTime
           (Some (t + TokenResponse.expires_in response * 1000)%Z) ;;
         ret (TokenResponse.access_token response))
        (fun e =>
           let retryCount := (retryCount - 1)%Z in
           if (retryCount >? 0)%Z
           then sleep (tokenRetryInterval configuration) ;;
                getAccessTokenAsync fuel' (Some retryCount)
           else throw e)
    end
  end.

(** [public async getLocksAsync(retryCount?)].  The token is fetched
    before the [try], so a failure to get one is not retried here. *)
Fixpoint getLocksAsync (fuel : nat) (retryCount : option Z)
    : M (list Lock.t) :=
  match fuel with
  | O => outOfFuel
  | S fuel' =>
    let retryCount := orDefault retryCount (maximumApiRetry configuration) in
    token <- getAccessTokenAsync fuel None ;;
    tryCatch
      (axiosGetLocks token)
      (fun e =>
         let retryCount := (retryCount - 1)%Z in
         if (retryCount >? 0)%Z
         then sleep (apiRetryInterval configuration) ;;
              getLocksAsync fuel' (Some retryCount)
         else throw e)
  end.

(** [Array.prototype.find] with [l => l.name === name]; [undefined] is
    [None]. *)
Definition getLockByNameAsync (fuel : nat) (name : string)
    (retryCount : option Z) : M (option Lock.t) :=
  locks <- getLocksAsync fuel retryCount ;;
  ret (find (fun l => String.eqb (Lock.name l) name) locks).

Fixpoint syncLocksAsync (fuel : nat) (retryCount : option Z)
    : M (list LockSync.t) :=
  match fuel with
  | O => outOfFuel
  | S fuel' =>
    let retryCount := orDefault retryCount (maximumApiRetry configuration) in
    token <- getAccessTokenAsync fuel None ;;
    tryCatch
      (axiosGetLocksSync token)
      (fun e =>
         let retryCount := (retryCount - 1)%Z in
         if (retryCount >? 0)%Z
         then sleep (apiRetryInterval configuration) ;;
              syncLocksAsync fuel' (Some retryCount)
         else throw e)
  end.

Fixpoint syncLockAsync (fuel : nat) (id : Z) (retryCount : option Z)
    : M LockSync.t :=
  match fuel with
  | O => outOfFuel
  | S fuel' =>
    let retryCount := orDefault retryCount (maximumApiRetry configuration) in
    token <- getAccessTokenAsync fuel None ;;
    tryCatch
      (axiosGetLockSync id token)
      (fun e =>
         let retryCount := (retryCount - 1)%Z in
         if (retryCount >? 0)%Z
         then sleep (apiRetryInterval configuration) ;;
              syncLockAsync fuel' id (Some retryCount)
         else throw e)
  end.

(** [while (response.data.result.status !== OperationStatus.Completed)]:
    wait one second, then GET the operation named by the latest response. *)
Fixpoint pollOperation (fuel : nat) (token : string)
    (response : Operation.t) : M unit :=
  if OperationStatus_eqb (Operation.status response) Completed
  then ret tt
  else
    match fuel with
    | O => outOfFuel
    | S fuel' =>
      sleep 1000 ;;
      response <- axiosGetOperation (Operation.operationId response) token ;;
      pollOperation fuel' token response
    end.

(** [closeAsync], [openAsync] and [pullSpringAsync] are the same text up
    to the URL and the log messages; [command] is that URL.  The whole
    command-and-poll sequence sits in the [try]. *)
Fixpoint commandAsync (command : Command) (fuel : nat) (lock : Lock.t)
    (retryCount : option Z) : M unit :=
  match fuel with
  | O => outOfFuel
  | S fuel' =>
    let retryCount := orDefault retryCount (maximumApiRetry configuration) in
    token <- getAccessTokenAsync fuel None ;;
    tryCatch
      (response <- axiosPostCommand command (Lock.id lock) token ;;
       pollOperation fuel' token response)
      (fun e =>
         let retryCount := (retryCount - 1)%Z in
         if (retryCount >? 0)%Z
         then sleep (apiRetryInterval configuration) ;;
              commandAsync command fuel' lock (Some retryCount)
         else throw e)
  end.

Definition closeAsync := commandAsync Close.

Definition openAsync := commandAsync Open.

Definition pullSpringAsync := commandAsync PullSpring.

(** [public async getDeviceActivityAsync(lock, count, retryCount?)].  The
    retry is written [this.getDeviceActivityAsync(lock, retryCount)]: the
    decremented counter goes where [count] is expected and [retryCount]
    is left out. *)
Fixpoint getDeviceActivityAsync (fuel : nat) (lock : Lock.t) (count : Z)
    (retryCount : option Z) : M (list DeviceActivity.t) :=
  match fuel with
  | O => outOfFuel
  | S fuel' =>
    let retryCount := orDefault retryCount (maximumApiRetry configuration) in
    token <- getAccessTokenAsync fuel None ;;
    tryCatch
      (axiosGetDeviceActivity (Lock.id lock) count token)
      (fun e =>
         let retryCount := (retryCount - 1)%Z in
         if (retryCount >? 0)%Z
         then sleep (apiRetryInterval configuration) ;;
              getDeviceActivityAsync fuel' lock retryCount None
         else throw e)
  end.

(** [activities[0] || null]: an activity record is an object, hence
    truthy; [null] is [None]. *)
Definition getLatestDeviceActivityAsync (fuel : nat) (lock : Lock.t)
    (retryCount : option Z) : M (option DeviceActivity.t) :=
  activities <- getDeviceActivityAsync fuel lock 1 retryCount ;;
  ret (hd_error activities).

End WithWorld.

Arguments now : clear implicits.
Arguments sleep : clear implicits.

(** ** Reading traces *)

Inductive Endpoint :=
| TokenEndpoint
| LocksEndpoint
| LocksSyncEndpoint
| LockSyncEndpoint
| CommandEndpoint
| OperationEndpoint
| ActivityEndpoint.

Definition Endpoint_eqb (a b : Endpoint) : bool :=
  match a, b with
  | TokenEndpoint, TokenEndpoint
  | LocksEndpoint, LocksEndpoint
  | LocksSyncEndpoint, LocksSyncEndpoint
  | LockSyncEndpoint, LockSyncEndpoint
  | CommandEndpoint, CommandEndpoint
  | OperationEndpoint, OperationEndpoint
  | ActivityEndpoint, ActivityEndpoint => true
  | _, _ => false
  end.

(** The endpoint an event is a request to; clock reads and waits are
    requests to none. *)
Definition endpointOf (ev : Event) : option Endpoint :=
  match ev with
  | EvNow _ | EvSleep _ => None
  | EvPostToken _ _ _ => Some TokenEndpoint
  | EvGetLocks _ _ => Some LocksEndpoint
  | EvGetLocksSync _ _ => Some LocksSyncEndpoint
  | EvGetLockSync _ _ _ => Some LockSyncEndpoint
  | EvPostCommand _ _ _ _ => Some CommandEndpoint
  | EvGetOperation _ _ _ => Some OperationEndpoint
  | EvGetDeviceActivity _ _ _ _ => Some ActivityEndpoint
  end.

Definition isRequestTo (ep : Endpoint) (ev : Event) : bool :=
  match endpointOf ev with
  | Some ep' => Endpoint_eqb ep ep'
  | None => false
  end.

(** How many requests a trace holds for an endpoint. *)
Definition requests (ep : Endpoint) (t : Trace) : nat :=
  List.length (filter (isRequestTo ep) t).

(** What [getAccessTokenAsync] may leave in a trace. *)
Definition tokenEvent (ev : Event) : bool :=
  match ev with
  | EvNow _ | EvSleep _ | EvPostToken _ _ _ => true
  | _ => false
  end.

(** An operation response that reports completion. *)
Definition completed (op : Operation.t) : bool :=
  OperationStatus_eqb (Operation.status op) Completed.

Definition reportsCompleted (ev : Event) : bool :=
  match ev with
  | EvPostCommand _ _ _ (Ok op) | EvGetOperation _ _ (Ok op) => completed op
  | _ => false
  end.

(** The error a failed request ended with. *)
Definition failureOf (ev : Event) : option Error :=
  match ev with
  | EvPostToken _ _ (Failed e)
  | EvGetLocks _ (Failed e)
  | EvGetLocksSync _ (Failed e)
  | EvGetLockSync _ _ (Failed e)
  | EvPostCommand _ _ _ (Failed e)
  | EvGetOperation _ _ (Failed e)
  | EvGetDeviceActivity _ _ _ (Failed e) => Some e
  | _ => None
  end.

(** The error of the newest event, when that is a failed request. *)
Definition newestFailure (t : Trace) : option Error :=
  match t with
  | ev :: _ => failureOf ev
  | [] => None
  end.

(** ** Environments *)

(** The token endpoint never fails. *)
Definition tokenGranted (env : Env) : Prop :=
  forall t u p, exists r, postToken env t u p = Ok r.

(** ** Client invariants *)

(** [accessToken] is [null] exactly when [expirationDateTime] is. *)
Definition bothOrNone (c : Client) : Prop :=
  accessToken c = None <-> expirationDateTime c = None.

(** A step from [st] to [st'] keeps the invariant. *)
Definition invariantKept (st st' : State) : Prop :=
  bothOrNone (client st) -> bothOrNone (client st').

(** A step from [st] to [st'] does not take requests to [ep] back. *)
Definition requestsKept (ep : Endpoint) (st st' : State) : Prop :=
  (requests ep (trace st) <= requests ep (trace st'))%nat.

(** Running [m] from [st] makes at least one request to [ep]. *)
Definition makesRequest {A} (ep : Endpoint) (m : M A) (st : State) : Prop :=
  (requests ep (trace st) < requests ep (trace (snd (m st))))%nat.

(** ** State relations kept by a computation *)

Definition respects (R : State -> State -> Prop) {A} (m : M A) : Prop :=
  forall st, R st (snd (m st)).

(** ** One call of [getAccessTokenAsync], step by step *)

Section Steps.

Variable configuration : Configuration.
Variable env : Env.

(** The state after the expiry check at the head of the method. *)
Definition afterExpiryCheck (st : State) : State :=
  match expirationDateTime (client st) with
  | Some e =>
    let t := clock env (trace st) in
    if (e <? t - 120 * 1000)%Z
    then {| client := {| expirationDateTime := None; accessToken := None |};
            trace := EvNow t :: trace st |}
    else record (EvNow t) st
  | None => st
  end.

(** The state after a token response has been stored. *)
Definition afterStore (r : TokenResponse.t) (st : State) : State :=
  let st1 :=
    record (EvPostToken (emailAddress configuration)
                        (password configuration) (Ok r)) st in
  let t := clock env (trace st1) in
  {| client :=
       {| expirationDateTime :=
            Some (t + TokenResponse.expires_in r * 1000)%Z;
          accessToken := Some (TokenResponse.access_token r) |};
     trace := EvNow t :: trace st1 |}.

Definition afterRefusal (e : Error) (st : State) : State :=
  record (EvPostToken (emailAddress configuration)
                      (password configuration) (Failed e)) st.

End Steps.

(** ** The retry pattern shared by the public methods

    [getLocksAsync], [syncLocksAsync], [syncLockAsync] and the three
    command methods wrap their [try] block in the same text; [retrying]
    is that text with the [try] block as a parameter, used to reason
    about all of them at once. *)

Section RetryPattern.

Variable configuration : Configuration.
Variable env : Env.
Variable A : Type.
Variable attempt : nat -> string -> M A.

Fixpoint retrying (fuel : nat) (retryCount : option Z) : M A :=
  match fuel with
  | O => outOfFuel
  | S fuel' =>
    let retryCount := orDefault retryCount (maximumApiRetry configuration) in
    token <- getAccessTokenAsync configuration env fuel None ;;
    tryCatch
      (attempt fuel' token)
      (fun e =>
         let retryCount := (retryCount - 1)%Z in
         if (retryCount >? 0)%Z
         then sleep (apiRetryInterval configuration) ;;
              retrying fuel' (Some retryCount)
         else throw e)
  end.

Variable ep : Endpoint.

(** Request number [n] to [ep] opens an attempt that throws the error of
    the request it made last. *)
Definition attemptThrows (n : nat) : Prop :=
  exists need,
  forall fuel token st,
    (need <= fuel)%nat ->
    requests ep (trace st) = n ->
    exists e st',
      attempt fuel token st = (Throw e, st') /\
      requests ep (trace st') = S n /\
      newestFailure (trace st') = Some e.

(** Request number [n] to [ep] opens an attempt that returns [a] in a
    state where [Q] holds. *)
Definition attemptReturns (n : nat) (a : A) (Q : State -> Prop) : Prop :=
  exists need,
  forall fuel token st,
    (need <= fuel)%nat ->
    requests ep (trace st) = n ->
    exists st',
      attempt fuel token st = (Return a, st') /\
      requests ep (trace st') = S n /\ Q st'.

End RetryPattern.

(** Request number [n] to [ep] fails, whatever it asks. *)
Definition failsOn {A} (ep : Endpoint) (n : nat)
    (answer : Trace -> HttpResult A) : Prop :=
  forall t, requests ep t = n -> exists e, answer t = Failed e.

(** Request number [n] to [ep] is answered with [a]. *)
Definition answersOn {A} (ep : Endpoint) (n : nat)
    (answer : Trace -> HttpResult A) (a : A) : Prop :=
  forall t, requests ep t = n -> answer t = Ok a.

(** A [try] block that is one request. *)
Definition simpleAttempt {A} (answer : string -> Trace -> HttpResult A)
    (ev : string -> HttpResult A -> Event) (_ : nat) (token : string)
    : M A :=
  exchange (answer token) (ev token).

(** The [try] block of a command method. *)
Definition commandAttempt (env : Env) (command : Command) (lock : Lock.t)
    (fuel : nat) (token : string) : M unit :=
  response <- axiosPostCommand env command (Lock.id lock) token ;;
  pollOperation env fuel token response.


(** ** Scripts for command attempts *)

(** How many status polls were made since the newest command request. *)
Fixpoint pollsSinceCommand (t : Trace) : nat :=
  match t with
  | [] => 0
  | ev :: t' =>
    match endpointOf ev with
    | Some CommandEndpoint => 0
    | Some OperationEndpoint => S (pollsSinceCommand t')
    | _ => pollsSinceCommand t'
    end
  end.

Definition pending (r : HttpResult Operation.t) : Prop :=
  exists op, r = Ok op /\ completed op = false.

Definition done (r : HttpResult Operation.t) : Prop :=
  exists op, r = Ok op /\ completed op = true.

Definition failed (r : HttpResult Operation.t) : Prop :=
  exists e, r = Failed e.

(** The operation responses of the attempt opened by command request
    number [n]: response [0] answers the command itself, response [S i]
    answers the status poll made after [i] earlier polls of that
    attempt. *)
Definition operationAnswer (env : Env) (command : Command) (n i : nat)
    (P : HttpResult Operation.t -> Prop) : Prop :=
  match i with
  | O =>
    forall t deviceId bearer,
      requests CommandEndpoint t = n ->
      P (postCommand env t command deviceId bearer)
  | S i' =>
    forall t operationId bearer,
      requests CommandEndpoint t = S n ->
      pollsSinceCommand t = i' ->
      P (getOperation env t operationId bearer)
  end.

(** Attempt [n] sees [m] pending responses and then a completed one. *)
Definition completesAfter (env : Env) (command : Command) (n m : nat)
    : Prop :=
  (forall i, (i < m)%nat -> operationAnswer env command n i pending) /\
  operationAnswer env command n m done.

(** Attempt [n] sees [m] pending responses and then a failure. *)
Definition failsAfter (env : Env) (command : Command) (n m : nat) : Prop :=
  (forall i, (i < m)%nat -> operationAnswer env command n i pending) /\
  operationAnswer env command n m failed.

(** ** Frame of the token fields *)

(** [onlyTokenSteps st st']: [st'] is reached from [st] by steps each of
    which either logs an event, leaving both fields as they are, or is a
    call of [getAccessTokenAsync]. *)
Inductive onlyTokenSteps (configuration : Configuration) (env : Env)
    : State -> State -> Prop :=
| onlyTokenSteps_refl st :
    onlyTokenSteps configuration env st st
| onlyTokenSteps_record st st' ev :
    onlyTokenSteps configuration env st st' ->
    onlyTokenSteps configuration env st (record ev st')
| onlyTokenSteps_token st st' fuel retryCount :
    onlyTokenSteps configuration env st st' ->
    onlyTokenSteps configuration env st
      (snd (getAccessTokenAsync configuration env fuel retryCount st')).

(** The first lock of [locks] named [name], or none. *)
Definition firstNamed (name : string) (locks : list Lock.t)
    (found : option Lock.t) : Prop :=
  match found with
  | Some l =>
    exists before after,
      locks = before ++ l :: after /\
      Lock.name l = name /\
      Forall (fun l' => Lock.name l' <> name) before
  | None => Forall (fun l' => Lock.name l' <> name) locks
  end.

(** ** Growing traces *)

(** The trace of [st'] is that of [st] with newer events on top. *)
Definition extends (st st' : State) : Prop :=
  exists evs, trace st' = evs ++ trace st.

(** The run from [st] to [st'] logged something, and the newest event is
    an operation response reporting completion. *)
Definition endsCompleted (st st' : State) : Prop :=
  exists ev evs,
    trace st' = ev :: evs ++ trace st /\ reportsCompleted ev = true.

(** ** Counting the attempts of a run *)

(** With enough fuel the run from [st] returns [a], having made exactly
    [k + 1] requests to [ep]. *)
Definition returnsAfter {A} (run : nat -> M A) (ep : Endpoint) (st : State)
    (k : nat) (a : A) : Prop :=
  exists enough,
  forall fuel,
    (enough <= fuel)%nat ->
    exists st',
      run fuel st = (Return a, st') /\
      requests ep (trace st') = (requests ep (trace st) + k + 1)%nat.

(** With enough fuel the run from [st] throws, having made exactly [n]
    requests to [ep]; the error is that of the request made last, which
    is the newest event. *)
Definition throwsAfter {A} (run : nat -> M A) (ep : Endpoint) (st : State)
    (n : nat) : Prop :=
  exists enough,
  forall fuel,
    (enough <= fuel)%nat ->
    exists e st',
      run fuel st = (Throw e, st') /\
      requests ep (trace st') = (requests ep (trace st) + n)%nat /\
      newestFailure (trace st') = Some e.

(** The public method behind each command. *)
Definition commandMethod (configuration : Configuration) (env : Env)
    (command : Command) : nat -> Lock.t -> option Z -> M unit :=
  match command with
  | Close => closeAsync configuration env
  | Open => openAsync configuration env
  | PullSpring => pullSpringAsync configuration env
  end.

(** ** Retry counts *)

(** [f], a method as a function of its retry count, treats [0] as it
    treats a count that is left out, and a count that is left out as
    [dflt] given explicitly. *)
Definition defaultsTo {B} (dflt : Z) (f : option Z -> B) : Prop :=
  f (Some 0%Z) = f None /\ f None = f (Some dflt).

(** [!retryCount]: the count is left out, or is [0]. *)
Definition falsyCount (retryCount : option Z) : bool :=
  match retryCount with
  | Some r => (r =? 0)%Z
  | None => true
  end.

(** How many attempts a retry budget stands for: the first attempt is
    made before the budget is looked at. *)
Definition attemptsOf (budget : Z) : nat := Z.to_nat (Z.max 1 budget).

(** ** Sample worlds *)

Definition sampleConfiguration (retries : Z) : Configuration :=
  {| emailAddress := "user@example.org"%string;
     password := "secret"%string;
     maximumTokenRetry := retries;
     tokenRetryInterval := 1000;
     maximumApiRetry := retries;
     apiRetryInterval := 500 |}.

Definition frontDoor : Lock.t := Lock.mk 17 "Front door"%string.

Definition backDoor : Lock.t := Lock.mk 18 "Back door"%string.

Definition sampleActivity : DeviceActivity.t :=
  DeviceActivity.mk 1 17 5 "alice"%string 32 2 "2021-05-01T10:00:00Z"%string.

Definition flaky {A} (ep : Endpoint) (k : nat) (a : A) (t : Trace)
    : HttpResult A :=
  if (requests ep t <? k)%nat then Failed "unreachable"%string else Ok a.

(** A server whose every resource endpoint fails [k] times before it
    answers, and whose operations complete at poll number [m].  Each
    event takes a second; tokens are always granted, for an hour. *)
Definition flakyEnv (k m : nat) : Env :=
  {| clock := fun t => (1000 * Z.of_nat (List.length t))%Z;
     postToken := fun _ _ _ => Ok (TokenResponse.mk "bearer-1"%string 3600);
     getLocks := fun t _ => flaky LocksEndpoint k [frontDoor; backDoor] t;
     getLocksSync := fun t _ => flaky LocksSyncEndpoint k [LockSync.mk 17 6] t;
     getLockSync := fun t id _ => flaky LockSyncEndpoint k (LockSync.mk id 6) t;
     postCommand := fun t _ _ _ =>
       flaky CommandEndpoint k
         (Operation.mk "op-1"%string (if (m =? 0)%nat then Completed else Pending)) t;
     getOperation := fun t id _ =>
       Ok (Operation.mk id
             (if (S (pollsSinceCommand t) =? m)%nat
              then Completed else Pending));
     getDeviceActivity := fun t _ _ _ =>
       flaky ActivityEndpoint k [sampleActivity] t |}.

(** A server that is up but never completes an operation and never
    serves device activity. *)
Definition stuckEnv : Env :=
  {| clock := fun t => (1000 * Z.of_nat (List.length t))%Z;
     postToken := fun _ _ _ => Ok (TokenResponse.mk "bearer-1"%string 3600);
     getLocks := fun _ _ => Ok [frontDoor; backDoor];
     getLocksSync := fun _ _ => Ok [LockSync.mk 17 6];
     getLockSync := fun _ id _ => Ok (LockSync.mk id 6);
     postCommand := fun _ _ _ _ => Ok (Operation.mk "op-1"%string Pending);
     getOperation := fun _ id _ => Ok (Operation.mk id (Intermediate 3));
     getDeviceActivity := fun _ _ _ _ => Failed "unavailable"%string |}.

(** A token endpoint that hands out an empty access token once and
    refuses afterwards. *)
Definition emptyTokenEnv : Env :=
  {| clock := fun t => (1000 * Z.of_nat (List.length t))%Z;
     postToken := fun t _ _ =>
       if (requests TokenEndpoint t =? 0)%nat
       then Ok (TokenResponse.mk ""%string 3600)
       else Failed "denied"%string;
     getLocks := fun _ _ => Ok [];
     getLocksSync := fun _ _ => Ok [];
     getLockSync := fun _ id _ => Ok (LockSync.mk id 0);
     postCommand := fun _ _ _ _ => Ok (Operation.mk "op-1"%string Completed);
     getOperation := fun _ id _ => Ok (Operation.mk id Completed);
     getDeviceActivity := fun _ _ _ _ => Ok [] |}.

(** ** Vocabulary for the further properties *)

(** Whether an event is a wait of [ms] milliseconds. *)
Definition isWait (ms : Z) (ev : Event) : bool :=
  match ev with
  | EvSleep ms' => (ms' =? ms)%Z
  | _ => false
  end.

(** The events that make the pace of a method that asks [ep]: its
    requests to [ep] and its waits, of any length. *)
Definition paced (ep : Endpoint) (ev : Event) : bool :=
  match ev with
  | EvSleep _ => true
  | _ => isRequestTo ep ev
  end.

(** [evs] reads request, wait, request, ..., wait, request: it starts and
    ends with a request to [ep], and each two requests that follow one
    another have exactly one event between them, a wait of [ms]. *)
Fixpoint alternating (ep : Endpoint) (ms : Z) (evs : list Event) : bool :=
  match evs with
  | [] => false
  | r :: rest =>
    isRequestTo ep r &&
    match rest with
    | [] => true
    | w :: rest' => isWait ms w && alternating ep ms rest'
    end
  end.

Definition Command_eqb (a b : Command) : bool :=
  match a, b with
  | Close, Close | Open, Open | PullSpring, PullSpring => true
  | _, _ => false
  end.

(** From [st] to [st'] only events that satisfy [P] were logged. *)
Definition onlyLogs (P : Event -> bool) (st st' : State) : Prop :=
  exists evs, trace st' = evs ++ trace st /\ forallb P evs = true.

(** What a method that reads from [ep] may log. *)
Definition readEvent (ep : Endpoint) (ev : Event) : bool :=
  tokenEvent ev || isRequestTo ep ev.

(** What a command method for [command] on device [deviceId] may log. *)
Definition commandEvent (command : Command) (deviceId : Z) (ev : Event)
    : bool :=
  match ev with
  | EvPostCommand c d _ _ => Command_eqb command c && (d =? deviceId)%Z
  | EvGetOperation _ _ _ => true
  | _ => tokenEvent ev
  end.

(** [prev] is an operation response naming [operationId], received with
    the bearer [bearer]. *)
Definition namesOperation (operationId bearer : string) (prev : Event)
    : bool :=
  match prev with
  | EvPostCommand _ _ b (Ok op) | EvGetOperation _ b (Ok op) =>
    String.eqb (Operation.operationId op) operationId && String.eqb b bearer
  | _ => false
  end.

(** Every status poll of the trace comes right after a wait of one
    second, which comes right after the operation response that named
    the polled operation. *)
Fixpoint chained (t : Trace) : bool :=
  match t with
  | [] => true
  | ev :: t' =>
    match ev with
    | EvGetOperation operationId bearer _ =>
      match t' with
      | EvSleep ms :: prev :: _ =>
        (ms =? 1000)%Z && namesOperation operationId bearer prev
      | _ => false
      end
    | _ => true
    end && chained t'
  end.

(** The run of [m] from [st] ends (with a result or an exception) and
    makes at most [n] requests to [ep]. *)
Definition endsWithin {A} (ep : Endpoint) (n : nat) (m : M A) (st : State)
    : Prop :=
  fst (m st) <> OutOfFuel /\
  (requests ep (trace (snd (m st))) <= requests ep (trace st) + n)%nat.

(** What was logged from [st] to [st'], clock reads and token requests
    left aside, is a request to [ep], or several with exactly one wait of
    [ms] between each two: no wait before the first request, none after
    the last, and no wait of another length. *)
Definition waitsBetween (ep : Endpoint) (ms : Z) (st st' : State) : Prop :=
  exists evs,
    trace st' = evs ++ trace st /\
    alternating ep ms (filter (paced ep) evs) = true.

(** A server that refuses every token request. *)
Definition lockedOutEnv : Env :=
  {| clock := fun t => (1000 * Z.of_nat (List.length t))%Z;
     postToken := fun _ _ _ => Failed "denied"%string;
     getLocks := fun _ _ => Ok [frontDoor; backDoor];
     getLocksSync := fun _ _ => Ok [LockSync.mk 17 6];
     getLockSync := fun _ id _ => Ok (LockSync.mk id 6);
     postCommand := fun _ _ _ _ => Ok (Operation.mk "op-1"%string Completed);
     getOperation := fun _ id _ => Ok (Operation.mk id Completed);
     getDeviceActivity := fun _ _ _ _ => Ok [sampleActivity] |}.

(** A server that grants tokens and fails every other request. *)
Definition downEnv : Env :=
  {| clock := fun t => (1000 * Z.of_nat (List.length t))%Z;
     postToken := fun _ _ _ => Ok (TokenResponse.mk "bearer-1"%string 3600);
     getLocks := fun _ _ => Failed "down"%string;
     getLocksSync := fun _ _ => Failed "down"%string;
     getLockSync := fun _ _ _ => Failed "down"%string;
     postCommand := fun _ _ _ _ => Failed "down"%string;
     getOperation := fun _ _ _ => Failed "down"%string;
     getDeviceActivity := fun _ _ _ _ => Failed "down"%string |}.

Unset Implicit Arguments.

(** ** Proof rules for state relations *)

Section Respects.

Variable R : State -> State -> Prop.
Hypothesis R_refl : forall st, R st st.
Hypothesis R_trans : forall a b c, R a b -> R b c -> R a c.

Lemma respects_ret A (a : A) : respects R (ret a).
Proof. intro st. apply R_refl. Qed.

Lemma respects_throw A e : respects R (@throw A e).
Proof. intro st. apply R_refl. Qed.

Lemma respects_outOfFuel A : respects R (@outOfFuel A).
Proof. intro st. apply R_refl. Qed.

Lemma respects_bind A B (m : M A) (k : A -> M B) :
  respects R m -> (forall a, respects R (k a)) -> respects R (bind m k).
Proof.
  intros Hm Hk st. unfold bind. specialize (Hm st).
  destruct (m st) as [[a | e |] st1]; simpl in *; auto.
  eapply R_trans; [exact Hm | apply Hk].
Qed.

Lemma respects_tryCatch A (m : M A) (h : Error -> M A) :
  respects R m -> (forall e, respects R (h e)) -> respects R (tryCatch m h).
Proof.
  intros Hm Hh st. unfold tryCatch. specialize (Hm st).
  destruct (m st) as [[a | e |] st1]; simpl in *; auto.
  eapply R_trans; [exact Hm | apply Hh].
Qed.

Hypothesis R_record : forall ev st, R st (record ev st).

Lemma respects_now env : respects R (now env).
Proof. intro st. apply R_record. Qed.

Lemma respects_sleep ms : respects R (sleep ms).
Proof. intro st. apply R_record. Qed.

Lemma respects_exchange A answer (ev : HttpResult A -> Event) :
  respects R (exchange answer ev).
Proof.
  intro st. unfold exchange.
  destruct (answer (trace st)); apply R_record.
Qed.

Variable configuration : Configuration.
Variable env : Env.

Hypothesis R_token :
  forall fuel retryCount,
    respects R (getAccessTokenAsync configuration env fuel retryCount).

Ltac respects_step :=
  first
    [ apply respects_ret | apply respects_throw | apply respects_outOfFuel
    | apply respects_sleep | apply respects_exchange | apply R_token
    | apply respects_bind; [ | intro ]
    | apply respects_tryCatch; [ | intro ]
    | match goal with
      | |- respects R (if ?b then _ else _) => destruct b
      end ].

Lemma respects_getLocksAsync fuel retryCount :
  respects R (getLocksAsync configuration env fuel retryCount).
Proof.
  revert retryCount.
  induction fuel as [| fuel IH]; intro retryCount; cbn [getLocksAsync].
  - apply respects_outOfFuel.
  - repeat respects_step. apply IH.
Qed.

Lemma respects_getLockByNameAsync fuel name retryCount :
  respects R (getLockByNameAsync configuration env fuel name retryCount).
Proof.
  unfold getLockByNameAsync.
  apply respects_bind; [ apply respects_getLocksAsync | intro ].
  apply respects_ret.
Qed.

Lemma respects_syncLocksAsync fuel retryCount :
  respects R (syncLocksAsync configuration env fuel retryCount).
Proof.
  revert retryCount.
  induction fuel as [| fuel IH]; intro retryCount; cbn [syncLocksAsync].
  - apply respects_outOfFuel.
  - repeat respects_step. apply IH.
Qed.

Lemma respects_syncLockAsync fuel id retryCount :
  respects R (syncLockAsync configuration env fuel id retryCount).
Proof.
  revert retryCount.
  induction fuel as [| fuel IH]; intro retryCount; cbn [syncLockAsync].
  - apply respects_outOfFuel.
  - repeat respects_step. apply IH.
Qed.

Lemma respects_pollOperation fuel token response :
  respects R (pollOperation env fuel token response).
Proof.
  revert response.
  induction fuel as [| fuel IH]; intro response; cbn [pollOperation].
  - repeat respects_step.
  - repeat respects_step. apply IH.
Qed.

Lemma respects_commandAsync command fuel lock retryCount :
  respects R (commandAsync configuration env command fuel lock retryCount).
Proof.
  revert retryCount.
  induction fuel as [| fuel IH]; intro retryCount; cbn [commandAsync].
  - apply respects_outOfFuel.
  - repeat respects_step; [ apply respects_pollOperation | apply IH ].
Qed.

Lemma respects_getDeviceActivityAsync fuel lock count retryCount :
  respects R
    (getDeviceActivityAsync configuration env fuel lock count retryCount).
Proof.
  revert count retryCount.
  induction fuel as [| fuel IH]; intros count retryCount; cbn [getDeviceActivityAsync].
  - apply respects_outOfFuel.
  - repeat respects_step. apply IH.
Qed.

Lemma respects_getLatestDeviceActivityAsync fuel lock retryCount :
  respects R
    (getLatestDeviceActivityAsync configuration env fuel lock retryCount).
Proof.
  unfold getLatestDeviceActivityAsync.
  apply respects_bind; [ apply respects_getDeviceActivityAsync | intro ].
  apply respects_ret.
Qed.

End Respects.

(** ** Unfolding one call of [getAccessTokenAsync] *)

Section TokenSteps.

Variable configuration : Configuration.
Variable env : Env.

Lemma getAccessTokenAsync_step fuel retryCount st :
  getAccessTokenAsync configuration env (S fuel) retryCount st =
  let st1 := afterExpiryCheck env st in
  match truthy (accessToken (client st1)) with
  | Some token => (Return token, st1)
  | None =>
    match postToken env (trace st1) (emailAddress configuration)
                    (password configuration) with
    | Ok r => (Return (TokenResponse.access_token r), afterStore configuration env r st1)
    | Failed e =>
      let left :=
        (orDefault retryCount (maximumTokenRetry configuration) - 1)%Z in
      if (left >? 0)%Z
      then getAccessTokenAsync configuration env fuel (Some left)
             (record (EvSleep (tokenRetryInterval configuration))
                     (afterRefusal configuration e st1))
      else (Throw e, afterRefusal configuration e st1)
    end
  end.
Proof.
  cbn [getAccessTokenAsync].
  unfold bind at 1. unfold getExpirationDateTime at 1.
  unfold afterExpiryCheck.
  destruct st as [[expiration token] t]; cbn [client expirationDateTime].
  destruct expiration as [e |].
  - unfold bind, now, ret, record; cbn.
    destruct (e <? clock env t - 120000)%Z; cbn.
    + unfold tryCatch, axiosPostToken, exchange; cbn.
      destruct (postToken env _ _ _); cbn; [ reflexivity | ].
      destruct (_ >? 0)%Z; reflexivity.
    + destruct (truthy token); [ reflexivity | ].
      unfold tryCatch, axiosPostToken, exchange; cbn.
      destruct (postToken env _ _ _); cbn; [ reflexivity | ].
      destruct (_ >? 0)%Z; reflexivity.
  - unfold bind, ret; cbn.
    destruct (truthy token); [ reflexivity | ].
    unfold tryCatch, axiosPostToken, exchange; cbn.
    destruct (postToken env _ _ _); cbn; [ reflexivity | ].
    destruct (_ >? 0)%Z; reflexivity.
Qed.

End TokenSteps.

(** ** Facts about traces *)

Lemma requests_cons ep ev t :
  requests ep (ev :: t) =
  ((if isRequestTo ep ev then 1 else 0) + requests ep t)%nat.
Proof.
  unfold requests. cbn [filter].
  destruct (isRequestTo ep ev); reflexivity.
Qed.

Lemma requests_app ep t1 t2 :
  requests ep (t1 ++ t2) = (requests ep t1 + requests ep t2)%nat.
Proof.
  unfold requests. rewrite filter_app, length_app. reflexivity.
Qed.

Lemma requests_tokenEvents ep evs :
  ep <> TokenEndpoint ->
  forallb tokenEvent evs = true ->
  requests ep evs = 0%nat.
Proof.
  intros Hep. induction evs as [| ev evs IH]; cbn [forallb]; intro H.
  - reflexivity.
  - apply andb_true_iff in H. destruct H as [Hev Hevs].
    rewrite requests_cons, (IH Hevs).
    destruct ev; try discriminate Hev; try reflexivity.
    destruct ep; try reflexivity. congruence.
Qed.

(** ** Facts about [getAccessTokenAsync] *)

Section TokenFacts.

Variable configuration : Configuration.
Variable env : Env.

Abbreviation getToken := (getAccessTokenAsync configuration env).

(** The method only reads the clock, waits and talks to the token
    endpoint. *)
Lemma getAccessTokenAsync_trace fuel :
  forall retryCount st,
  exists evs,
    trace (snd (getToken fuel retryCount st)) = evs ++ trace st /\
    forallb tokenEvent evs = true.
Proof.
  induction fuel as [| fuel IH]; intros retryCount st.
  - exists []. split; reflexivity.
  - rewrite getAccessTokenAsync_step. cbv zeta.
    assert (H1 : exists evs,
               trace (afterExpiryCheck env st) = evs ++ trace st /\
               forallb tokenEvent evs = true).
    { unfold afterExpiryCheck.
      destruct (expirationDateTime (client st)) as [e |].
      - destruct (e <? _)%Z; eexists [_]; split; reflexivity.
      - exists []. split; reflexivity. }
    destruct H1 as (evs1 & E1 & F1).
    destruct (truthy _).
    + exists evs1. split; assumption.
    + destruct (postToken env _ _ _) as [r | e].
      * eexists (_ :: _ :: evs1). cbn. rewrite E1. split; [ reflexivity | ].
        exact F1.
      * destruct (_ >? 0)%Z.
        -- destruct (IH (Some (orDefault retryCount
                                  (maximumTokenRetry configuration) - 1)%Z)
                        (record (EvSleep (tokenRetryInterval configuration))
                           (afterRefusal configuration e
                              (afterExpiryCheck env st))))
             as (evs2 & E2 & F2).
           eexists (evs2 ++ _ :: _ :: evs1). rewrite E2. cbn.
           rewrite E1, <- app_assoc. split; [ reflexivity | ].
           rewrite forallb_app, F2. cbn. exact F1.
        -- eexists (_ :: evs1). cbn. rewrite E1. split; [ reflexivity | ].
           exact F1.
Qed.

Lemma getAccessTokenAsync_requests ep fuel retryCount st :
  ep <> TokenEndpoint ->
  requests ep (trace (snd (getToken fuel retryCount st))) =
  requests ep (trace st).
Proof.
  intro Hep.
  destruct (getAccessTokenAsync_trace fuel retryCount st) as (evs & E & F).
  rewrite E, requests_app, (requests_tokenEvents ep evs Hep F). reflexivity.
Qed.

(** With a token endpoint that never fails the method returns a token. *)
Lemma getAccessTokenAsync_granted fuel retryCount st :
  tokenGranted env ->
  exists token st',
    getToken (S fuel) retryCount st = (Return token, st').
Proof.
  intro Hgranted. rewrite getAccessTokenAsync_step. cbv zeta.
  destruct (truthy _) as [token |]; [ eauto | ].
  destruct (Hgranted (trace (afterExpiryCheck env st))
                     (emailAddress configuration)
                     (password configuration)) as [r Hr].
  rewrite Hr. eauto.
Qed.

(** A truthy cached token that the expiry check lets through is returned
    as it is; only the clock is read. *)
Lemma getAccessTokenAsync_cached fuel retryCount e token t :
  token <> EmptyString ->
  (e <? clock env t - 120 * 1000)%Z = false ->
  getToken (S fuel) retryCount
    {| client := {| expirationDateTime := Some e;
                    accessToken := Some token |};
       trace := t |} =
  (Return token,
   {| client := {| expirationDateTime := Some e;
                   accessToken := Some token |};
      trace := EvNow (clock env t) :: t |}).
Proof.
  intros Htoken Hfresh. rewrite getAccessTokenAsync_step.
  unfold afterExpiryCheck. cbn [client expirationDateTime accessToken trace].
  rewrite Hfresh. cbn.
  destruct token; [ congruence | reflexivity ].
Qed.

(** The invariant on the two fields is kept. *)
Lemma getAccessTokenAsync_bothOrNone fuel :
  forall retryCount st,
    bothOrNone (client st) ->
    bothOrNone (client (snd (getToken fuel retryCount st))).
Proof.
  induction fuel as [| fuel IH]; intros retryCount st Hinv.
  - exact Hinv.
  - rewrite getAccessTokenAsync_step. cbv zeta.
    assert (H1 : bothOrNone (client (afterExpiryCheck env st))).
    { unfold afterExpiryCheck.
      destruct (expirationDateTime (client st)) as [e |]; [ | exact Hinv ].
      destruct (e <? _)%Z; [ | exact Hinv ].
      split; reflexivity. }
    destruct (truthy _); [ exact H1 | ].
    destruct (postToken env _ _ _) as [r | e].
    + split; discriminate.
    + destruct (_ >? 0)%Z; [ apply IH | ]; exact H1.
Qed.

(** When the method throws, the stored token is falsy, and the fields
    are those the expiry check of the last round left. *)
Lemma getAccessTokenAsync_throws fuel :
  forall retryCount st e st',
    getToken fuel retryCount st = (Throw e, st') ->
    truthy (accessToken (client st')) = None.
Proof.
  induction fuel as [| fuel IH]; intros retryCount st e st'.
  - discriminate.
  - rewrite getAccessTokenAsync_step. cbv zeta.
    destruct (truthy _) eqn:Htruthy; [ discriminate | ].
    destruct (postToken env _ _ _) as [r | e1]; [ discriminate | ].
    destruct (_ >? 0)%Z.
    + apply IH.
    + intro H. inversion H; subst. exact Htruthy.
Qed.

(** Enough fuel for the retry counter always yields a result. *)
Lemma getAccessTokenAsync_total fuel :
  forall retryCount st,
    (Z.to_nat (orDefault retryCount (maximumTokenRetry configuration))
     <= fuel)%nat ->
    fst (getToken (S fuel) retryCount st) <> OutOfFuel.
Proof.
  induction fuel as [| fuel IH]; intros retryCount st Hfuel;
    rewrite getAccessTokenAsync_step; cbv zeta;
    (destruct (truthy _); [ discriminate | ]);
    (destruct (postToken env _ _ _) as [r | e]; [ discriminate | ]);
    destruct (_ >? 0)%Z eqn:Hleft; try discriminate.
  - lia.
  - apply IH. cbn [orDefault].
    destruct (_ =? 0)%Z eqn:Hz; lia.
Qed.

End TokenFacts.

(** ** Facts about the retry pattern *)

Section Retrying.

Variable configuration : Configuration.
Variable env : Env.
Variable A : Type.
Variable attempt : nat -> string -> M A.

Abbreviation retry := (retrying configuration env attempt).

Lemma retrying_step fuel retryCount st token st1 :
  getAccessTokenAsync configuration env (S fuel) None st
    = (Return token, st1) ->
  retry (S fuel) retryCount st =
  match attempt fuel token st1 with
  | (Return a, st2) => (Return a, st2)
  | (Throw e, st2) =>
    let left :=
      (orDefault retryCount (maximumApiRetry configuration) - 1)%Z in
    if (left >? 0)%Z
    then retry fuel (Some left)
           (record (EvSleep (apiRetryInterval configuration)) st2)
    else (Throw e, st2)
  | (OutOfFuel, st2) => (OutOfFuel, st2)
  end.
Proof.
  intro Htoken. cbn [retrying]. unfold bind at 1. rewrite Htoken.
  unfold tryCatch.
  destruct (attempt fuel token st1) as [[a | e |] st2]; try reflexivity.
  cbv zeta. destruct (_ >? 0)%Z; reflexivity.
Qed.

Hypothesis granted : tokenGranted env.

Variable ep : Endpoint.
Hypothesis ep_not_token : ep <> TokenEndpoint.

Abbreviation throwsOn := (attemptThrows attempt ep).
Abbreviation returnsOn := (attemptReturns attempt ep).

Lemma token_keeps_requests fuel retryCount st token st1 :
  getAccessTokenAsync configuration env fuel retryCount st
    = (Return token, st1) ->
  requests ep (trace st1) = requests ep (trace st).
Proof.
  intro Htoken.
  rewrite <- (getAccessTokenAsync_requests
                configuration env ep fuel retryCount st ep_not_token).
  rewrite Htoken. reflexivity.
Qed.

Lemma retrying_returns k :
  forall n retryCount a Q,
    (forall j, (j < k)%nat -> throwsOn (n + j)) ->
    returnsOn (n + k) a Q ->
    (Z.of_nat k < orDefault retryCount (maximumApiRetry configuration))%Z ->
    exists enough,
    forall fuel st,
      (enough <= fuel)%nat ->
      requests ep (trace st) = n ->
      exists st',
        retry fuel retryCount st = (Return a, st') /\
        requests ep (trace st') = (n + k + 1)%nat /\ Q st'.
Proof.
  induction k as [| k IH]; intros n retryCount a Q Hthrows Hreturns Hbudget.
  - destruct Hreturns as [need Hreturns]. exists (S need).
    intros [| fuel] st Hfuel Hn; [ lia | ].
    destruct (getAccessTokenAsync_granted configuration env fuel None st granted)
      as (token & st1 & Htoken).
    rewrite (@retrying_step fuel retryCount st token st1 Htoken).
    destruct (Hreturns fuel token st1) as (st2 & Hrun & Hcount & HQ);
      [ lia | | ].
    + rewrite (token_keeps_requests _ _ _ _ _ Htoken). lia.
    + rewrite Hrun. exists st2. repeat split; [ lia | exact HQ ].
  - destruct (Hthrows 0%nat) as [need0 Hthrow0]; [ lia | ].
    destruct (IH (S n)
                 (Some (orDefault retryCount
                          (maximumApiRetry configuration) - 1)%Z) a Q)
      as [enough IH'].
    + intros j Hj. replace (S n + j)%nat with (n + S j)%nat by lia.
      apply Hthrows. lia.
    + replace (S n + k)%nat with (n + S k)%nat by lia. exact Hreturns.
    + cbn [orDefault]. destruct (_ =? 0)%Z eqn:Hz; lia.
    + exists (S (Nat.max need0 enough)).
      intros [| fuel] st Hfuel Hn; [ lia | ].
      destruct (getAccessTokenAsync_granted
                  configuration env fuel None st granted)
        as (token & st1 & Htoken).
      rewrite (@retrying_step fuel retryCount st token st1 Htoken).
      destruct (Hthrow0 fuel token st1) as (e & st2 & Hrun & Hcount & _);
        [ lia | | ].
      * rewrite (token_keeps_requests _ _ _ _ _ Htoken). lia.
      * rewrite Hrun. cbv zeta.
        destruct (_ >? 0)%Z eqn:Hleft; [ | lia ].
        destruct (IH' fuel
                      (record (EvSleep (apiRetryInterval configuration)) st2))
          as (st3 & Hrest & Hcount3 & HQ); [ lia | | ].
        -- cbn [record trace]. rewrite requests_cons.
           cbn. lia.
        -- exists st3. rewrite Hrest. repeat split; [ lia | exact HQ ].
Qed.

(** When every attempt throws, the budget is used up exactly and the
    error of the last attempt comes out. *)
Lemma retrying_exhausts budget :
  forall n retryCount,
    (forall j, throwsOn (n + j)) ->
    orDefault retryCount (maximumApiRetry configuration)
      = Z.of_nat (S budget) ->
    exists enough,
    forall fuel st,
      (enough <= fuel)%nat ->
      requests ep (trace st) = n ->
      exists e st',
        retry fuel retryCount st = (Throw e, st') /\
        requests ep (trace st') = (n + S budget)%nat /\
        newestFailure (trace st') = Some e.
Proof.
  induction budget as [| budget IH]; intros n retryCount Hthrows Hbudget;
    destruct (Hthrows 0%nat) as [need0 Hthrow0].
  - exists (S need0). intros [| fuel] st Hfuel Hn; [ lia | ].
    destruct (getAccessTokenAsync_granted configuration env fuel None st granted)
      as (token & st1 & Htoken).
    rewrite (@retrying_step fuel retryCount st token st1 Htoken).
    destruct (Hthrow0 fuel token st1) as (e & st2 & Hrun & Hcount & Herror);
      [ lia | | ].
    + rewrite (token_keeps_requests _ _ _ _ _ Htoken). lia.
    + rewrite Hrun. cbv zeta. rewrite Hbudget. cbn.
      exists e, st2. split; [ reflexivity | split; [ lia | exact Herror ] ].
  - destruct (IH (S n)
                 (Some (orDefault retryCount
                          (maximumApiRetry configuration) - 1)%Z))
      as [enough IH'].
    + intro j. replace (S n + j)%nat with (n + S j)%nat by lia.
      apply Hthrows.
    + cbn [orDefault]. destruct (_ =? 0)%Z eqn:Hz; lia.
    + exists (S (Nat.max need0 enough)).
      intros [| fuel] st Hfuel Hn; [ lia | ].
      destruct (getAccessTokenAsync_granted
                  configuration env fuel None st granted)
        as (token & st1 & Htoken).
      rewrite (@retrying_step fuel retryCount st token st1 Htoken).
      destruct (Hthrow0 fuel token st1) as (e & st2 & Hrun & Hcount & _);
        [ lia | | ].
      * rewrite (token_keeps_requests _ _ _ _ _ Htoken). lia.
      * rewrite Hrun. cbv zeta.
        destruct (_ >? 0)%Z eqn:Hleft; [ | lia ].
        destruct (IH' fuel
                      (record (EvSleep (apiRetryInterval configuration)) st2))
          as (e' & st3 & Hrest & Hcount3 & Herror); [ lia | | ].
        -- cbn [record trace]. rewrite requests_cons. cbn. lia.
        -- exists e', st3. rewrite Hrest.
           split; [ reflexivity | split; [ lia | exact Herror ] ].
Qed.

End Retrying.

(** ** Single requests *)

Lemma exchange_returns A (answer : Trace -> HttpResult A) ev st a :
  answer (trace st) = Ok a ->
  exchange answer ev st = (Return a, record (ev (Ok a)) st).
Proof. intro H. unfold exchange. rewrite H. reflexivity. Qed.

Lemma exchange_throws A (answer : Trace -> HttpResult A) ev st e :
  answer (trace st) = Failed e ->
  exchange answer ev st = (Throw e, record (ev (Failed e)) st).
Proof. intro H. unfold exchange. rewrite H. reflexivity. Qed.

Section SimpleAttempts.

Variable A : Type.
Variable answer : string -> Trace -> HttpResult A.
Variable ev : string -> HttpResult A -> Event.
Variable ep : Endpoint.
Hypothesis ev_ep : forall token r, isRequestTo ep (ev token r) = true.
Hypothesis ev_failure :
  forall token e, failureOf (ev token (Failed e)) = Some e.

Lemma simpleAttempt_throws n :
  (forall token, failsOn ep n (answer token)) ->
  attemptThrows (simpleAttempt answer ev) ep n.
Proof.
  intro Hfails. exists 0%nat. intros fuel token st _ Hn.
  destruct (Hfails token (trace st) Hn) as [e He].
  exists e, (record (ev token (Failed e)) st). split; [ | split ].
  - apply exchange_throws; assumption.
  - cbn [record trace]. rewrite requests_cons, ev_ep, Hn. reflexivity.
  - apply ev_failure.
Qed.

Lemma simpleAttempt_returns n a :
  (forall token, answersOn ep n (answer token) a) ->
  attemptReturns (simpleAttempt answer ev) ep n a (fun _ => True).
Proof.
  intro Hanswers. exists 0%nat. intros fuel token st _ Hn.
  exists (record (ev token (Ok a)) st). split; [ | split; [ | exact I ] ].
  - apply exchange_returns. apply Hanswers, Hn.
  - cbn [record trace]. rewrite requests_cons, ev_ep, Hn. reflexivity.
Qed.

End SimpleAttempts.

(** ** The methods as instances of the retry pattern *)

Section Instances.

Variable configuration : Configuration.
Variable env : Env.

Lemma getLocksAsync_retrying fuel :
  getLocksAsync configuration env fuel =
  retrying configuration env
    (simpleAttempt (fun token t => getLocks env t token) EvGetLocks) fuel.
Proof.
  induction fuel as [| fuel IH]; [ reflexivity | ].
  cbn [getLocksAsync retrying]. rewrite IH. reflexivity.
Qed.

Lemma syncLocksAsync_retrying fuel :
  syncLocksAsync configuration env fuel =
  retrying configuration env
    (simpleAttempt (fun token t => getLocksSync env t token)
                   EvGetLocksSync) fuel.
Proof.
  induction fuel as [| fuel IH]; [ reflexivity | ].
  cbn [syncLocksAsync retrying]. rewrite IH. reflexivity.
Qed.

Lemma syncLockAsync_retrying fuel id :
  syncLockAsync configuration env fuel id =
  retrying configuration env
    (simpleAttempt (fun token t => getLockSync env t id token)
                   (EvGetLockSync id)) fuel.
Proof.
  induction fuel as [| fuel IH]; [ reflexivity | ].
  cbn [syncLockAsync retrying]. rewrite IH. reflexivity.
Qed.

Lemma commandAsync_retrying command fuel lock :
  commandAsync configuration env command fuel lock =
  retrying configuration env (commandAttempt env command lock) fuel.
Proof.
  induction fuel as [| fuel IH]; [ reflexivity | ].
  cbn [commandAsync retrying]. rewrite IH. reflexivity.
Qed.

End Instances.

(** ** The polling loop *)

Section Polling.

Variable env : Env.
Variable token : string.

Lemma pollOperation_done fuel op st :
  completed op = true ->
  pollOperation env fuel token op st = (Return tt, st).
Proof.
  intro H. unfold completed in H.
  destruct fuel; cbn [pollOperation]; rewrite H; reflexivity.
Qed.

Lemma pollOperation_out op st :
  completed op = false ->
  pollOperation env 0 token op st = (OutOfFuel, st).
Proof.
  intro H. unfold completed in H.
  cbn [pollOperation]. rewrite H. reflexivity.
Qed.

Lemma pollOperation_step fuel op st :
  completed op = false ->
  pollOperation env (S fuel) token op st =
  let st1 := record (EvSleep 1000) st in
  match getOperation env (trace st1) (Operation.operationId op) token with
  | Ok op' =>
    pollOperation env fuel token op'
      (record (EvGetOperation (Operation.operationId op) token (Ok op')) st1)
  | Failed e =>
    (Throw e,
     record (EvGetOperation (Operation.operationId op) token (Failed e)) st1)
  end.
Proof.
  intro H. unfold completed in H.
  cbn [pollOperation]. rewrite H.
  unfold bind, sleep, axiosGetOperation, exchange. cbn.
  destruct (getOperation env _ _ _); reflexivity.
Qed.

Variable command : Command.
Variable n : nat.

(** While the responses stay pending the loop just goes on. *)
Lemma pollOperation_pending d :
  forall i op st fuel,
    completed op = false ->
    requests CommandEndpoint (trace st) = S n ->
    pollsSinceCommand (trace st) = i ->
    (forall j, (i < j)%nat -> (j <= i + d)%nat ->
               operationAnswer env command n j pending) ->
    exists op' st',
      pollOperation env (d + fuel) token op st
        = pollOperation env fuel token op' st' /\
      completed op' = false /\
      requests CommandEndpoint (trace st') = S n /\
      pollsSinceCommand (trace st') = (i + d)%nat /\
      requests OperationEndpoint (trace st')
        = (requests OperationEndpoint (trace st) + d)%nat /\
      client st' = client st.
Proof.
  induction d as [| d IH]; intros i op st fuel Hop Hn Hi Hpending.
  - exists op, st. repeat split; try lia; assumption.
  - cbn [Nat.add]. rewrite (@pollOperation_step (d + fuel) op st Hop).
    cbv zeta.
    pose proof (Hpending (S i) ltac:(lia) ltac:(lia)) as Hnext.
    cbn [operationAnswer] in Hnext.
    destruct (Hnext (trace (record (EvSleep 1000) st))
                    (Operation.operationId op) token)
      as (op1 & Hanswer & Hop1).
    { cbn [record trace]. rewrite requests_cons. exact Hn. }
    { exact Hi. }
    rewrite Hanswer.
    destruct (IH (S i) op1
                 (record (EvGetOperation (Operation.operationId op) token
                            (Ok op1))
                         (record (EvSleep 1000) st)) fuel)
      as (op' & st' & Hrun & Hop' & Hn' & Hi' & Hpolls & Hclient).
    + exact Hop1.
    + cbn [record trace]. rewrite !requests_cons. cbn. exact Hn.
    + cbn. rewrite Hi. reflexivity.
    + intros j Hj1 Hj2. apply Hpending; lia.
    + exists op', st'. rewrite Hrun. repeat split; try assumption.
      * lia.
      * rewrite Hpolls. cbn [record trace]. rewrite !requests_cons. cbn. lia.
Qed.

End Polling.

(** ** The [try] block of the command methods *)

Section CommandAttempts.

Variable env : Env.
Variable command : Command.
Variable lock : Lock.t.

Lemma commandAttempt_completes n m fuel token st :
  completesAfter env command n m ->
  (m <= fuel)%nat ->
  requests CommandEndpoint (trace st) = n ->
  exists st',
    commandAttempt env command lock fuel token st = (Return tt, st') /\
    requests CommandEndpoint (trace st') = S n /\
    requests OperationEndpoint (trace st')
      = (requests OperationEndpoint (trace st) + m)%nat /\
    pollsSinceCommand (trace st') = m /\
    client st' = client st.
Proof.
  intros [Hpending Hdone] Hfuel Hn.
  unfold commandAttempt, bind, axiosPostCommand.
  destruct m as [| m].
  - cbn [operationAnswer] in Hdone.
    destruct (Hdone (trace st) (Lock.id lock) token Hn)
      as (op & Hanswer & Hop).
    unfold exchange at 1. rewrite Hanswer.
    rewrite (pollOperation_done env token _ _ _ Hop).
    eexists. split; [ reflexivity | ].
    cbn [record trace]. rewrite !requests_cons. cbn.
    repeat split; lia.
  - pose proof (Hpending 0%nat ltac:(lia)) as Hfirst.
    cbn [operationAnswer] in Hfirst.
    destruct (Hfirst (trace st) (Lock.id lock) token Hn)
      as (op & Hanswer & Hop).
    unfold exchange at 1. rewrite Hanswer.
    set (st0 := record (EvPostCommand command (Lock.id lock) token (Ok op))
                       st).
    replace fuel with (m + S (fuel - S m))%nat by lia.
    destruct (@pollOperation_pending env token command n m 0%nat op st0
                (S (fuel - S m)))
      as (op1 & st1 & Hrun & Hop1 & Hn1 & Hi1 & Hpolls1 & Hclient1).
    + exact Hop.
    + unfold st0. cbn [record trace]. rewrite requests_cons, Hn. reflexivity.
    + reflexivity.
    + intros j Hj1 Hj2. apply Hpending. lia.
    + rewrite Hrun, (@pollOperation_step env token (fuel - S m) op1 st1 Hop1).
      cbv zeta. cbn [operationAnswer] in Hdone.
      destruct (Hdone (trace (record (EvSleep 1000) st1))
                      (Operation.operationId op1) token)
        as (op2 & Hanswer2 & Hop2).
      { cbn [record trace]. rewrite requests_cons. exact Hn1. }
      { exact Hi1. }
      rewrite Hanswer2, (pollOperation_done env token _ _ _ Hop2).
      eexists. split; [ reflexivity | ].
      cbn [record trace client]. rewrite !requests_cons. cbn.
      rewrite Hn1, Hpolls1, Hi1, Hclient1.
      unfold st0. cbn [record trace client]. rewrite requests_cons. cbn.
      repeat split; lia.
Qed.

Lemma commandAttempt_fails n m fuel token st :
  failsAfter env command n m ->
  (m <= fuel)%nat ->
  requests CommandEndpoint (trace st) = n ->
  exists e st',
    commandAttempt env command lock fuel token st = (Throw e, st') /\
    requests CommandEndpoint (trace st') = S n /\
    newestFailure (trace st') = Some e /\
    client st' = client st.
Proof.
  intros [Hpending Hfailed] Hfuel Hn.
  unfold commandAttempt, bind, axiosPostCommand.
  destruct m as [| m].
  - cbn [operationAnswer] in Hfailed.
    destruct (Hfailed (trace st) (Lock.id lock) token Hn) as (e & Hanswer).
    unfold exchange at 1. rewrite Hanswer.
    eexists _, _. split; [ reflexivity | ].
    cbn [record trace]. rewrite requests_cons. cbn.
    split; [ lia | split; reflexivity ].
  - pose proof (Hpending 0%nat ltac:(lia)) as Hfirst.
    cbn [operationAnswer] in Hfirst.
    destruct (Hfirst (trace st) (Lock.id lock) token Hn)
      as (op & Hanswer & Hop).
    unfold exchange at 1. rewrite Hanswer.
    set (st0 := record (EvPostCommand command (Lock.id lock) token (Ok op))
                       st).
    replace fuel with (m + S (fuel - S m))%nat by lia.
    destruct (@pollOperation_pending env token command n m 0%nat op st0
                (S (fuel - S m)))
      as (op1 & st1 & Hrun & Hop1 & Hn1 & Hi1 & Hpolls1 & Hclient1).
    + exact Hop.
    + unfold st0. cbn [record trace]. rewrite requests_cons, Hn. reflexivity.
    + reflexivity.
    + intros j Hj1 Hj2. apply Hpending. lia.
    + rewrite Hrun, (@pollOperation_step env token (fuel - S m) op1 st1 Hop1).
      cbv zeta. cbn [operationAnswer] in Hfailed.
      destruct (Hfailed (trace (record (EvSleep 1000) st1))
                        (Operation.operationId op1) token)
        as (e & Hanswer2).
      { cbn [record trace]. rewrite requests_cons. exact Hn1. }
      { exact Hi1. }
      rewrite Hanswer2.
      eexists _, _. split; [ reflexivity | ].
      cbn [record trace client]. rewrite !requests_cons. cbn.
      rewrite Hn1, Hclient1. repeat split.
Qed.

Lemma commandAttempt_returns n m :
  completesAfter env command n m ->
  attemptReturns (commandAttempt env command lock) CommandEndpoint n tt
    (fun st' => pollsSinceCommand (trace st') = m).
Proof.
  intro Hscript. exists m. intros fuel token st Hfuel Hn.
  destruct (@commandAttempt_completes n m fuel token st Hscript Hfuel Hn)
    as (st' & Hrun & Hn' & _ & Hi' & _).
  exists st'. auto.
Qed.

Lemma commandAttempt_throws n m :
  failsAfter env command n m ->
  attemptThrows (commandAttempt env command lock) CommandEndpoint n.
Proof.
  intro Hscript. exists m. intros fuel token st Hfuel Hn.
  destruct (@commandAttempt_fails n m fuel token st Hscript Hfuel Hn)
    as (e & st' & Hrun & Hn' & Herror & _).
  exists e, st'. auto.
Qed.

End CommandAttempts.

(** ** Device activity: the retry that forgets its counter *)

Section Activity.

Variable configuration : Configuration.
Variable env : Env.

Lemma getDeviceActivityAsync_step fuel lock count retryCount st token st1 :
  getAccessTokenAsync configuration env (S fuel) None st
    = (Return token, st1) ->
  getDeviceActivityAsync configuration env (S fuel) lock count retryCount st =
  match getDeviceActivity env (trace st1) (Lock.id lock) count token with
  | Ok r =>
    (Return r,
     record (EvGetDeviceActivity (Lock.id lock) count token (Ok r)) st1)
  | Failed e =>
    let st2 :=
      record (EvGetDeviceActivity (Lock.id lock) count token (Failed e))
             st1 in
    let left :=
      (orDefault retryCount (maximumApiRetry configuration) - 1)%Z in
    if (left >? 0)%Z
    then getDeviceActivityAsync configuration env fuel lock left None
           (record (EvSleep (apiRetryInterval configuration)) st2)
    else (Throw e, st2)
  end.
Proof.
  intro Htoken. cbn [getDeviceActivityAsync]. unfold bind at 1.
  rewrite Htoken. unfold tryCatch, axiosGetDeviceActivity, exchange.
  destruct (getDeviceActivity env _ _ _ _) as [r | e]; [ reflexivity | ].
  cbv zeta. destruct (_ >? 0)%Z; reflexivity.
Qed.

Hypothesis granted : tokenGranted env.

Lemma activity_not_token : ActivityEndpoint <> TokenEndpoint.
Proof. discriminate. Qed.

(** With a budget of two or more and a server that keeps failing, the
    method uses whatever fuel it gets: one request per unit, no throw. *)
Lemma getDeviceActivityAsync_never_gives_up fuel :
  (2 <= maximumApiRetry configuration)%Z ->
  (forall t deviceId elements bearer,
      exists e, getDeviceActivity env t deviceId elements bearer = Failed e) ->
  forall lock count st,
  exists st',
    getDeviceActivityAsync configuration env fuel lock count None st
      = (OutOfFuel, st') /\
    requests ActivityEndpoint (trace st')
      = (requests ActivityEndpoint (trace st) + fuel)%nat.
Proof.
  intros Hmax Hfails.
  induction fuel as [| fuel IH]; intros lock count st.
  - exists st. split; [ reflexivity | lia ].
  - destruct (getAccessTokenAsync_granted configuration env fuel None st
                granted) as (token & st1 & Htoken).
    rewrite (getDeviceActivityAsync_step _ _ _ _ _ _ _ Htoken).
    destruct (Hfails (trace st1) (Lock.id lock) count token) as [e He].
    rewrite He. cbv zeta. cbn [orDefault].
    destruct (_ >? 0)%Z eqn:Hleft; [ | lia ].
    destruct (IH lock (maximumApiRetry configuration - 1)%Z
                 (record (EvSleep (apiRetryInterval configuration))
                    (record (EvGetDeviceActivity (Lock.id lock) count token
                               (Failed e)) st1)))
      as (st' & Hrun & Hcount).
    exists st'. split; [ exact Hrun | ].
    rewrite Hcount. cbn [record trace]. rewrite !requests_cons. cbn.
    rewrite (token_keeps_requests configuration env ActivityEndpoint
               activity_not_token _ _ _ _ _ Htoken).
    lia.
Qed.

(** [k] failures below the configured budget, then an answer. *)
Lemma getDeviceActivityAsync_returns k :
  forall n r,
    (Z.of_nat k < maximumApiRetry configuration)%Z ->
    (forall j deviceId elements bearer,
        (j < k)%nat ->
        failsOn ActivityEndpoint (n + j)
          (fun t => getDeviceActivity env t deviceId elements bearer)) ->
    (forall deviceId elements bearer,
        answersOn ActivityEndpoint (n + k)
          (fun t => getDeviceActivity env t deviceId elements bearer) r) ->
    forall fuel lock count st,
      (k < fuel)%nat ->
      requests ActivityEndpoint (trace st) = n ->
      exists st',
        getDeviceActivityAsync configuration env fuel lock count None st
          = (Return r, st') /\
        requests ActivityEndpoint (trace st') = (n + k + 1)%nat.
Proof.
  induction k as [| k IH]; intros n r Hbudget Hfails Hanswers
    [| fuel] lock count st Hfuel Hn; try lia;
    destruct (getAccessTokenAsync_granted configuration env fuel None st
                granted) as (token & st1 & Htoken);
    rewrite (getDeviceActivityAsync_step _ _ _ _ _ _ _ Htoken);
    pose proof (token_keeps_requests configuration env ActivityEndpoint
                  activity_not_token _ _ _ _ _ Htoken) as Hkeep.
  - rewrite (Hanswers (Lock.id lock) count token (trace st1)) by lia.
    eexists. split; [ reflexivity | ].
    cbn [record trace]. rewrite requests_cons. cbn. lia.
  - destruct (Hfails 0%nat (Lock.id lock) count token ltac:(lia) (trace st1))
      as [e He]; [ lia | ].
    rewrite He. cbv zeta. cbn [orDefault].
    destruct (_ >? 0)%Z eqn:Hleft; [ | lia ].
    destruct (IH (S n) r ltac:(lia)) with
      (fuel := fuel) (lock := lock)
      (count := (maximumApiRetry configuration - 1)%Z)
      (st := record (EvSleep (apiRetryInterval configuration))
               (record (EvGetDeviceActivity (Lock.id lock) count token
                          (Failed e)) st1))
      as (st' & Hrun & Hcount).
    + intros j d el b Hj. replace (S n + j)%nat with (n + S j)%nat by lia.
      apply Hfails. lia.
    + intros d el b. replace (S n + k)%nat with (n + S k)%nat by lia.
      apply Hanswers.
    + lia.
    + cbn [record trace]. rewrite !requests_cons. cbn. lia.
    + exists st'. split; [ exact Hrun | lia ].
Qed.

(** After a first failure the second request asks for as many elements
    as retries are left, not for [count]. *)
Lemma getDeviceActivityAsync_second_request fuel lock count st n r :
  (2 <= maximumApiRetry configuration)%Z ->
  requests ActivityEndpoint (trace st) = n ->
  (forall deviceId elements bearer,
      failsOn ActivityEndpoint n
        (fun t => getDeviceActivity env t deviceId elements bearer)) ->
  (forall deviceId elements bearer,
      answersOn ActivityEndpoint (S n)
        (fun t => getDeviceActivity env t deviceId elements bearer) r) ->
  exists token st' t,
    getDeviceActivityAsync configuration env (S (S fuel)) lock count None st
      = (Return r, st') /\
    trace st'
      = EvGetDeviceActivity (Lock.id lock)
          (maximumApiRetry configuration - 1) token (Ok r) :: t.
Proof.
  intros Hmax Hn Hfails Hanswers.
  destruct (getAccessTokenAsync_granted configuration env (S fuel) None st
              granted) as (token & st1 & Htoken).
  pose proof (token_keeps_requests configuration env ActivityEndpoint
                activity_not_token _ _ _ _ _ Htoken) as Hkeep.
  rewrite (getDeviceActivityAsync_step _ _ _ _ _ _ _ Htoken).
  destruct (Hfails (Lock.id lock) count token (trace st1)) as [e He];
    [ lia | ].
  rewrite He. cbv zeta. cbn [orDefault].
  destruct (_ >? 0)%Z eqn:Hleft; [ | lia ].
  set (st2 := record (EvSleep (apiRetryInterval configuration)) _).
  destruct (getAccessTokenAsync_granted configuration env fuel None st2
              granted) as (token2 & st3 & Htoken2).
  pose proof (token_keeps_requests configuration env ActivityEndpoint
                activity_not_token _ _ _ _ _ Htoken2) as Hkeep2.
  rewrite (getDeviceActivityAsync_step _ _ _ _ _ _ _ Htoken2).
  rewrite (Hanswers (Lock.id lock) (maximumApiRetry configuration - 1)%Z
             token2 (trace st3)).
  - exists token2. eexists. exists (trace st3). split; reflexivity.
  - rewrite Hkeep2. unfold st2. cbn [record trace].
    rewrite !requests_cons. cbn. lia.
Qed.

End Activity.

(** * The claims *)

(** ** Token cache *)

(** Past the window that follows expiry the cache is dropped, and a token
    endpoint that answers is asked exactly once. *)
Lemma getAccessTokenAsync_refreshes configuration env fuel retryCount
    e token t r :
  (e + 120 * 1000 < clock env t)%Z ->
  postToken env (EvNow (clock env t) :: t) (emailAddress configuration)
            (password configuration) = Ok r ->
  let st := {| client := {| expirationDateTime := Some e;
                            accessToken := token |};
               trace := t |} in
  let st' := snd (getAccessTokenAsync configuration env (S fuel)
                    retryCount st) in
  getAccessTokenAsync configuration env (S fuel) retryCount st
    = (Return (TokenResponse.access_token r), st') /\
  accessToken (client st') = Some (TokenResponse.access_token r) /\
  requests TokenEndpoint (trace st') = S (requests TokenEndpoint t).
Proof.
  intros Hlate Hanswer st st'. subst st'.
  rewrite getAccessTokenAsync_step. subst st.
  unfold afterExpiryCheck. cbn [client expirationDateTime trace].
  replace (e <? clock env t - 120 * 1000)%Z with true
    by (symmetry; apply Z.ltb_lt; lia).
  cbn [client accessToken truthy trace]. rewrite Hanswer.
  repeat split.
Qed.

Lemma afterExpiryCheck_falsy env st :
  truthy (accessToken (client st)) = None ->
  truthy (accessToken (client (afterExpiryCheck env st))) = None.
Proof.
  intro H. unfold afterExpiryCheck.
  destruct (expirationDateTime (client st)) as [e |]; [ | exact H ].
  destruct (e <? _)%Z; [ reflexivity | exact H ].
Qed.

Lemma afterExpiryCheck_requests env ep st :
  requests ep (trace (afterExpiryCheck env st)) = requests ep (trace st).
Proof.
  unfold afterExpiryCheck.
  destruct (expirationDateTime (client st)) as [e |]; [ | reflexivity ].
  destruct (e <? _)%Z; cbn [record trace]; rewrite requests_cons;
    reflexivity.
Qed.

(** Without a usable token and with a token endpoint that fails every
    request, the method asks exactly as often as its budget says and
    then throws the error of its last request. *)
Lemma getAccessTokenAsync_exhausts configuration env budget :
  (forall t u p, exists e, postToken env t u p = Failed e) ->
  forall retryCount st fuel,
    truthy (accessToken (client (afterExpiryCheck env st))) = None ->
    orDefault retryCount (maximumTokenRetry configuration)
      = Z.of_nat (S budget) ->
    (budget < fuel)%nat ->
    exists e st',
      getAccessTokenAsync configuration env fuel retryCount st
        = (Throw e, st') /\
      requests TokenEndpoint (trace st')
        = (requests TokenEndpoint (trace st) + S budget)%nat /\
      newestFailure (trace st') = Some e.
Proof.
  intro Hfails.
  induction budget as [| budget IH];
    intros retryCount st [| fuel] Hfalsy Hbudget Hfuel; try lia;
    rewrite getAccessTokenAsync_step; cbv zeta; rewrite Hfalsy;
    destruct (Hfails (trace (afterExpiryCheck env st))
                     (emailAddress configuration) (password configuration))
      as [e He];
    rewrite He, Hbudget.
  - cbn. eexists _, _. split; [ reflexivity | ].
    cbn [afterRefusal record trace].
    rewrite requests_cons, afterExpiryCheck_requests. cbn.
    split; [ lia | reflexivity ].
  - destruct (Z.gtb_spec (Z.of_nat (S (S budget)) - 1) 0) as [Hleft | Hleft];
      [ | lia ].
    destruct (IH (Some (Z.of_nat (S (S budget)) - 1)%Z)
                 (record (EvSleep (tokenRetryInterval configuration))
                    (afterRefusal configuration e
                       (afterExpiryCheck env st))) fuel)
      as (e' & st' & Hrun & Hcount & Herror).
    + apply afterExpiryCheck_falsy. exact Hfalsy.
    + cbn [orDefault].
      destruct (Z.eqb_spec (Z.of_nat (S (S budget)) - 1) 0); lia.
    + lia.
    + exists e', st'. split; [ exact Hrun | split; [ | exact Herror ] ].
      rewrite Hcount. cbn [record afterRefusal trace].
      rewrite !requests_cons, afterExpiryCheck_requests. cbn. lia.
Qed.

(** C1 (the code departs from it).  A truthy cached token is kept for
    the whole window from 120 seconds before to 120 seconds after the
    stored expiry: the call returns it, only reads the clock, and makes no
    request to the token endpoint.  The check compares the expiry with
    the current time minus 120 seconds, so the cache is dropped only once
    the token has been expired for more than 120 seconds. *)
Theorem getAccessTokenAsync_keeps_token_around_expiry
    configuration env fuel retryCount e token t :
  token <> EmptyString ->
  (e - 120 * 1000 <= clock env t <= e + 120 * 1000)%Z ->
  getAccessTokenAsync configuration env (S fuel) retryCount
    {| client := {| expirationDateTime := Some e;
                    accessToken := Some token |};
       trace := t |}
  = (Return token,
     {| client := {| expirationDateTime := Some e;
                     accessToken := Some token |};
        trace := EvNow (clock env t) :: t |}) /\
  requests TokenEndpoint (EvNow (clock env t) :: t)
    = requests TokenEndpoint t.
Proof.
  intros Htoken Hwindow. split.
  - apply getAccessTokenAsync_cached; [ exact Htoken | ].
    apply Z.ltb_ge. lia.
  - rewrite requests_cons. reflexivity.
Qed.

Lemma getAccessTokenAsync_keeps_token_around_expiry_witness :
  let env := flakyEnv 0 0 in
  let t := [EvNow 1000; EvSleep 1000] in
  "bearer-0"%string <> EmptyString /\
  (2000 - 120 * 1000 <= clock env t <= 2000 + 120 * 1000)%Z /\
  getAccessTokenAsync (sampleConfiguration 3) env 1 None
    {| client := {| expirationDateTime := Some 2000%Z;
                    accessToken := Some "bearer-0"%string |};
       trace := t |}
  = (Return "bearer-0"%string,
     {| client := {| expirationDateTime := Some 2000%Z;
                     accessToken := Some "bearer-0"%string |};
        trace := EvNow 2000 :: t |}).
Proof.
  intros env t.
  assert (H1 : "bearer-0"%string <> EmptyString) by discriminate.
  assert (H2 : (2000 - 120 * 1000 <= clock env t <= 2000 + 120 * 1000)%Z)
    by (cbn; lia).
  split; [ exact H1 | split; [ exact H2 | ] ].
  exact (proj1 (getAccessTokenAsync_keeps_token_around_expiry
                  (sampleConfiguration 3) env 0 None 2000 "bearer-0" t
                  H1 H2)).
Defined.

(** ** Exhausting the retries *)

(** C2 (the code departs from it).  [getDeviceActivityAsync] retries with
    [(lock, retryCount)], so each retry starts again from the configured
    maximum: with a maximum of two or more and a server that fails every
    device-activity request it never throws; whatever the fuel, it is
    still running after that many requests. *)
Theorem getDeviceActivityAsync_retries_forever
    configuration env fuel lock count st :
  tokenGranted env ->
  (2 <= maximumApiRetry configuration)%Z ->
  (forall t deviceId elements bearer,
      exists e, getDeviceActivity env t deviceId elements bearer = Failed e) ->
  exists st',
    getDeviceActivityAsync configuration env fuel lock count None st
      = (OutOfFuel, st') /\
    requests ActivityEndpoint (trace st')
      = (requests ActivityEndpoint (trace st) + fuel)%nat.
Proof.
  intros Hgranted Hmax Hfails.
  apply getDeviceActivityAsync_never_gives_up; assumption.
Qed.

Lemma stuckEnv_granted : tokenGranted stuckEnv.
Proof. intros t u p. eexists. reflexivity. Qed.

Lemma flakyEnv_granted k m : tokenGranted (flakyEnv k m).
Proof. intros t u p. eexists. reflexivity. Qed.

Lemma getDeviceActivityAsync_retries_forever_witness :
  tokenGranted stuckEnv /\
  (2 <= maximumApiRetry (sampleConfiguration 2))%Z /\
  (forall t deviceId elements bearer,
      exists e,
        getDeviceActivity stuckEnv t deviceId elements bearer = Failed e) /\
  exists st',
    getDeviceActivityAsync (sampleConfiguration 2) stuckEnv 25 frontDoor 1
      None initial = (OutOfFuel, st') /\
    requests ActivityEndpoint (trace st') = 25%nat.
Proof.
  assert (H2 : (2 <= maximumApiRetry (sampleConfiguration 2))%Z)
    by (cbn; lia).
  assert (H3 : forall t deviceId elements bearer,
             exists e,
               getDeviceActivity stuckEnv t deviceId elements bearer
                 = Failed e)
    by (intros; eexists; reflexivity).
  split; [ exact stuckEnv_granted | split; [ exact H2 | split;
    [ exact H3 | ] ] ].
  exact (getDeviceActivityAsync_retries_forever
           (sampleConfiguration 2) stuckEnv 25 frontDoor 1 initial
           stuckEnv_granted H2 H3).
Defined.

Lemma commandMethod_commandAsync configuration env command :
  commandMethod configuration env command
  = commandAsync configuration env command.
Proof. destruct command; reflexivity. Qed.

(** Every regular method throws once its budget is used up by failures:
    exactly as many requests as the budget. *)
Lemma getLocksAsync_exhausts configuration env budget st :
  tokenGranted env ->
  maximumApiRetry configuration = Z.of_nat (S budget) ->
  (forall t bearer, exists e, getLocks env t bearer = Failed e) ->
  throwsAfter (fun fuel => getLocksAsync configuration env fuel None)
    LocksEndpoint st (S budget).
Proof.
  intros Hgranted Hbudget Hfails.
  destruct (retrying_exhausts configuration env _
              (simpleAttempt (fun token t => getLocks env t token) EvGetLocks)
              Hgranted LocksEndpoint ltac:(discriminate) budget
              (requests LocksEndpoint (trace st)) None)
    as [enough Hrun].
  - intro j. apply simpleAttempt_throws; [ reflexivity | reflexivity | ].
    intros token t _. apply Hfails.
  - exact Hbudget.
  - exists enough. intros fuel Hfuel.
    rewrite getLocksAsync_retrying. apply Hrun; [ exact Hfuel | reflexivity ].
Qed.

Lemma syncLocksAsync_exhausts configuration env budget st :
  tokenGranted env ->
  maximumApiRetry configuration = Z.of_nat (S budget) ->
  (forall t bearer, exists e, getLocksSync env t bearer = Failed e) ->
  throwsAfter (fun fuel => syncLocksAsync configuration env fuel None)
    LocksSyncEndpoint st (S budget).
Proof.
  intros Hgranted Hbudget Hfails.
  destruct (retrying_exhausts configuration env _
              (simpleAttempt (fun token t => getLocksSync env t token)
                             EvGetLocksSync)
              Hgranted LocksSyncEndpoint ltac:(discriminate) budget
              (requests LocksSyncEndpoint (trace st)) None)
    as [enough Hrun].
  - intro j. apply simpleAttempt_throws; [ reflexivity | reflexivity | ].
    intros token t _. apply Hfails.
  - exact Hbudget.
  - exists enough. intros fuel Hfuel.
    rewrite syncLocksAsync_retrying.
    apply Hrun; [ exact Hfuel | reflexivity ].
Qed.

Lemma syncLockAsync_exhausts configuration env id budget st :
  tokenGranted env ->
  maximumApiRetry configuration = Z.of_nat (S budget) ->
  (forall t bearer, exists e, getLockSync env t id bearer = Failed e) ->
  throwsAfter (fun fuel => syncLockAsync configuration env fuel id None)
    LockSyncEndpoint st (S budget).
Proof.
  intros Hgranted Hbudget Hfails.
  destruct (retrying_exhausts configuration env _
              (simpleAttempt (fun token t => getLockSync env t id token)
                             (EvGetLockSync id))
              Hgranted LockSyncEndpoint ltac:(discriminate) budget
              (requests LockSyncEndpoint (trace st)) None)
    as [enough Hrun].
  - intro j. apply simpleAttempt_throws; [ reflexivity | reflexivity | ].
    intros token t _. apply Hfails.
  - exact Hbudget.
  - exists enough. intros fuel Hfuel.
    rewrite syncLockAsync_retrying.
    apply Hrun; [ exact Hfuel | reflexivity ].
Qed.

Lemma commandAsync_exhausts configuration env command lock budget st :
  tokenGranted env ->
  maximumApiRetry configuration = Z.of_nat (S budget) ->
  (forall j, exists m,
      failsAfter env command (requests CommandEndpoint (trace st) + j) m) ->
  throwsAfter
    (fun fuel => commandMethod configuration env command fuel lock None)
    CommandEndpoint st (S budget).
Proof.
  intros Hgranted Hbudget Hfails.
  destruct (retrying_exhausts configuration env _
              (commandAttempt env command lock)
              Hgranted CommandEndpoint ltac:(discriminate) budget
              (requests CommandEndpoint (trace st)) None)
    as [enough Hrun].
  - intro j. destruct (Hfails j) as [m Hm].
    apply commandAttempt_throws with (m := m). exact Hm.
  - exact Hbudget.
  - exists enough. intros fuel Hfuel.
    rewrite commandMethod_commandAsync, commandAsync_retrying.
    apply Hrun; [ exact Hfuel | reflexivity ].
Qed.

Example getLocksAsync_gives_up :
  let run := getLocksAsync (sampleConfiguration 2) (flakyEnv 5 0) 9 None
               initial in
  fst run = Throw "unreachable"%string /\
  requests LocksEndpoint (trace (snd run)) = 2%nat /\
  newestFailure (trace (snd run)) = Some "unreachable"%string.
Proof. repeat split. Qed.

Example getDeviceActivityAsync_goes_on :
  let run := getDeviceActivityAsync (sampleConfiguration 2) (flakyEnv 50 0)
               9 frontDoor 1 None initial in
  fst run = OutOfFuel /\
  requests ActivityEndpoint (trace (snd run)) = 9%nat.
Proof. repeat split. Qed.

(** ** Retrying until success *)

Lemma flaky_fails A ep k (a : A) n :
  (n < k)%nat -> failsOn ep n (flaky ep k a).
Proof.
  intros Hn t Ht. unfold flaky. rewrite Ht.
  destruct (Nat.ltb_spec n k); [ eexists; reflexivity | lia ].
Qed.

Lemma flaky_answers A ep k (a : A) n :
  (k <= n)%nat -> answersOn ep n (flaky ep k a) a.
Proof.
  intros Hn t Ht. unfold flaky. rewrite Ht.
  destruct (Nat.ltb_spec n k); [ lia | reflexivity ].
Qed.

Lemma flakyEnv_fails k m command n :
  (n < k)%nat -> failsAfter (flakyEnv k m) command n 0.
Proof.
  intro Hn. split; [ intros i Hi; lia | ].
  intros t deviceId bearer Ht.
  destruct (flaky_fails _ CommandEndpoint k
              (Operation.mk "op-1"
                 (if (m =? 0)%nat then Completed else Pending)) n Hn t Ht)
    as [e He].
  exists e. exact He.
Qed.

Lemma flakyEnv_completes k m command n :
  (k <= n)%nat -> completesAfter (flakyEnv k m) command n m.
Proof.
  intro Hn. split.
  - intros [| i] Hi.
    + intros t deviceId bearer Ht. eexists. split.
      * apply (flaky_answers _ CommandEndpoint k _ n Hn t Ht).
      * destruct m; [ lia | reflexivity ].
    + intros t operationId bearer Ht Hpolls. eexists. split;
        [ reflexivity | ].
      unfold completed. cbn [Operation.status]. rewrite Hpolls.
      destruct (Nat.eqb_spec (S i) m); [ lia | reflexivity ].
  - destruct m as [| m].
    + intros t deviceId bearer Ht. eexists. split.
      * apply (flaky_answers _ CommandEndpoint k _ n Hn t Ht).
      * reflexivity.
    + intros t operationId bearer Ht Hpolls. eexists. split;
        [ reflexivity | ].
      unfold completed. cbn [Operation.status].
      rewrite Hpolls, Nat.eqb_refl. reflexivity.
Qed.

Section RetryThenSuccess.

Variable configuration : Configuration.
Variable env : Env.
Variable k : nat.
Hypothesis granted : tokenGranted env.
Hypothesis budget : (Z.of_nat k < maximumApiRetry configuration)%Z.

Lemma simple_returnsAfter A answer (ev : string -> HttpResult A -> Event)
    ep st r :
  ep <> TokenEndpoint ->
  (forall token r', isRequestTo ep (ev token r') = true) ->
  (forall token e, failureOf (ev token (Failed e)) = Some e) ->
  (forall j token, (j < k)%nat ->
      failsOn ep (requests ep (trace st) + j) (answer token)) ->
  (forall token, answersOn ep (requests ep (trace st) + k) (answer token) r) ->
  returnsAfter
    (fun fuel =>
       retrying configuration env (simpleAttempt answer ev) fuel None)
    ep st k r.
Proof.
  intros Hep Hev Hfailure Hfails Hanswers.
  destruct (retrying_returns configuration env _ (simpleAttempt answer ev)
              granted ep Hep k (requests ep (trace st)) None r
              (fun _ => True))
    as [enough Hrun].
  - intros j Hj. apply simpleAttempt_throws; [ exact Hev | exact Hfailure | ].
    intros token. apply Hfails, Hj.
  - apply simpleAttempt_returns; [ exact Hev | ].
    intros token. apply Hanswers.
  - exact budget.
  - exists enough. intros fuel Hfuel.
    destruct (Hrun fuel st Hfuel eq_refl) as (st' & H1 & H2 & _). eauto.
Qed.

Lemma getLocksAsync_returnsAfter st r :
  (forall j bearer, (j < k)%nat ->
      failsOn LocksEndpoint (requests LocksEndpoint (trace st) + j)
        (fun t => getLocks env t bearer)) ->
  (forall bearer,
      answersOn LocksEndpoint (requests LocksEndpoint (trace st) + k)
        (fun t => getLocks env t bearer) r) ->
  returnsAfter (fun fuel => getLocksAsync configuration env fuel None)
    LocksEndpoint st k r.
Proof.
  intros Hfails Hanswers.
  destruct (simple_returnsAfter _ (fun token t => getLocks env t token)
              EvGetLocks LocksEndpoint st r)
    as [enough Hrun]; try reflexivity; try assumption; [ discriminate | ].
  exists enough. intros fuel Hfuel. rewrite getLocksAsync_retrying.
  apply Hrun, Hfuel.
Qed.

Lemma getDeviceActivityAsync_returnsAfter lock count st r :
  (forall j deviceId elements bearer, (j < k)%nat ->
      failsOn ActivityEndpoint (requests ActivityEndpoint (trace st) + j)
        (fun t => getDeviceActivity env t deviceId elements bearer)) ->
  (forall deviceId elements bearer,
      answersOn ActivityEndpoint (requests ActivityEndpoint (trace st) + k)
        (fun t => getDeviceActivity env t deviceId elements bearer) r) ->
  returnsAfter
    (fun fuel =>
       getDeviceActivityAsync configuration env fuel lock count None)
    ActivityEndpoint st k r.
Proof.
  intros Hfails Hanswers. exists (S k). intros fuel Hfuel.
  apply (getDeviceActivityAsync_returns configuration env granted k
           (requests ActivityEndpoint (trace st)) r budget);
    [ | exact Hanswers | lia | reflexivity ].
  intros j deviceId elements bearer Hj. apply Hfails, Hj.
Qed.

End RetryThenSuccess.

(** C3.  With the retry count left out and [k] below [maximumApiRetry]:
    when the first [k] attempts of a call fail and attempt [k + 1]
    succeeds, the call returns what that attempt received and has made
    exactly [k + 1] attempts.  This holds for [getLocksAsync],
    [syncLocksAsync], [syncLockAsync], [getDeviceActivityAsync] (an
    attempt is one request) and for [closeAsync], [openAsync] and
    [pullSpringAsync] (an attempt is the command request with the status
    polls that follow it; it fails when the command or one of the polls
    fails, and succeeds when a response reports completion);
    [getLockByNameAsync] and [getLatestDeviceActivityAsync] hand on what
    they make of the result.  Tokens are assumed to be granted. *)
Theorem retry_then_success configuration env k :
  tokenGranted env ->
  (Z.of_nat k < maximumApiRetry configuration)%Z ->
  (forall st r,
      (forall j bearer, (j < k)%nat ->
          failsOn LocksEndpoint (requests LocksEndpoint (trace st) + j)
            (fun t => getLocks env t bearer)) ->
      (forall bearer,
          answersOn LocksEndpoint (requests LocksEndpoint (trace st) + k)
            (fun t => getLocks env t bearer) r) ->
      returnsAfter (fun fuel => getLocksAsync configuration env fuel None)
        LocksEndpoint st k r /\
      forall name,
        returnsAfter
          (fun fuel => getLockByNameAsync configuration env fuel name None)
          LocksEndpoint st k
          (find (fun l => String.eqb (Lock.name l) name) r)) /\
  (forall st r,
      (forall j bearer, (j < k)%nat ->
          failsOn LocksSyncEndpoint
            (requests LocksSyncEndpoint (trace st) + j)
            (fun t => getLocksSync env t bearer)) ->
      (forall bearer,
          answersOn LocksSyncEndpoint
            (requests LocksSyncEndpoint (trace st) + k)
            (fun t => getLocksSync env t bearer) r) ->
      returnsAfter (fun fuel => syncLocksAsync configuration env fuel None)
        LocksSyncEndpoint st k r) /\
  (forall id st r,
      (forall j bearer, (j < k)%nat ->
          failsOn LockSyncEndpoint (requests LockSyncEndpoint (trace st) + j)
            (fun t => getLockSync env t id bearer)) ->
      (forall bearer,
          answersOn LockSyncEndpoint
            (requests LockSyncEndpoint (trace st) + k)
            (fun t => getLockSync env t id bearer) r) ->
      returnsAfter (fun fuel => syncLockAsync configuration env fuel id None)
        LockSyncEndpoint st k r) /\
  (forall lock st r,
      (forall j deviceId elements bearer, (j < k)%nat ->
          failsOn ActivityEndpoint (requests ActivityEndpoint (trace st) + j)
            (fun t => getDeviceActivity env t deviceId elements bearer)) ->
      (forall deviceId elements bearer,
          answersOn ActivityEndpoint
            (requests ActivityEndpoint (trace st) + k)
            (fun t => getDeviceActivity env t deviceId elements bearer) r) ->
      (forall count,
          returnsAfter
            (fun fuel =>
               getDeviceActivityAsync configuration env fuel lock count None)
            ActivityEndpoint st k r) /\
      returnsAfter
        (fun fuel =>
           getLatestDeviceActivityAsync configuration env fuel lock None)
        ActivityEndpoint st k (hd_error r)) /\
  (forall command lock st m,
      (forall j, (j < k)%nat ->
          exists mj,
            failsAfter env command
              (requests CommandEndpoint (trace st) + j) mj) ->
      completesAfter env command
        (requests CommandEndpoint (trace st) + k) m ->
      returnsAfter
        (fun fuel => commandMethod configuration env command fuel lock None)
        CommandEndpoint st k tt).
Proof.
  intros Hgranted Hbudget.
  refine (conj _ (conj _ (conj _ (conj _ _)))).
  - intros st r Hfails Hanswers.
    destruct (getLocksAsync_returnsAfter configuration env k Hgranted Hbudget
                st r Hfails Hanswers) as [enough Hrun].
    split; [ exists enough; exact Hrun | ].
    intro name. exists enough. intros fuel Hfuel.
    destruct (Hrun fuel Hfuel) as (st' & Hlocks & Hcount).
    exists st'. unfold getLockByNameAsync, bind. rewrite Hlocks.
    split; [ reflexivity | exact Hcount ].
  - intros st r Hfails Hanswers.
    destruct (simple_returnsAfter configuration env k Hgranted Hbudget _
                (fun token t => getLocksSync env t token)
                EvGetLocksSync LocksSyncEndpoint st r)
      as [enough Hrun]; try reflexivity; try assumption; [ discriminate | ].
    exists enough. intros fuel Hfuel. rewrite syncLocksAsync_retrying.
    apply Hrun, Hfuel.
  - intros id st r Hfails Hanswers.
    destruct (simple_returnsAfter configuration env k Hgranted Hbudget _
                (fun token t => getLockSync env t id token)
                (EvGetLockSync id) LockSyncEndpoint st r)
      as [enough Hrun]; try reflexivity; try assumption; [ discriminate | ].
    exists enough. intros fuel Hfuel. rewrite syncLockAsync_retrying.
    apply Hrun, Hfuel.
  - intros lock st r Hfails Hanswers.
    split.
    + intro count.
      apply getDeviceActivityAsync_returnsAfter; assumption.
    + destruct (getDeviceActivityAsync_returnsAfter configuration env k
                  Hgranted Hbudget lock 1%Z st r Hfails Hanswers)
        as [enough Hrun].
      exists enough. intros fuel Hfuel.
      destruct (Hrun fuel Hfuel) as (st' & Hactivity & Hcount).
      exists st'. unfold getLatestDeviceActivityAsync, bind.
      rewrite Hactivity. split; [ reflexivity | exact Hcount ].
  - intros command lock st m Hfails Hcompletes.
    destruct (retrying_returns configuration env _
                (commandAttempt env command lock)
                Hgranted CommandEndpoint ltac:(discriminate) k
                (requests CommandEndpoint (trace st)) None tt
                (fun st' => pollsSinceCommand (trace st') = m))
      as [enough Hrun].
    + intros j Hj. destruct (Hfails j Hj) as [mj Hmj].
      apply commandAttempt_throws with (m := mj). exact Hmj.
    + apply commandAttempt_returns. exact Hcompletes.
    + exact Hbudget.
    + exists enough. intros fuel Hfuel.
      rewrite commandMethod_commandAsync, commandAsync_retrying.
      destruct (Hrun fuel st Hfuel eq_refl) as (st' & H1 & H2 & _). eauto.
Qed.

Lemma retry_then_success_witness :
  let configuration := sampleConfiguration 3 in
  let env := flakyEnv 2 1 in
  tokenGranted env /\
  (Z.of_nat 2 < maximumApiRetry configuration)%Z /\
  returnsAfter (fun fuel => getLocksAsync configuration env fuel None)
    LocksEndpoint initial 2 [frontDoor; backDoor] /\
  returnsAfter
    (fun fuel =>
       getLockByNameAsync configuration env fuel "Back door" None)
    LocksEndpoint initial 2 (Some backDoor) /\
  returnsAfter (fun fuel => syncLocksAsync configuration env fuel None)
    LocksSyncEndpoint initial 2 [LockSync.mk 17 6] /\
  returnsAfter (fun fuel => syncLockAsync configuration env fuel 17 None)
    LockSyncEndpoint initial 2 (LockSync.mk 17 6) /\
  returnsAfter
    (fun fuel =>
       getDeviceActivityAsync configuration env fuel frontDoor 5 None)
    ActivityEndpoint initial 2 [sampleActivity] /\
  returnsAfter
    (fun fuel =>
       getLatestDeviceActivityAsync configuration env fuel frontDoor None)
    ActivityEndpoint initial 2 (Some sampleActivity) /\
  returnsAfter
    (fun fuel => commandMethod configuration env Open fuel frontDoor None)
    CommandEndpoint initial 2 tt.
Proof.
  intros configuration env.
  assert (Hgranted : tokenGranted env) by apply flakyEnv_granted.
  assert (Hbudget : (Z.of_nat 2 < maximumApiRetry configuration)%Z)
    by (cbn; lia).
  destruct (retry_then_success configuration env 2 Hgranted Hbudget)
    as (Hlocks & Hsync & Hsync1 & Hactivity & Hcommand).
  destruct (Hlocks initial [frontDoor; backDoor]) as [Hlocks1 Hlocks2].
  { intros j bearer Hj. apply flaky_fails. exact Hj. }
  { intros bearer. apply flaky_answers. cbn. lia. }
  destruct (Hactivity frontDoor initial [sampleActivity])
    as [Hactivity1 Hactivity2].
  { intros j deviceId elements bearer Hj. apply flaky_fails. exact Hj. }
  { intros deviceId elements bearer. apply flaky_answers. cbn. lia. }
  split; [ exact Hgranted | ].
  split; [ exact Hbudget | ].
  split; [ exact Hlocks1 | ].
  split; [ exact (Hlocks2 "Back door"%string) | ].
  split.
  { apply Hsync.
    - intros j bearer Hj. apply flaky_fails. exact Hj.
    - intros bearer. apply flaky_answers. cbn. lia. }
  split.
  { apply Hsync1.
    - intros j bearer Hj. apply flaky_fails. exact Hj.
    - intros bearer. apply flaky_answers. cbn. lia. }
  split; [ exact (Hactivity1 5%Z) | ].
  split; [ exact Hactivity2 | ].
  apply Hcommand with (m := 1%nat).
  - intros j Hj. exists 0%nat. apply flakyEnv_fails. exact Hj.
  - apply flakyEnv_completes. cbn. lia.
Defined.

(** ** The latest device activity *)

(** The first request of [getLatestDeviceActivityAsync] asks for one
    element, and an answer to it is reduced to its head. *)
Lemma getLatestDeviceActivityAsync_first_request
    configuration env fuel lock retryCount st token st1 r :
  getAccessTokenAsync configuration env (S fuel) None st
    = (Return token, st1) ->
  getDeviceActivity env (trace st1) (Lock.id lock) 1 token = Ok r ->
  getLatestDeviceActivityAsync configuration env (S fuel) lock retryCount st
  = (Return (hd_error r),
     record (EvGetDeviceActivity (Lock.id lock) 1 token (Ok r)) st1).
Proof.
  intros Htoken Hanswer. unfold getLatestDeviceActivityAsync, bind.
  rewrite (getDeviceActivityAsync_step _ _ _ _ _ _ _ _ _ Htoken), Hanswer.
  reflexivity.
Qed.

(** C4 (the code departs from it).  The retry inside
    [getDeviceActivityAsync] passes the decremented retry counter where
    the elements count belongs.  So when the first device-activity
    request of [getLatestDeviceActivityAsync] fails and the second is
    answered, the second request asked for [maximumApiRetry - 1]
    elements, which is 1 only when the maximum is 2; the head of the
    answer is returned all the same. *)
Theorem getLatestDeviceActivityAsync_retry_elements
    configuration env fuel lock st r :
  tokenGranted env ->
  (2 <= maximumApiRetry configuration)%Z ->
  (forall deviceId elements bearer,
      failsOn ActivityEndpoint (requests ActivityEndpoint (trace st))
        (fun t => getDeviceActivity env t deviceId elements bearer)) ->
  (forall deviceId elements bearer,
      answersOn ActivityEndpoint (S (requests ActivityEndpoint (trace st)))
        (fun t => getDeviceActivity env t deviceId elements bearer) r) ->
  exists token st' t,
    getLatestDeviceActivityAsync configuration env (S (S fuel)) lock None st
      = (Return (hd_error r), st') /\
    trace st'
      = EvGetDeviceActivity (Lock.id lock)
          (maximumApiRetry configuration - 1) token (Ok r) :: t.
Proof.
  intros Hgranted Hmax Hfails Hanswers.
  destruct (getDeviceActivityAsync_second_request configuration env Hgranted
              fuel lock 1%Z st (requests ActivityEndpoint (trace st)) r
              Hmax eq_refl Hfails Hanswers)
    as (token & st' & t & Hrun & Htrace).
  unfold getLatestDeviceActivityAsync, bind. rewrite Hrun.
  exists token, st', t. split; [ reflexivity | exact Htrace ].
Qed.

Lemma getLatestDeviceActivityAsync_retry_elements_witness :
  let configuration := sampleConfiguration 3 in
  let env := flakyEnv 1 1 in
  tokenGranted env /\
  (2 <= maximumApiRetry configuration)%Z /\
  exists token st' t,
    getLatestDeviceActivityAsync configuration env 2 frontDoor None initial
      = (Return (Some sampleActivity), st') /\
    trace st'
      = EvGetDeviceActivity 17 2 token (Ok [sampleActivity]) :: t.
Proof.
  intros configuration env.
  assert (Hgranted : tokenGranted env) by apply flakyEnv_granted.
  assert (Hmax : (2 <= maximumApiRetry configuration)%Z) by (cbn; lia).
  split; [ exact Hgranted | split; [ exact Hmax | ] ].
  apply (getLatestDeviceActivityAsync_retry_elements configuration env 0
           frontDoor initial [sampleActivity] Hgranted Hmax).
  - intros deviceId elements bearer. apply flaky_fails. cbn. lia.
  - intros deviceId elements bearer. apply flaky_answers. cbn. lia.
Defined.

(** ** Polling an operation *)

Lemma extends_refl st : extends st st.
Proof. exists []. reflexivity. Qed.

Lemma extends_trans a b c : extends a b -> extends b c -> extends a c.
Proof.
  intros [evs1 H1] [evs2 H2]. exists (evs2 ++ evs1).
  rewrite H2, H1, app_assoc. reflexivity.
Qed.

Lemma extends_record ev st : extends st (record ev st).
Proof. exists [ev]. reflexivity. Qed.

Lemma extends_token configuration env fuel retryCount :
  respects extends (getAccessTokenAsync configuration env fuel retryCount).
Proof.
  intro st.
  destruct (getAccessTokenAsync_trace configuration env fuel retryCount st)
    as (evs & Hevs & _).
  exists evs. exact Hevs.
Qed.

Lemma endsCompleted_after a b c :
  extends a b -> endsCompleted b c -> endsCompleted a c.
Proof.
  intros [evs1 H1] (ev & evs2 & H2 & Hev). exists ev, (evs2 ++ evs1).
  rewrite H2, H1, app_assoc. split; [ reflexivity | exact Hev ].
Qed.

Lemma retrying_unfold configuration env A (attempt : nat -> string -> M A)
    fuel retryCount st :
  retrying configuration env attempt (S fuel) retryCount st =
  match getAccessTokenAsync configuration env (S fuel) None st with
  | (Return token, st1) =>
    match attempt fuel token st1 with
    | (Return a, st2) => (Return a, st2)
    | (Throw e, st2) =>
      let left :=
        (orDefault retryCount (maximumApiRetry configuration) - 1)%Z in
      if (left >? 0)%Z
      then retrying configuration env attempt fuel (Some left)
             (record (EvSleep (apiRetryInterval configuration)) st2)
      else (Throw e, st2)
    | (OutOfFuel, st2) => (OutOfFuel, st2)
    end
  | (Throw e, st1) => (Throw e, st1)
  | (OutOfFuel, st1) => (OutOfFuel, st1)
  end.
Proof.
  destruct (getAccessTokenAsync configuration env (S fuel) None st)
    as [[token | e |] st1] eqn:Htoken.
  - apply retrying_step. exact Htoken.
  - cbn [retrying]. unfold bind at 1. rewrite Htoken. reflexivity.
  - cbn [retrying]. unfold bind at 1. rewrite Htoken. reflexivity.
Qed.

Section Completion.

Variable configuration : Configuration.
Variable env : Env.
Variable command : Command.
Variable lock : Lock.t.

Lemma pollOperation_returned fuel :
  forall token op st st',
    pollOperation env fuel token op st = (Return tt, st') ->
    (completed op = true /\ st' = st) \/ endsCompleted st st'.
Proof.
  induction fuel as [| fuel IH]; intros token op st st' Hrun;
    destruct (completed op) eqn:Hop.
  - rewrite (pollOperation_done env token _ _ _ Hop) in Hrun.
    left. split; congruence.
  - rewrite (pollOperation_out env token _ _ Hop) in Hrun. discriminate.
  - rewrite (pollOperation_done env token _ _ _ Hop) in Hrun.
    left. split; congruence.
  - rewrite (pollOperation_step env token _ _ _ Hop) in Hrun.
    cbv zeta in Hrun.
    destruct (getOperation env _ _ _) as [op' | e]; [ | discriminate ].
    right. destruct (IH _ _ _ _ Hrun) as [[Hop' Hst] | Hends].
    + subst st'. eexists _, [_]. split; [ reflexivity | exact Hop' ].
    + eapply endsCompleted_after; [ | exact Hends ].
      eexists [_; _]. reflexivity.
Qed.

Lemma commandAttempt_returned fuel token st st' :
  commandAttempt env command lock fuel token st = (Return tt, st') ->
  endsCompleted st st'.
Proof.
  unfold commandAttempt, bind, axiosPostCommand, exchange.
  destruct (postCommand env _ _ _ _) as [op | e]; [ | discriminate ].
  intro Hrun. destruct (pollOperation_returned _ _ _ _ _ Hrun)
    as [[Hop Hst] | Hends].
  - subst st'. eexists _, []. split; [ reflexivity | exact Hop ].
  - eapply endsCompleted_after; [ | exact Hends ]. apply extends_record.
Qed.

Lemma commandAttempt_extends fuel token :
  respects extends (commandAttempt env command lock fuel token).
Proof.
  unfold commandAttempt.
  apply (respects_bind extends extends_trans).
  - apply (respects_exchange extends extends_record).
  - intro response.
    apply (respects_pollOperation extends extends_refl extends_trans
             extends_record).
Qed.

Lemma commandAsync_returned fuel :
  forall retryCount st st',
    commandAsync configuration env command fuel lock retryCount st
      = (Return tt, st') ->
    endsCompleted st st'.
Proof.
  rewrite commandAsync_retrying.
  induction fuel as [| fuel IH]; intros retryCount st st' Hrun.
  - discriminate.
  - rewrite retrying_unfold in Hrun.
    pose proof (extends_token configuration env (S fuel) None st) as Hext.
    destruct (getAccessTokenAsync configuration env (S fuel) None st)
      as [[token | e |] st1]; try discriminate.
    pose proof (commandAttempt_extends fuel token st1) as Hext2.
    destruct (commandAttempt env command lock fuel token st1)
      as [[[] | e |] st2] eqn:Hattempt; try discriminate.
    + inversion Hrun; subst st2.
      eapply endsCompleted_after; [ exact Hext | ].
      eapply commandAttempt_returned. exact Hattempt.
    + cbv zeta in Hrun. destruct (_ >? 0)%Z; [ | discriminate ].
      apply IH in Hrun.
      eapply endsCompleted_after; [ | exact Hrun ].
      eapply extends_trans; [ exact Hext | ].
      eapply extends_trans; [ exact Hext2 | apply extends_record ].
Qed.

Hypothesis granted : tokenGranted env.

Lemma commandAsync_first_attempt m fuel retryCount st :
  completesAfter env command (requests CommandEndpoint (trace st)) m ->
  (m < fuel)%nat ->
  exists st',
    commandAsync configuration env command fuel lock retryCount st
      = (Return tt, st') /\
    requests OperationEndpoint (trace st')
      = (requests OperationEndpoint (trace st) + m)%nat /\
    requests CommandEndpoint (trace st')
      = (requests CommandEndpoint (trace st) + 1)%nat.
Proof.
  intros Hscript Hfuel. destruct fuel as [| fuel]; [ lia | ].
  destruct (getAccessTokenAsync_granted configuration env fuel None st
              granted) as (token & st1 & Htoken).
  rewrite commandAsync_retrying, (retrying_step _ _ _ _ _ _ _ _ _ Htoken).
  destruct (commandAttempt_completes env command lock
              (requests CommandEndpoint (trace st)) m fuel token st1 Hscript)
    as (st' & Hrun & Hn & Hpolls & _); [ lia | | ].
  - apply (token_keeps_requests configuration env CommandEndpoint
             ltac:(discriminate) _ _ _ _ _ Htoken).
  - rewrite Hrun. exists st'. repeat split.
    + rewrite Hpolls. f_equal.
      apply (token_keeps_requests configuration env OperationEndpoint
               ltac:(discriminate) _ _ _ _ _ Htoken).
    + lia.
Qed.

Lemma commandAsync_stuck fuel retryCount st :
  (forall t deviceId bearer,
      pending (postCommand env t command deviceId bearer)) ->
  (forall t operationId bearer,
      pending (getOperation env t operationId bearer)) ->
  exists st',
    commandAsync configuration env command fuel lock retryCount st
      = (OutOfFuel, st') /\
    requests OperationEndpoint (trace st')
      = (requests OperationEndpoint (trace st) + (fuel - 1))%nat.
Proof.
  intros Hpost Hpoll. destruct fuel as [| fuel].
  - exists st. split; [ reflexivity | lia ].
  - destruct (getAccessTokenAsync_granted configuration env fuel None st
                granted) as (token & st1 & Htoken).
    rewrite commandAsync_retrying, (retrying_step _ _ _ _ _ _ _ _ _ Htoken).
    unfold commandAttempt, bind, axiosPostCommand, exchange.
    destruct (Hpost (trace st1) (Lock.id lock) token)
      as (op & Hanswer & Hop).
    rewrite Hanswer.
    set (st2 := record (EvPostCommand command (Lock.id lock) token (Ok op))
                       st1).
    destruct (pollOperation_pending env token command
                (requests CommandEndpoint (trace st1)) fuel 0%nat op st2
                0%nat Hop)
      as (op' & st' & Hrun & Hop' & _ & _ & Hpolls & _).
    + unfold st2. cbn [record trace]. rewrite requests_cons. reflexivity.
    + reflexivity.
    + intros [| j] Hj1 Hj2; [ lia | ].
      intros t operationId bearer _ _. apply Hpoll.
    + rewrite Nat.add_0_r in Hrun.
      rewrite Hrun, (pollOperation_out env token _ _ Hop').
      exists st'. split; [ reflexivity | ].
      rewrite Hpolls. unfold st2. cbn [record trace]. rewrite requests_cons.
      cbn.
      rewrite (token_keeps_requests configuration env OperationEndpoint
                 ltac:(discriminate) _ _ _ _ _ Htoken).
      lia.
Qed.

End Completion.

(** ** Fuel only has to be enough

    A run that ends with a result or an exception ends the same way, in
    the same state, with any larger amount of fuel. *)

Section Fuel.

Variable configuration : Configuration.
Variable env : Env.

Lemma getAccessTokenAsync_more_fuel fuel :
  forall fuel' retryCount st,
    (fuel <= fuel')%nat ->
    fst (getAccessTokenAsync configuration env fuel retryCount st)
      <> OutOfFuel ->
    getAccessTokenAsync configuration env fuel' retryCount st
    = getAccessTokenAsync configuration env fuel retryCount st.
Proof.
  induction fuel as [| fuel IH]; intros fuel' retryCount st Hle Hdone.
  - exfalso. apply Hdone. reflexivity.
  - destruct fuel' as [| fuel']; [ lia | ].
    rewrite getAccessTokenAsync_step in Hdone.
    rewrite !getAccessTokenAsync_step. cbv zeta in *.
    destruct (truthy _); [ reflexivity | ].
    destruct (postToken env _ _ _); [ reflexivity | ].
    destruct (_ >? 0)%Z; [ | reflexivity ].
    apply IH; [ lia | exact Hdone ].
Qed.

Lemma pollOperation_more_fuel fuel :
  forall fuel' token op st,
    (fuel <= fuel')%nat ->
    fst (pollOperation env fuel token op st) <> OutOfFuel ->
    pollOperation env fuel' token op st = pollOperation env fuel token op st.
Proof.
  induction fuel as [| fuel IH]; intros fuel' token op st Hle Hdone;
    destruct (completed op) eqn:Hop.
  - rewrite !(pollOperation_done env token _ _ _ Hop). reflexivity.
  - exfalso. apply Hdone.
    rewrite (pollOperation_out env token _ _ Hop). reflexivity.
  - rewrite !(pollOperation_done env token _ _ _ Hop). reflexivity.
  - destruct fuel' as [| fuel']; [ lia | ].
    rewrite (pollOperation_step env token _ _ _ Hop) in Hdone.
    rewrite !(pollOperation_step env token _ _ _ Hop). cbv zeta in *.
    destruct (getOperation env _ _ _); [ | reflexivity ].
    apply IH; [ lia | exact Hdone ].
Qed.

Variable A : Type.
Variable attempt : nat -> string -> M A.

Hypothesis attempt_more_fuel :
  forall fuel fuel' token st,
    (fuel <= fuel')%nat ->
    fst (attempt fuel token st) <> OutOfFuel ->
    attempt fuel' token st = attempt fuel token st.

Lemma retrying_more_fuel fuel :
  forall fuel' retryCount st,
    (fuel <= fuel')%nat ->
    fst (retrying configuration env attempt fuel retryCount st)
      <> OutOfFuel ->
    retrying configuration env attempt fuel' retryCount st
    = retrying configuration env attempt fuel retryCount st.
Proof.
  induction fuel as [| fuel IH]; intros fuel' retryCount st Hle Hdone.
  - exfalso. apply Hdone. reflexivity.
  - destruct fuel' as [| fuel']; [ lia | ].
    rewrite retrying_unfold in Hdone. rewrite !retrying_unfold.
    rewrite (getAccessTokenAsync_more_fuel (S fuel) (S fuel') None st Hle).
    + destruct (getAccessTokenAsync configuration env (S fuel) None st)
        as [[token | e |] st1]; try reflexivity.
      rewrite (attempt_more_fuel fuel fuel' token st1 ltac:(lia)).
      * destruct (attempt fuel token st1) as [[a | e |] st2];
          try reflexivity.
        cbv zeta in *. destruct (_ >? 0)%Z; [ | reflexivity ].
        apply IH; [ lia | exact Hdone ].
      * intro Hout. apply Hdone.
        destruct (attempt fuel token st1) as [[a | e |] st2];
          try discriminate Hout.
        reflexivity.
    + intro Hout. apply Hdone.
      destruct (getAccessTokenAsync configuration env (S fuel) None st)
        as [[token | e |] st1]; try discriminate Hout.
      reflexivity.
Qed.

End Fuel.

Lemma simpleAttempt_more_fuel A answer (ev : string -> HttpResult A -> Event)
    fuel fuel' token st :
  simpleAttempt answer ev fuel' token st
  = simpleAttempt answer ev fuel token st.
Proof. reflexivity. Qed.

Lemma commandAttempt_more_fuel env command lock fuel fuel' token st :
  (fuel <= fuel')%nat ->
  fst (commandAttempt env command lock fuel token st) <> OutOfFuel ->
  commandAttempt env command lock fuel' token st
  = commandAttempt env command lock fuel token st.
Proof.
  unfold commandAttempt, bind. intros Hle Hdone.
  destruct (axiosPostCommand env command (Lock.id lock) token st)
    as [[op | e |] st1]; try reflexivity.
  apply pollOperation_more_fuel; assumption.
Qed.

Lemma getDeviceActivityAsync_more_fuel configuration env fuel :
  forall fuel' lock count retryCount st,
    (fuel <= fuel')%nat ->
    fst (getDeviceActivityAsync configuration env fuel lock count
           retryCount st) <> OutOfFuel ->
    getDeviceActivityAsync configuration env fuel' lock count retryCount st
    = getDeviceActivityAsync configuration env fuel lock count retryCount st.
Proof.
  induction fuel as [| fuel IH];
    intros fuel' lock count retryCount st Hle Hdone.
  - exfalso. apply Hdone. reflexivity.
  - destruct fuel' as [| fuel']; [ lia | ].
    cbn [getDeviceActivityAsync] in *. unfold bind at 1.
    unfold bind at 1 in Hdone. unfold bind at 2.
    rewrite (getAccessTokenAsync_more_fuel configuration env
               (S fuel) (S fuel') None st Hle).
    + destruct (getAccessTokenAsync configuration env (S fuel) None st)
        as [[token | e |] st1]; try reflexivity.
      unfold tryCatch in *.
      destruct (axiosGetDeviceActivity env (Lock.id lock) count token st1)
        as [[r | e |] st2]; try reflexivity.
      cbv zeta in *. destruct (_ >? 0)%Z; [ | reflexivity ].
      unfold bind, sleep in *. apply IH; [ lia | exact Hdone ].
    + intro Hout. apply Hdone.
      destruct (getAccessTokenAsync configuration env (S fuel) None st)
        as [[token | e |] st1]; try discriminate Hout.
      reflexivity.
Qed.

(** Every method of the client, at once. *)
Lemma more_fuel_same_result configuration env fuel fuel' :
  (fuel <= fuel')%nat ->
  (forall retryCount st,
      fst (getLocksAsync configuration env fuel retryCount st)
        <> OutOfFuel ->
      getLocksAsync configuration env fuel' retryCount st
      = getLocksAsync configuration env fuel retryCount st) /\
  (forall retryCount st,
      fst (syncLocksAsync configuration env fuel retryCount st)
        <> OutOfFuel ->
      syncLocksAsync configuration env fuel' retryCount st
      = syncLocksAsync configuration env fuel retryCount st) /\
  (forall id retryCount st,
      fst (syncLockAsync configuration env fuel id retryCount st)
        <> OutOfFuel ->
      syncLockAsync configuration env fuel' id retryCount st
      = syncLockAsync configuration env fuel id retryCount st) /\
  (forall command lock retryCount st,
      fst (commandAsync configuration env command fuel lock retryCount st)
        <> OutOfFuel ->
      commandAsync configuration env command fuel' lock retryCount st
      = commandAsync configuration env command fuel lock retryCount st).
Proof.
  intro Hle. repeat split.
  - intros retryCount st. rewrite !getLocksAsync_retrying.
    apply retrying_more_fuel; [ | exact Hle ].
    intros. apply simpleAttempt_more_fuel.
  - intros retryCount st. rewrite !syncLocksAsync_retrying.
    apply retrying_more_fuel; [ | exact Hle ].
    intros. apply simpleAttempt_more_fuel.
  - intros id retryCount st. rewrite !syncLockAsync_retrying.
    apply retrying_more_fuel; [ | exact Hle ].
    intros. apply simpleAttempt_more_fuel.
  - intros command lock retryCount st. rewrite !commandAsync_retrying.
    apply retrying_more_fuel; [ | exact Hle ].
    intros. apply commandAttempt_more_fuel; assumption.
Qed.

(** C5.  For [closeAsync], [openAsync] and [pullSpringAsync]: when the
    command response is pending, the first status response is pending
    and the second reports [Completed], the call returns after exactly
    one command request and exactly two status polls. *)
Theorem command_polls_twice configuration env command lock retryCount st :
  tokenGranted env ->
  operationAnswer env command (requests CommandEndpoint (trace st)) 0
    pending ->
  operationAnswer env command (requests CommandEndpoint (trace st)) 1
    pending ->
  operationAnswer env command (requests CommandEndpoint (trace st)) 2
    done ->
  forall fuel,
    (3 <= fuel)%nat ->
    exists st',
      commandMethod configuration env command fuel lock retryCount st
        = (Return tt, st') /\
      requests OperationEndpoint (trace st')
        = (requests OperationEndpoint (trace st) + 2)%nat /\
      requests CommandEndpoint (trace st')
        = (requests CommandEndpoint (trace st) + 1)%nat.
Proof.
  intros Hgranted H0 H1 H2 fuel Hfuel.
  rewrite commandMethod_commandAsync.
  apply commandAsync_first_attempt; [ exact Hgranted | | lia ].
  split; [ | exact H2 ].
  intros [| [| i]] Hi; [ exact H0 | exact H1 | lia ].
Qed.

Lemma command_polls_twice_witness :
  let env := flakyEnv 0 2 in
  tokenGranted env /\
  operationAnswer env PullSpring 0 0 pending /\
  operationAnswer env PullSpring 0 1 pending /\
  operationAnswer env PullSpring 0 2 done /\
  exists st',
    pullSpringAsync (sampleConfiguration 3) env 3 backDoor None initial
      = (Return tt, st') /\
    requests OperationEndpoint (trace st') = 2%nat /\
    requests CommandEndpoint (trace st') = 1%nat.
Proof.
  intro env.
  assert (Hgranted : tokenGranted env) by apply flakyEnv_granted.
  destruct (flakyEnv_completes 0 2 PullSpring 0 (le_n 0)) as [Hpending Hdone].
  assert (H0 : operationAnswer env PullSpring 0 0 pending)
    by (apply Hpending; lia).
  assert (H1 : operationAnswer env PullSpring 0 1 pending)
    by (apply Hpending; lia).
  repeat (split; [ assumption | ]).
  exact (command_polls_twice (sampleConfiguration 3) env PullSpring backDoor
           None initial Hgranted H0 H1 Hdone 3 (le_n 3)).
Defined.

(** C6.  For [closeAsync], [openAsync] and [pullSpringAsync]: a call
    that returns has logged, as its newest event, an operation response
    with status [Completed]; and when the server answers every command
    and every status poll with a status other than [Completed], the call
    neither returns nor throws however much fuel it gets, and the number
    of polls it has made grows with the fuel. *)
Theorem command_waits_for_completion
    configuration env command lock retryCount :
  (forall fuel st st',
      commandMethod configuration env command fuel lock retryCount st
        = (Return tt, st') ->
      endsCompleted st st') /\
  (tokenGranted env ->
   (forall t deviceId bearer,
       pending (postCommand env t command deviceId bearer)) ->
   (forall t operationId bearer,
       pending (getOperation env t operationId bearer)) ->
   forall fuel st,
   exists st',
     commandMethod configuration env command fuel lock retryCount st
       = (OutOfFuel, st') /\
     requests OperationEndpoint (trace st')
       = (requests OperationEndpoint (trace st) + (fuel - 1))%nat).
Proof.
  rewrite commandMethod_commandAsync. split.
  - intros fuel st st'. apply commandAsync_returned.
  - intros Hgranted Hpost Hpoll fuel st.
    apply commandAsync_stuck; assumption.
Qed.

Lemma command_waits_for_completion_witness :
  (closeAsync (sampleConfiguration 3) (flakyEnv 1 1) 4 frontDoor None initial
   = (Return tt,
      snd (closeAsync (sampleConfiguration 3) (flakyEnv 1 1) 4 frontDoor
             None initial)) /\
   endsCompleted initial
     (snd (closeAsync (sampleConfiguration 3) (flakyEnv 1 1) 4 frontDoor
             None initial))) /\
  (tokenGranted stuckEnv /\
   (forall t deviceId bearer,
       pending (postCommand stuckEnv t Close deviceId bearer)) /\
   (forall t operationId bearer,
       pending (getOperation stuckEnv t operationId bearer)) /\
   exists st',
     closeAsync (sampleConfiguration 3) stuckEnv 40 frontDoor None initial
       = (OutOfFuel, st') /\
     requests OperationEndpoint (trace st') = 39%nat).
Proof.
  split.
  - assert (Hrun : closeAsync (sampleConfiguration 3) (flakyEnv 1 1) 4
                     frontDoor None initial
                   = (Return tt,
                      snd (closeAsync (sampleConfiguration 3) (flakyEnv 1 1)
                             4 frontDoor None initial)))
      by reflexivity.
    split; [ exact Hrun | ].
    exact (proj1 (command_waits_for_completion (sampleConfiguration 3)
                    (flakyEnv 1 1) Close frontDoor None)
             4%nat initial _ Hrun).
  - assert (Hpost : forall t deviceId bearer,
               pending (postCommand stuckEnv t Close deviceId bearer))
      by (intros; eexists; split; reflexivity).
    assert (Hpoll : forall t operationId bearer,
               pending (getOperation stuckEnv t operationId bearer))
      by (intros; eexists; split; reflexivity).
    repeat (split; [ first [ exact stuckEnv_granted | assumption ] | ]).
    exact (proj2 (command_waits_for_completion (sampleConfiguration 3)
                    stuckEnv Close frontDoor None)
             stuckEnv_granted Hpost Hpoll 40%nat initial).
Defined.

(** ** Looking a lock up by name *)

Lemma find_firstNamed name locks :
  firstNamed name locks
    (find (fun l => String.eqb (Lock.name l) name) locks).
Proof.
  induction locks as [| l locks IH]; cbn [find].
  - constructor.
  - destruct (String.eqb_spec (Lock.name l) name) as [Heq | Hne].
    + exists [], locks. repeat split; [ exact Heq | constructor ].
    + destruct (find _ locks) as [found |]; cbn [firstNamed] in *.
      * destruct IH as (before & after & Hlocks & Hname & Hbefore).
        exists (l :: before), after. rewrite Hlocks.
        repeat split; [ exact Hname | constructor; assumption ].
      * constructor; assumption.
Qed.

(** C7.  [getLockByNameAsync] runs [getLocksAsync] and nothing else:
    it ends in the state [getLocksAsync] ends in; when that call returns
    a list, the result is the first lock of the list whose name is the
    given one, or [undefined] when the list has no lock of that name;
    when that call throws, the same error comes out. *)
Theorem getLockByNameAsync_first_match
    configuration env fuel name retryCount st :
  match getLocksAsync configuration env fuel retryCount st with
  | (Return locks, st') =>
    exists found,
      getLockByNameAsync configuration env fuel name retryCount st
        = (Return found, st') /\
      firstNamed name locks found
  | (Throw e, st') =>
    getLockByNameAsync configuration env fuel name retryCount st
      = (Throw e, st')
  | (OutOfFuel, st') =>
    getLockByNameAsync configuration env fuel name retryCount st
      = (OutOfFuel, st')
  end.
Proof.
  unfold getLockByNameAsync, bind.
  destruct (getLocksAsync configuration env fuel retryCount st)
    as [[locks | e |] st']; try reflexivity.
  eexists. split; [ reflexivity | apply find_firstNamed ].
Qed.

Example getLockByNameAsync_back_door :
  fst (getLockByNameAsync (sampleConfiguration 3) (flakyEnv 1 0) 3
         "Back door" None initial) = Return (Some backDoor) /\
  fst (getLockByNameAsync (sampleConfiguration 3) (flakyEnv 1 0) 3
         "Garage" None initial) = Return None.
Proof. split; reflexivity. Qed.

(** ** Who writes the token fields *)

Lemma onlyTokenSteps_trans configuration env a b c :
  onlyTokenSteps configuration env a b ->
  onlyTokenSteps configuration env b c ->
  onlyTokenSteps configuration env a c.
Proof.
  intros Hab Hbc. induction Hbc as [| b c ev Hbc IH | b c fuel rc Hbc IH].
  - exact Hab.
  - apply onlyTokenSteps_record, IH, Hab.
  - apply onlyTokenSteps_token, IH, Hab.
Qed.

Lemma onlyTokenSteps_one_record configuration env ev st :
  onlyTokenSteps configuration env st (record ev st).
Proof. apply onlyTokenSteps_record, onlyTokenSteps_refl. Qed.

Lemma onlyTokenSteps_one_token configuration env fuel retryCount :
  respects (onlyTokenSteps configuration env)
    (getAccessTokenAsync configuration env fuel retryCount).
Proof. intro st. apply onlyTokenSteps_token, onlyTokenSteps_refl. Qed.

(** What one call of [getAccessTokenAsync] can do to the fields: nothing,
    drop both, or store a token the endpoint just handed out together
    with its expiry. *)
Lemma getAccessTokenAsync_fields configuration env fuel :
  forall retryCount st,
    let c' := client (snd (getAccessTokenAsync configuration env fuel
                             retryCount st)) in
    c' = client st \/
    c' = {| expirationDateTime := None; accessToken := None |} \/
    exists t r,
      postToken env t (emailAddress configuration) (password configuration)
        = Ok r /\
      c' = {| expirationDateTime :=
                Some (clock env
                        (EvPostToken (emailAddress configuration)
                           (password configuration) (Ok r) :: t)
                      + TokenResponse.expires_in r * 1000)%Z;
              accessToken := Some (TokenResponse.access_token r) |}.
Proof.
  induction fuel as [| fuel IH]; intros retryCount st; cbv zeta.
  - left. reflexivity.
  - rewrite getAccessTokenAsync_step. cbv zeta.
    assert (H1 : client (afterExpiryCheck env st) = client st \/
                 client (afterExpiryCheck env st)
                 = {| expirationDateTime := None; accessToken := None |}).
    { unfold afterExpiryCheck.
      destruct (expirationDateTime (client st)) as [e |]; [ | auto ].
      destruct (e <? _)%Z; auto. }
    destruct (truthy _).
    + destruct H1; auto.
    + destruct (postToken env _ _ _) as [r | e] eqn:Hanswer.
      * right. right. eexists _, r. split; [ exact Hanswer | reflexivity ].
      * destruct (_ >? 0)%Z.
        -- specialize (IH (Some (orDefault retryCount
                                   (maximumTokenRetry configuration) - 1)%Z)
                          (record (EvSleep (tokenRetryInterval configuration))
                             (afterRefusal configuration e
                                (afterExpiryCheck env st)))).
           cbv zeta in IH. cbn [record afterRefusal client] in IH.
           destruct IH as [IH | [IH | IH]]; [ | auto | auto ].
           rewrite IH. destruct H1; auto.
        -- cbn [snd afterRefusal record client]. destruct H1; auto.
Qed.

(** C8.  Logging an event leaves both fields as they are, and every
    public method moves the client only by logging events and by calling
    [getAccessTokenAsync]; a call of [getAccessTokenAsync] in turn either
    leaves the fields alone, drops both (the cache is invalidated), or
    stores a token just received and its expiry. *)
Theorem fields_written_by_token_refresh_only configuration env :
  (forall ev st, client (record ev st) = client st) /\
  (forall fuel retryCount,
      respects (onlyTokenSteps configuration env)
        (getLocksAsync configuration env fuel retryCount)) /\
  (forall fuel name retryCount,
      respects (onlyTokenSteps configuration env)
        (getLockByNameAsync configuration env fuel name retryCount)) /\
  (forall fuel retryCount,
      respects (onlyTokenSteps configuration env)
        (syncLocksAsync configuration env fuel retryCount)) /\
  (forall fuel id retryCount,
      respects (onlyTokenSteps configuration env)
        (syncLockAsync configuration env fuel id retryCount)) /\
  (forall command fuel lock retryCount,
      respects (onlyTokenSteps configuration env)
        (commandMethod configuration env command fuel lock retryCount)) /\
  (forall fuel lock count retryCount,
      respects (onlyTokenSteps configuration env)
        (getDeviceActivityAsync configuration env fuel lock count
           retryCount)) /\
  (forall fuel lock retryCount,
      respects (onlyTokenSteps configuration env)
        (getLatestDeviceActivityAsync configuration env fuel lock
           retryCount)) /\
  (forall fuel retryCount st,
      let c' := client (snd (getAccessTokenAsync configuration env fuel
                               retryCount st)) in
      c' = client st \/
      c' = {| expirationDateTime := None; accessToken := None |} \/
      exists t r,
        postToken env t (emailAddress configuration)
                  (password configuration) = Ok r /\
        c' = {| expirationDateTime :=
                  Some (clock env
                          (EvPostToken (emailAddress configuration)
                             (password configuration) (Ok r) :: t)
                        + TokenResponse.expires_in r * 1000)%Z;
                accessToken := Some (TokenResponse.access_token r) |}).
Proof.
  pose proof (onlyTokenSteps_refl configuration env) as Hrefl.
  pose proof (onlyTokenSteps_trans configuration env) as Htrans.
  pose proof (fun ev st => onlyTokenSteps_one_record configuration env ev st)
    as Hrecord.
  pose proof (onlyTokenSteps_one_token configuration env) as Htoken.
  repeat split.
  - intros. apply respects_getLocksAsync; assumption.
  - intros. apply respects_getLockByNameAsync; assumption.
  - intros. apply respects_syncLocksAsync; assumption.
  - intros. apply respects_syncLockAsync; assumption.
  - intros. rewrite commandMethod_commandAsync.
    apply respects_commandAsync; assumption.
  - intros. apply respects_getDeviceActivityAsync; assumption.
  - intros. apply respects_getLatestDeviceActivityAsync; assumption.
  - intros fuel retryCount st. apply getAccessTokenAsync_fields.
Qed.

(** ** The invariant on the two fields *)

Lemma invariantKept_refl st : invariantKept st st.
Proof. intro H. exact H. Qed.

Lemma invariantKept_trans a b c :
  invariantKept a b -> invariantKept b c -> invariantKept a c.
Proof. intros Hab Hbc H. apply Hbc, Hab, H. Qed.

Lemma invariantKept_record ev st : invariantKept st (record ev st).
Proof. intro H. exact H. Qed.

Lemma invariantKept_token configuration env fuel retryCount :
  respects invariantKept
    (getAccessTokenAsync configuration env fuel retryCount).
Proof. intros st H. apply getAccessTokenAsync_bothOrNone, H. Qed.

(** C9 as stated fails in its last part, that a throwing
    [getAccessTokenAsync] leaves both fields [null].  A token endpoint
    that once answers with an empty [access_token] refutes it: the empty
    string is stored with its expiry, the next call finds it falsy and
    asks again, and when that request fails the call throws with both
    fields still set. *)
Lemma getAccessTokenAsync_throws_with_fields_set :
  ~ (forall configuration env fuel st e st',
        bothOrNone (client st) ->
        getAccessTokenAsync configuration env fuel None st = (Throw e, st') ->
        accessToken (client st') = None /\
        expirationDateTime (client st') = None).
Proof.
  intro Hclaim.
  pose (configuration := sampleConfiguration 2).
  pose (st1 := snd (getAccessTokenAsync configuration emptyTokenEnv 3 None
                      initial)).
  pose (st2 := snd (getAccessTokenAsync configuration emptyTokenEnv 3 None
                      st1)).
  assert (Hinv : bothOrNone (client st1)) by (split; discriminate).
  assert (Hrun : getAccessTokenAsync configuration emptyTokenEnv 3 None st1
                 = (Throw "denied"%string, st2)) by reflexivity.
  destruct (Hclaim configuration emptyTokenEnv 3%nat st1 _ st2 Hinv Hrun)
    as [Htoken _].
  discriminate Htoken.
Qed.

(** C9 (amended).  [accessToken] is [null] exactly when
    [expirationDateTime] is: this holds for a new client and is kept by
    [getAccessTokenAsync] and by every public method.  When
    [getAccessTokenAsync] throws from a state with the invariant, the
    stored token is falsy: either both fields are [null], or the token is
    the empty string and the expiry is set. *)
Theorem fields_both_or_none configuration env :
  bothOrNone (client initial) /\
  (forall fuel retryCount,
      respects invariantKept
        (getAccessTokenAsync configuration env fuel retryCount)) /\
  (forall fuel retryCount,
      respects invariantKept
        (getLocksAsync configuration env fuel retryCount)) /\
  (forall fuel name retryCount,
      respects invariantKept
        (getLockByNameAsync configuration env fuel name retryCount)) /\
  (forall fuel retryCount,
      respects invariantKept
        (syncLocksAsync configuration env fuel retryCount)) /\
  (forall fuel id retryCount,
      respects invariantKept
        (syncLockAsync configuration env fuel id retryCount)) /\
  (forall command fuel lock retryCount,
      respects invariantKept
        (commandMethod configuration env command fuel lock retryCount)) /\
  (forall fuel lock count retryCount,
      respects invariantKept
        (getDeviceActivityAsync configuration env fuel lock count
           retryCount)) /\
  (forall fuel lock retryCount,
      respects invariantKept
        (getLatestDeviceActivityAsync configuration env fuel lock
           retryCount)) /\
  (forall fuel retryCount st e st',
      bothOrNone (client st) ->
      getAccessTokenAsync configuration env fuel retryCount st
        = (Throw e, st') ->
      (accessToken (client st') = None /\
       expirationDateTime (client st') = None) \/
      (accessToken (client st') = Some EmptyString /\
       expirationDateTime (client st') <> None)).
Proof.
  pose proof invariantKept_refl as Hrefl.
  pose proof invariantKept_trans as Htrans.
  pose proof invariantKept_record as Hrecord.
  pose proof (invariantKept_token configuration env) as Htoken.
  refine (conj _ (conj _ (conj _ (conj _ (conj _ (conj _ (conj _
            (conj _ (conj _ _))))))))).
  - split; reflexivity.
  - exact Htoken.
  - intros. apply respects_getLocksAsync; assumption.
  - intros. apply respects_getLockByNameAsync; assumption.
  - intros. apply respects_syncLocksAsync; assumption.
  - intros. apply respects_syncLockAsync; assumption.
  - intros. rewrite commandMethod_commandAsync.
    apply respects_commandAsync; assumption.
  - intros. apply respects_getDeviceActivityAsync; assumption.
  - intros. apply respects_getLatestDeviceActivityAsync; assumption.
  - intros fuel retryCount st e st' Hinv Hrun.
    pose proof (Htoken fuel retryCount st Hinv) as Hinv'.
    rewrite Hrun in Hinv'. cbn [snd] in Hinv'.
    apply getAccessTokenAsync_throws in Hrun.
    destruct Hinv' as [Hnone Hexpiry].
    destruct (accessToken (client st')) as [[| c token] |];
      cbn [truthy] in Hrun.
    + right. split; [ reflexivity | ].
      intro Hexp. apply Hexpiry in Hexp. discriminate Hexp.
    + discriminate Hrun.
    + left. split; [ reflexivity | ]. apply Hnone. reflexivity.
Qed.

Lemma fields_both_or_none_witness :
  let configuration := sampleConfiguration 2 in
  let st1 := snd (getAccessTokenAsync configuration emptyTokenEnv 3 None
                    initial) in
  let st2 := snd (getAccessTokenAsync configuration emptyTokenEnv 3 None
                    st1) in
  bothOrNone (client st1) /\
  getAccessTokenAsync configuration emptyTokenEnv 3 None st1
    = (Throw "denied"%string, st2) /\
  ((accessToken (client st2) = None /\
    expirationDateTime (client st2) = None) \/
   (accessToken (client st2) = Some EmptyString /\
    expirationDateTime (client st2) <> None)).
Proof.
  intros configuration st1 st2.
  assert (Hinv : bothOrNone (client st1)) by (split; discriminate).
  assert (Hrun : getAccessTokenAsync configuration emptyTokenEnv 3 None st1
                 = (Throw "denied"%string, st2)) by reflexivity.
  split; [ exact Hinv | split; [ exact Hrun | ] ].
  destruct (fields_both_or_none configuration emptyTokenEnv)
    as (_ & _ & _ & _ & _ & _ & _ & _ & _ & Hthrows).
  exact (Hthrows 3%nat None st1 _ st2 Hinv Hrun).
Defined.

(** ** A falsy retry count *)

Lemma requestsKept_refl ep st : requestsKept ep st st.
Proof. unfold requestsKept. lia. Qed.

Lemma requestsKept_trans ep a b c :
  requestsKept ep a b -> requestsKept ep b c -> requestsKept ep a c.
Proof. unfold requestsKept. lia. Qed.

Lemma requestsKept_record ep ev st : requestsKept ep st (record ev st).
Proof. unfold requestsKept. cbn [record trace]. rewrite requests_cons. lia. Qed.

Lemma requestsKept_token ep configuration env fuel retryCount :
  respects (requestsKept ep)
    (getAccessTokenAsync configuration env fuel retryCount).
Proof.
  intro st.
  destruct (extends_token configuration env fuel retryCount st) as [evs H].
  unfold requestsKept. rewrite H, requests_app. lia.
Qed.

Section FirstRequest.

Variable configuration : Configuration.
Variable env : Env.

(** A falsy first token check leads to a token request, whatever the
    retry count. *)
Lemma getAccessTokenAsync_makesRequest fuel retryCount st :
  truthy (accessToken (client (afterExpiryCheck env st))) = None ->
  makesRequest TokenEndpoint
    (getAccessTokenAsync configuration env (S fuel) retryCount) st.
Proof.
  intro Hfalsy. unfold makesRequest.
  rewrite getAccessTokenAsync_step. cbv zeta. rewrite Hfalsy.
  assert (H1 : (requests TokenEndpoint (trace st)
                <= requests TokenEndpoint
                     (trace (afterExpiryCheck env st)))%nat).
  { unfold afterExpiryCheck.
    destruct (expirationDateTime (client st)) as [e |]; [ | lia ].
    destruct (e <? _)%Z; cbn [record trace]; rewrite requests_cons; lia. }
  destruct (postToken env _ _ _) as [r | e].
  - cbn [snd afterStore record trace]. rewrite !requests_cons. cbn. lia.
  - destruct (_ >? 0)%Z.
    + pose proof (requestsKept_token TokenEndpoint configuration env fuel
                    (Some (orDefault retryCount
                             (maximumTokenRetry configuration) - 1)%Z)
                    (record (EvSleep (tokenRetryInterval configuration))
                       (afterRefusal configuration e
                          (afterExpiryCheck env st)))) as H2.
      unfold requestsKept in H2.
      cbn [record afterRefusal trace] in H2.
      rewrite !requests_cons in H2. cbn in H2. cbn [record afterRefusal].
      lia.
    + cbn [snd afterRefusal record trace]. rewrite requests_cons. cbn. lia.
Qed.

Variable A : Type.
Variable attempt : nat -> string -> M A.
Variable ep : Endpoint.

Hypothesis attempt_requests :
  forall fuel token st, makesRequest ep (attempt fuel token) st.

Lemma retrying_requestsKept fuel :
  forall retryCount,
    respects (requestsKept ep)
      (retrying configuration env attempt fuel retryCount).
Proof.
  induction fuel as [| fuel IH]; intros retryCount st.
  - apply requestsKept_refl.
  - rewrite retrying_unfold.
    pose proof (requestsKept_token ep configuration env (S fuel) None st)
      as Htoken.
    destruct (getAccessTokenAsync configuration env (S fuel) None st)
      as [[token | e |] st1]; cbn [snd] in *; try exact Htoken.
    pose proof (attempt_requests fuel token st1) as Hattempt.
    unfold makesRequest in Hattempt.
    destruct (attempt fuel token st1) as [[a | e |] st2]; cbn [snd] in *;
      unfold requestsKept in *; try lia.
    cbv zeta. destruct (_ >? 0)%Z; cbn [snd]; [ | lia ].
    specialize (IH (Some (orDefault retryCount
                            (maximumApiRetry configuration) - 1)%Z)
                   (record (EvSleep (apiRetryInterval configuration)) st2)).
    cbn [record trace] in IH. rewrite requests_cons in IH. cbn in IH. lia.
Qed.

(** Once a token is there, the first attempt is made, whatever the retry
    count and whatever the configured maximum. *)
Lemma retrying_makesRequest fuel retryCount st token st1 :
  getAccessTokenAsync configuration env (S fuel) None st
    = (Return token, st1) ->
  makesRequest ep (retrying configuration env attempt (S fuel) retryCount) st.
Proof.
  intro Htoken. unfold makesRequest.
  pose proof (requestsKept_token ep configuration env (S fuel) None st)
    as Hkept.
  rewrite Htoken in Hkept. cbn [snd] in Hkept.
  rewrite (retrying_step _ _ _ _ _ _ _ _ _ Htoken).
  pose proof (attempt_requests fuel token st1) as Hattempt.
  unfold makesRequest in Hattempt.
  destruct (attempt fuel token st1) as [[a | e |] st2]; cbn [snd] in *;
    unfold requestsKept in *; try lia.
  cbv zeta. destruct (_ >? 0)%Z; cbn [snd]; [ | lia ].
  pose proof (retrying_requestsKept fuel
                (Some (orDefault retryCount
                         (maximumApiRetry configuration) - 1)%Z)
                (record (EvSleep (apiRetryInterval configuration)) st2))
    as Hrest.
  unfold requestsKept in Hrest.
  cbn [record trace] in Hrest. rewrite requests_cons in Hrest.
  cbn in Hrest. lia.
Qed.

End FirstRequest.

Lemma simpleAttempt_makesRequest A answer (ev : string -> HttpResult A -> Event)
    ep fuel token st :
  (forall token r, isRequestTo ep (ev token r) = true) ->
  makesRequest ep (simpleAttempt answer ev fuel token) st.
Proof.
  intro Hev. unfold makesRequest, simpleAttempt, exchange.
  destruct (answer token (trace st)); cbn [snd record trace];
    rewrite requests_cons, Hev; lia.
Qed.

Lemma commandAttempt_makesRequest env command lock fuel token st :
  makesRequest CommandEndpoint (commandAttempt env command lock fuel token) st.
Proof.
  unfold makesRequest, commandAttempt, bind, axiosPostCommand, exchange.
  destruct (postCommand env _ _ _ _) as [op | e].
  - pose proof (respects_pollOperation (requestsKept CommandEndpoint)
                  (requestsKept_refl CommandEndpoint)
                  (requestsKept_trans CommandEndpoint)
                  (requestsKept_record CommandEndpoint)
                  env fuel token op
                  (record (EvPostCommand command (Lock.id lock) token (Ok op))
                          st)) as Hpoll.
    unfold requestsKept in Hpoll. cbn [record trace] in Hpoll.
    rewrite requests_cons in Hpoll. cbn in Hpoll.
    destruct (pollOperation env fuel token op _) as [[[] | e |] st'];
      cbn [snd] in *; lia.
  - cbn [snd record trace]. rewrite requests_cons. cbn. lia.
Qed.

Lemma getDeviceActivityAsync_makesRequest configuration env fuel lock count
    retryCount st token st1 :
  getAccessTokenAsync configuration env (S fuel) None st
    = (Return token, st1) ->
  makesRequest ActivityEndpoint
    (getDeviceActivityAsync configuration env (S fuel) lock count retryCount)
    st.
Proof.
  intro Htoken. unfold makesRequest.
  pose proof (requestsKept_token ActivityEndpoint configuration env (S fuel)
                None st) as Hkept.
  rewrite Htoken in Hkept. cbn [snd] in Hkept. unfold requestsKept in Hkept.
  rewrite (getDeviceActivityAsync_step _ _ _ _ _ _ _ _ _ Htoken).
  destruct (getDeviceActivity env _ _ _ _) as [r | e].
  - cbn [snd record trace]. rewrite requests_cons. cbn. lia.
  - cbv zeta. destruct (_ >? 0)%Z.
    + match goal with
      | |- context [getDeviceActivityAsync _ _ fuel lock ?c None ?s] =>
        pose proof (respects_getDeviceActivityAsync
                      (requestsKept ActivityEndpoint)
                      (requestsKept_refl ActivityEndpoint)
                      (requestsKept_trans ActivityEndpoint)
                      (requestsKept_record ActivityEndpoint)
                      configuration env
                      (requestsKept_token ActivityEndpoint configuration env)
                      fuel lock c None s) as Hrest
      end.
      unfold requestsKept in Hrest. cbn [record trace] in Hrest.
      rewrite !requests_cons in Hrest. cbn in Hrest. lia.
    + cbn [snd record trace]. rewrite requests_cons. cbn. lia.
Qed.

(** ** What a retry count stands for *)

Lemma attemptsOf_small budget : (budget <= 1)%Z -> attemptsOf budget = 1%nat.
Proof. unfold attemptsOf. intro H. rewrite Z.max_l by lia. reflexivity. Qed.

Lemma attemptsOf_large budget :
  (2 <= budget)%Z ->
  budget = Z.of_nat (S (Z.to_nat budget - 1)) /\
  attemptsOf budget = S (Z.to_nat budget - 1).
Proof. unfold attemptsOf. intro H. split; lia. Qed.

Lemma orDefault_own dflt : orDefault (Some dflt) dflt = dflt.
Proof. cbn [orDefault]. destruct (dflt =? 0)%Z; reflexivity. Qed.

Lemma orDefault_falsy retryCount dflt :
  falsyCount retryCount = true -> orDefault retryCount dflt = dflt.
Proof.
  destruct retryCount as [r |]; cbn [falsyCount orDefault]; intro H;
    [ rewrite H | ]; reflexivity.
Qed.

(** With no token to be had, [getAccessTokenAsync] asks as often as its
    budget says and throws the error of its last request. *)
Lemma getAccessTokenAsync_runs_out configuration env retryCount st fuel :
  (forall t u p, exists e, postToken env t u p = Failed e) ->
  truthy (accessToken (client (afterExpiryCheck env st))) = None ->
  (attemptsOf (orDefault retryCount (maximumTokenRetry configuration))
   <= fuel)%nat ->
  exists e st',
    getAccessTokenAsync configuration env fuel retryCount st
      = (Throw e, st') /\
    requests TokenEndpoint (trace st')
      = (requests TokenEndpoint (trace st)
         + attemptsOf (orDefault retryCount
                         (maximumTokenRetry configuration)))%nat /\
    newestFailure (trace st') = Some e.
Proof.
  intros Hfails Hfalsy Hfuel.
  destruct (Z_le_gt_dec
              (orDefault retryCount (maximumTokenRetry configuration)) 1)
    as [Hsmall | Hlarge].
  - rewrite (attemptsOf_small _ Hsmall) in *.
    destruct fuel as [| fuel]; [ lia | ].
    rewrite getAccessTokenAsync_step. cbv zeta. rewrite Hfalsy.
    destruct (Hfails (trace (afterExpiryCheck env st))
                     (emailAddress configuration) (password configuration))
      as [e He].
    rewrite He.
    destruct (Z.gtb_spec
                (orDefault retryCount (maximumTokenRetry configuration) - 1)
                0); [ lia | ].
    eexists _, _. split; [ reflexivity | ].
    cbn [afterRefusal record trace].
    rewrite requests_cons, afterExpiryCheck_requests. cbn.
    split; [ lia | reflexivity ].
  - destruct (attemptsOf_large
                (orDefault retryCount (maximumTokenRetry configuration))
                ltac:(lia)) as [Hbudget Hattempts].
    rewrite Hattempts in *.
    apply getAccessTokenAsync_exhausts; solve [ assumption | lia ].
Qed.

Lemma lockedOutEnv_refuses :
  forall t u p, exists e, postToken lockedOutEnv t u p = Failed e.
Proof. intros t u p. eexists. reflexivity. Qed.

Section GivingUp.

Variable configuration : Configuration.
Variable env : Env.
Variable A : Type.
Variable attempt : nat -> string -> M A.
Hypothesis granted : tokenGranted env.
Variable ep : Endpoint.
Hypothesis ep_not_token : ep <> TokenEndpoint.

Lemma retrying_gives_up n retryCount :
  (forall j, attemptThrows attempt ep (n + j)) ->
  exists enough,
  forall fuel st,
    (enough <= fuel)%nat ->
    requests ep (trace st) = n ->
    exists e st',
      retrying configuration env attempt fuel retryCount st
        = (Throw e, st') /\
      requests ep (trace st')
        = (n + attemptsOf (orDefault retryCount
                             (maximumApiRetry configuration)))%nat /\
      newestFailure (trace st') = Some e.
Proof.
  intro Hthrows.
  destruct (Z_le_gt_dec
              (orDefault retryCount (maximumApiRetry configuration)) 1)
    as [Hsmall | Hlarge].
  - rewrite (attemptsOf_small _ Hsmall).
    destruct (Hthrows 0%nat) as [need Hthrow].
    exists (S need). intros [| fuel] st Hfuel Hn; [ lia | ].
    destruct (getAccessTokenAsync_granted configuration env fuel None st
                granted) as (token & st1 & Htoken).
    rewrite (retrying_step _ _ _ _ _ _ _ _ _ Htoken).
    destruct (Hthrow fuel token st1) as (e & st2 & Hrun & Hcount & Herror);
      [ lia | | ].
    + rewrite (token_keeps_requests configuration env ep ep_not_token
                 _ _ _ _ _ Htoken). lia.
    + rewrite Hrun. cbv zeta.
      destruct (Z.gtb_spec
                  (orDefault retryCount (maximumApiRetry configuration) - 1)
                  0); [ lia | ].
      exists e, st2. split; [ reflexivity | split; [ lia | exact Herror ] ].
  - destruct (attemptsOf_large
                (orDefault retryCount (maximumApiRetry configuration))
                ltac:(lia)) as [Hbudget Hattempts].
    rewrite Hattempts.
    apply (retrying_exhausts configuration env A attempt granted ep
             ep_not_token _ n retryCount Hthrows Hbudget).
Qed.

End GivingUp.

Lemma getLocksAsync_spends_budget configuration env retryCount st :
  tokenGranted env ->
  (forall t bearer, exists e, getLocks env t bearer = Failed e) ->
  throwsAfter
    (fun fuel => getLocksAsync configuration env fuel retryCount)
    LocksEndpoint st
    (attemptsOf (orDefault retryCount (maximumApiRetry configuration))).
Proof.
  intros Hgranted Hfails.
  destruct (retrying_gives_up configuration env _
              (simpleAttempt (fun token t => getLocks env t token)
                             EvGetLocks)
              Hgranted LocksEndpoint ltac:(discriminate)
              (requests LocksEndpoint (trace st)) retryCount)
    as [enough Hrun].
  - intro j. apply simpleAttempt_throws; [ reflexivity | reflexivity | ].
    intros token t _. apply Hfails.
  - exists enough. intros fuel Hfuel. rewrite getLocksAsync_retrying.
    apply Hrun; [ exact Hfuel | reflexivity ].
Qed.

Lemma syncLocksAsync_spends_budget configuration env retryCount st :
  tokenGranted env ->
  (forall t bearer, exists e, getLocksSync env t bearer = Failed e) ->
  throwsAfter
    (fun fuel => syncLocksAsync configuration env fuel retryCount)
    LocksSyncEndpoint st
    (attemptsOf (orDefault retryCount (maximumApiRetry configuration))).
Proof.
  intros Hgranted Hfails.
  destruct (retrying_gives_up configuration env _
              (simpleAttempt (fun token t => getLocksSync env t token)
                             EvGetLocksSync)
              Hgranted LocksSyncEndpoint ltac:(discriminate)
              (requests LocksSyncEndpoint (trace st)) retryCount)
    as [enough Hrun].
  - intro j. apply simpleAttempt_throws; [ reflexivity | reflexivity | ].
    intros token t _. apply Hfails.
  - exists enough. intros fuel Hfuel. rewrite syncLocksAsync_retrying.
    apply Hrun; [ exact Hfuel | reflexivity ].
Qed.

Lemma syncLockAsync_spends_budget configuration env retryCount st id :
  tokenGranted env ->
  (forall t bearer, exists e, getLockSync env t id bearer = Failed e) ->
  throwsAfter
    (fun fuel => syncLockAsync configuration env fuel id retryCount)
    LockSyncEndpoint st
    (attemptsOf (orDefault retryCount (maximumApiRetry configuration))).
Proof.
  intros Hgranted Hfails.
  destruct (retrying_gives_up configuration env _
              (simpleAttempt (fun token t => getLockSync env t id token)
                             (EvGetLockSync id))
              Hgranted LockSyncEndpoint ltac:(discriminate)
              (requests LockSyncEndpoint (trace st)) retryCount)
    as [enough Hrun].
  - intro j. apply simpleAttempt_throws; [ reflexivity | reflexivity | ].
    intros token t _. apply Hfails.
  - exists enough. intros fuel Hfuel. rewrite syncLockAsync_retrying.
    apply Hrun; [ exact Hfuel | reflexivity ].
Qed.

Lemma commandMethod_spends_budget configuration env retryCount st command lock :
  tokenGranted env ->
  (forall j, exists m,
      failsAfter env command (requests CommandEndpoint (trace st) + j) m) ->
  throwsAfter
    (fun fuel => commandMethod configuration env command fuel lock retryCount)
    CommandEndpoint st
    (attemptsOf (orDefault retryCount (maximumApiRetry configuration))).
Proof.
  intros Hgranted Hfails.
  destruct (retrying_gives_up configuration env _
              (commandAttempt env command lock)
              Hgranted CommandEndpoint ltac:(discriminate)
              (requests CommandEndpoint (trace st)) retryCount)
    as [enough Hrun].
  - intro j. destruct (Hfails j) as [m Hm].
    apply commandAttempt_throws with (m := m). exact Hm.
  - exists enough. intros fuel Hfuel.
    rewrite commandMethod_commandAsync, commandAsync_retrying.
    apply Hrun; [ exact Hfuel | reflexivity ].
Qed.

Lemma downEnv_granted : tokenGranted downEnv.
Proof. intros t u p. eexists. reflexivity. Qed.

Lemma downEnv_commands_fail command n : failsAfter downEnv command n 0.
Proof.
  split; [ intros i Hi; lia | ].
  intros t deviceId bearer _. eexists. reflexivity.
Qed.

(** A method that only hands on what another returned asks and throws as
    that other does. *)
Lemma makesRequest_then_ret A B ep (m : M A) (f : A -> B) st :
  makesRequest ep m st ->
  makesRequest ep (bind m (fun a => ret (f a))) st.
Proof.
  unfold makesRequest, bind, ret.
  destruct (m st) as [[a | e |] st']; cbn [snd]; auto.
Qed.

Lemma throwsAfter_then_ret A B ep (run : nat -> M A) (f : A -> B) st n :
  throwsAfter run ep st n ->
  throwsAfter (fun fuel => bind (run fuel) (fun a => ret (f a))) ep st n.
Proof.
  intros [enough Hrun]. exists enough. intros fuel Hfuel.
  destruct (Hrun fuel Hfuel) as (e & st' & Hthrows & Hrest).
  exists e, st'. split; [ | exact Hrest ].
  unfold bind. rewrite Hthrows. reflexivity.
Qed.

(** C10.  A [retryCount] of [0] is taken as one that is left out, and one
    that is left out as the configured maximum, [maximumTokenRetry] for
    [getAccessTokenAsync] and [maximumApiRetry] for every public method:
    the call with [0], the call without a count and the call with that
    maximum run alike.  So a call with a falsy count that meets an
    endpoint failing every request asks as often as that maximum says
    before it throws.  And at least one attempt is made, whatever the
    count and whatever the maximum: a call of [getAccessTokenAsync] that
    finds no truthy token makes a token request, and a call of a public
    method that has obtained its token makes a request to its
    endpoint. *)
Theorem falsy_retryCount_is_default configuration env :
  (forall fuel st,
      defaultsTo (maximumTokenRetry configuration)
        (fun retryCount =>
           getAccessTokenAsync configuration env fuel retryCount st)) /\
  (forall fuel st,
      defaultsTo (maximumApiRetry configuration)
        (fun retryCount =>
           getLocksAsync configuration env fuel retryCount st)) /\
  (forall fuel name st,
      defaultsTo (maximumApiRetry configuration)
        (fun retryCount =>
           getLockByNameAsync configuration env fuel name retryCount st)) /\
  (forall fuel st,
      defaultsTo (maximumApiRetry configuration)
        (fun retryCount =>
           syncLocksAsync configuration env fuel retryCount st)) /\
  (forall fuel id st,
      defaultsTo (maximumApiRetry configuration)
        (fun retryCount =>
           syncLockAsync configuration env fuel id retryCount st)) /\
  (forall command fuel lock st,
      defaultsTo (maximumApiRetry configuration)
        (fun retryCount =>
           commandMethod configuration env command fuel lock retryCount
             st)) /\
  (forall fuel lock count st,
      defaultsTo (maximumApiRetry configuration)
        (fun retryCount =>
           getDeviceActivityAsync configuration env fuel lock count
             retryCount st)) /\
  (forall fuel lock st,
      defaultsTo (maximumApiRetry configuration)
        (fun retryCount =>
           getLatestDeviceActivityAsync configuration env fuel lock
             retryCount st)) /\
  (forall retryCount st,
      falsyCount retryCount = true ->
      (forall t u p, exists e, postToken env t u p = Failed e) ->
      truthy (accessToken (client (afterExpiryCheck env st))) = None ->
      throwsAfter
        (fun fuel => getAccessTokenAsync configuration env fuel retryCount)
        TokenEndpoint st
        (attemptsOf (maximumTokenRetry configuration))) /\
  (forall retryCount st,
      falsyCount retryCount = true ->
      tokenGranted env ->
      ((forall t bearer, exists e, getLocks env t bearer = Failed e) ->
       throwsAfter
         (fun fuel => getLocksAsync configuration env fuel retryCount)
         LocksEndpoint st
         (attemptsOf (maximumApiRetry configuration)) /\
       forall name,
         throwsAfter
           (fun fuel =>
              getLockByNameAsync configuration env fuel name retryCount)
           LocksEndpoint st
           (attemptsOf (maximumApiRetry configuration))) /\
      ((forall t bearer, exists e, getLocksSync env t bearer = Failed e) ->
       throwsAfter
         (fun fuel => syncLocksAsync configuration env fuel retryCount)
         LocksSyncEndpoint st
         (attemptsOf (maximumApiRetry configuration))) /\
      (forall id,
          (forall t bearer,
              exists e, getLockSync env t id bearer = Failed e) ->
          throwsAfter
            (fun fuel => syncLockAsync configuration env fuel id retryCount)
            LockSyncEndpoint st
            (attemptsOf (maximumApiRetry configuration))) /\
      (forall command lock,
          (forall j, exists m,
              failsAfter env command
                (requests CommandEndpoint (trace st) + j) m) ->
          throwsAfter
            (fun fuel =>
               commandMethod configuration env command fuel lock retryCount)
            CommandEndpoint st
            (attemptsOf (maximumApiRetry configuration)))) /\
  (forall fuel retryCount st,
      truthy (accessToken (client (afterExpiryCheck env st))) = None ->
      makesRequest TokenEndpoint
        (getAccessTokenAsync configuration env (S fuel) retryCount) st) /\
  (forall fuel retryCount st token st1,
      getAccessTokenAsync configuration env (S fuel) None st
        = (Return token, st1) ->
      makesRequest LocksEndpoint
        (getLocksAsync configuration env (S fuel) retryCount) st /\
      (forall name,
          makesRequest LocksEndpoint
            (getLockByNameAsync configuration env (S fuel) name retryCount)
            st) /\
      makesRequest LocksSyncEndpoint
        (syncLocksAsync configuration env (S fuel) retryCount) st /\
      (forall id,
          makesRequest LockSyncEndpoint
            (syncLockAsync configuration env (S fuel) id retryCount) st) /\
      (forall command lock,
          makesRequest CommandEndpoint
            (commandMethod configuration env command (S fuel) lock
               retryCount) st) /\
      (forall lock count,
          makesRequest ActivityEndpoint
            (getDeviceActivityAsync configuration env (S fuel) lock count
               retryCount) st) /\
      (forall lock,
          makesRequest ActivityEndpoint
            (getLatestDeviceActivityAsync configuration env (S fuel) lock
               retryCount) st)).
Proof.
  refine (conj _ (conj _ (conj _ (conj _ (conj _ (conj _ (conj _
            (conj _ (conj _ (conj _ (conj _ _))))))))))).
  - intros fuel st.
    split; destruct fuel as [| fuel]; try reflexivity.
    cbn [getAccessTokenAsync]. rewrite orDefault_own. reflexivity.
  - intros fuel st.
    split; destruct fuel as [| fuel]; try reflexivity.
    cbn [getLocksAsync]. rewrite orDefault_own. reflexivity.
  - intros fuel name st. unfold getLockByNameAsync, bind.
    split; destruct fuel as [| fuel]; try reflexivity.
    cbn [getLocksAsync]. rewrite orDefault_own. reflexivity.
  - intros fuel st.
    split; destruct fuel as [| fuel]; try reflexivity.
    cbn [syncLocksAsync]. rewrite orDefault_own. reflexivity.
  - intros fuel id st.
    split; destruct fuel as [| fuel]; try reflexivity.
    cbn [syncLockAsync]. rewrite orDefault_own. reflexivity.
  - intros command fuel lock st. rewrite commandMethod_commandAsync.
    split; destruct fuel as [| fuel]; try reflexivity.
    cbn [commandAsync]. rewrite orDefault_own. reflexivity.
  - intros fuel lock count st.
    split; destruct fuel as [| fuel]; try reflexivity.
    cbn [getDeviceActivityAsync]. rewrite orDefault_own. reflexivity.
  - intros fuel lock st. unfold getLatestDeviceActivityAsync, bind.
    split; destruct fuel as [| fuel]; try reflexivity.
    cbn [getDeviceActivityAsync]. rewrite orDefault_own. reflexivity.
  - intros retryCount st Hfalsy Hfails Hnone.
    exists (attemptsOf (maximumTokenRetry configuration)).
    intros fuel Hfuel.
    pose proof (getAccessTokenAsync_runs_out configuration env retryCount st
                  fuel Hfails Hnone) as Hrun.
    rewrite (orDefault_falsy _ _ Hfalsy) in Hrun. exact (Hrun Hfuel).
  - intros retryCount st Hfalsy Hgranted.
    pose proof (getLocksAsync_spends_budget configuration env retryCount st
                  Hgranted) as Hlocks.
    pose proof (syncLocksAsync_spends_budget configuration env retryCount st
                  Hgranted) as Hsyncs.
    pose proof (fun id =>
                  syncLockAsync_spends_budget configuration env retryCount st id
                    Hgranted) as Hsync.
    pose proof (fun command lock =>
                  commandMethod_spends_budget configuration env retryCount st
                    command lock Hgranted) as Hcommand.
    rewrite (orDefault_falsy _ _ Hfalsy) in Hlocks, Hsyncs.
    refine (conj _ (conj Hsyncs (conj _ _))).
    + intro Hfails. split; [ exact (Hlocks Hfails) | ].
      intro name. unfold getLockByNameAsync.
      apply throwsAfter_then_ret with
        (run := fun fuel => getLocksAsync configuration env fuel retryCount).
      exact (Hlocks Hfails).
    + intros id Hfails. specialize (Hsync id Hfails).
      rewrite (orDefault_falsy _ _ Hfalsy) in Hsync. exact Hsync.
    + intros command lock Hfails. specialize (Hcommand command lock Hfails).
      rewrite (orDefault_falsy _ _ Hfalsy) in Hcommand. exact Hcommand.
  - intros fuel retryCount st Hnone.
    apply getAccessTokenAsync_makesRequest, Hnone.
  - intros fuel retryCount st token st1 Htoken.
    assert (Hlocks : makesRequest LocksEndpoint
                       (getLocksAsync configuration env (S fuel) retryCount)
                       st).
    { rewrite getLocksAsync_retrying.
      apply retrying_makesRequest with (token := token) (st1 := st1);
        [ | exact Htoken ].
      intros f tk s. apply simpleAttempt_makesRequest. reflexivity. }
    assert (Hactivity : forall lock count,
               makesRequest ActivityEndpoint
                 (getDeviceActivityAsync configuration env (S fuel) lock
                    count retryCount) st).
    { intros lock count.
      apply getDeviceActivityAsync_makesRequest
        with (token := token) (st1 := st1).
      exact Htoken. }
    refine (conj Hlocks (conj _ (conj _ (conj _ (conj _
              (conj Hactivity _)))))).
    + intro name. unfold getLockByNameAsync.
      apply makesRequest_then_ret. exact Hlocks.
    + rewrite syncLocksAsync_retrying.
      apply retrying_makesRequest with (token := token) (st1 := st1);
        [ | exact Htoken ].
      intros f tk s. apply simpleAttempt_makesRequest. reflexivity.
    + intro id. rewrite syncLockAsync_retrying.
      apply retrying_makesRequest with (token := token) (st1 := st1);
        [ | exact Htoken ].
      intros f tk s. apply simpleAttempt_makesRequest. reflexivity.
    + intros command lock.
      rewrite commandMethod_commandAsync, commandAsync_retrying.
      apply retrying_makesRequest with (token := token) (st1 := st1);
        [ | exact Htoken ].
      intros f tk s. apply commandAttempt_makesRequest.
    + intro lock. unfold getLatestDeviceActivityAsync.
      apply makesRequest_then_ret. apply Hactivity.
Qed.

Lemma falsy_retryCount_is_default_witness :
  let configuration := sampleConfiguration 3 in
  falsyCount (Some 0%Z) = true /\
  (forall t u p, exists e, postToken lockedOutEnv t u p = Failed e) /\
  truthy (accessToken (client (afterExpiryCheck lockedOutEnv initial)))
    = None /\
  throwsAfter
    (fun fuel => getAccessTokenAsync configuration lockedOutEnv fuel
                   (Some 0%Z))
    TokenEndpoint initial 3 /\
  tokenGranted downEnv /\
  (forall t bearer, exists e, getLocks downEnv t bearer = Failed e) /\
  throwsAfter
    (fun fuel => getLocksAsync configuration downEnv fuel (Some 0%Z))
    LocksEndpoint initial 3 /\
  throwsAfter
    (fun fuel =>
       getLockByNameAsync configuration downEnv fuel "Front door"%string
         (Some 0%Z))
    LocksEndpoint initial 3 /\
  (forall j, exists m, failsAfter downEnv Open (0 + j) m) /\
  throwsAfter
    (fun fuel => openAsync configuration downEnv fuel frontDoor (Some 0%Z))
    CommandEndpoint initial 3 /\
  getAccessTokenAsync configuration downEnv 1 None initial
    = (Return "bearer-1"%string,
       snd (getAccessTokenAsync configuration downEnv 1 None initial)) /\
  makesRequest ActivityEndpoint
    (getLatestDeviceActivityAsync configuration downEnv 1 frontDoor
       (Some 0%Z)) initial /\
  getLocksAsync configuration downEnv 9 (Some 0%Z) initial
    = getLocksAsync configuration downEnv 9 (Some 3%Z) initial /\
  requests LocksEndpoint
    (trace (snd (getLocksAsync configuration downEnv 9 (Some 0%Z) initial)))
    = 3%nat.
Proof.
  intro configuration.
  assert (Hfalsy : falsyCount (Some 0%Z) = true) by reflexivity.
  assert (Hnone : truthy (accessToken
                            (client (afterExpiryCheck lockedOutEnv initial)))
                  = None) by reflexivity.
  assert (Hlocks : forall t bearer,
             exists e, getLocks downEnv t bearer = Failed e)
    by (intros; eexists; reflexivity).
  assert (Hopen : forall j, exists m, failsAfter downEnv Open (0 + j) m)
    by (intro j; exists 0%nat; apply downEnv_commands_fail).
  assert (Htoken : getAccessTokenAsync configuration downEnv 1 None initial
                   = (Return "bearer-1"%string,
                      snd (getAccessTokenAsync configuration downEnv 1 None
                             initial)))
    by reflexivity.
  destruct (falsy_retryCount_is_default configuration lockedOutEnv)
    as (_ & _ & _ & _ & _ & _ & _ & _ & Hout & _).
  destruct (falsy_retryCount_is_default configuration downEnv)
    as (_ & Hsame & _ & _ & _ & _ & _ & _ & _ & Hdown & _ & Hfirst).
  destruct (Hdown (Some 0%Z) initial Hfalsy downEnv_granted)
    as (Hlocks3 & _ & _ & Hcommand3).
  destruct (Hfirst 0%nat (Some 0%Z) initial _ _ Htoken)
    as (_ & _ & _ & _ & _ & _ & Hlatest).
  destruct (Hsame 9%nat initial) as [Hzero Hmaximum].
  split; [ exact Hfalsy | ].
  split; [ exact lockedOutEnv_refuses | ].
  split; [ exact Hnone | ].
  split; [ exact (Hout (Some 0%Z) initial Hfalsy lockedOutEnv_refuses
                    Hnone) | ].
  split; [ exact downEnv_granted | ].
  split; [ exact Hlocks | ].
  split; [ exact (proj1 (Hlocks3 Hlocks)) | ].
  split; [ exact (proj2 (Hlocks3 Hlocks) "Front door"%string) | ].
  split; [ exact Hopen | ].
  split; [ exact (Hcommand3 Open frontDoor Hopen) | ].
  split; [ exact Htoken | ].
  split; [ exact (Hlatest frontDoor) | ].
  split; [ exact (eq_trans Hzero Hmaximum) | reflexivity ].
Defined.

(** * Further properties of the client *)

(** ** Running out of retries *)

(** X1.  When [getAccessTokenAsync] finds no truthy token and the token
    endpoint fails every request, the call makes exactly as many token
    requests as its budget says (the given [retryCount], or
    [maximumTokenRetry] when that is falsy), one when the budget is below
    one, and then throws the error of its last request. *)
Theorem getAccessTokenAsync_gives_up configuration env retryCount st fuel :
  (forall t u p, exists e, postToken env t u p = Failed e) ->
  truthy (accessToken (client (afterExpiryCheck env st))) = None ->
  (attemptsOf (orDefault retryCount (maximumTokenRetry configuration))
   <= fuel)%nat ->
  exists e st',
    getAccessTokenAsync configuration env fuel retryCount st
      = (Throw e, st') /\
    requests TokenEndpoint (trace st')
      = (requests TokenEndpoint (trace st)
         + attemptsOf (orDefault retryCount
                         (maximumTokenRetry configuration)))%nat /\
    newestFailure (trace st') = Some e.
Proof.
  exact (getAccessTokenAsync_runs_out configuration env retryCount st fuel).
Qed.

Lemma getAccessTokenAsync_gives_up_witness :
  (forall t u p, exists e, postToken lockedOutEnv t u p = Failed e) /\
  truthy (accessToken (client (afterExpiryCheck lockedOutEnv initial)))
    = None /\
  (attemptsOf (orDefault None (maximumTokenRetry (sampleConfiguration 3)))
   <= 3)%nat /\
  exists e st',
    getAccessTokenAsync (sampleConfiguration 3) lockedOutEnv 3 None initial
      = (Throw e, st') /\
    requests TokenEndpoint (trace st') = 3%nat /\
    newestFailure (trace st') = Some e.
Proof.
  assert (H2 : truthy (accessToken
                         (client (afterExpiryCheck lockedOutEnv initial)))
               = None) by reflexivity.
  assert (H3 : (attemptsOf (orDefault None
                              (maximumTokenRetry (sampleConfiguration 3)))
                <= 3)%nat) by (vm_compute; lia).
  split; [ exact lockedOutEnv_refuses | ].
  split; [ exact H2 | ].
  split; [ exact H3 | ].
  exact (getAccessTokenAsync_gives_up (sampleConfiguration 3) lockedOutEnv
           None initial 3 lockedOutEnv_refuses H2 H3).
Defined.

(** X2.  With tokens granted and an endpoint that fails every request,
    [getLocksAsync], [syncLocksAsync], [syncLockAsync] and the three
    command methods make exactly as many attempts as their budget says
    (the given [retryCount], or [maximumApiRetry] when that is falsy;
    one attempt when the budget is below one) and then throw the error of
    the request made last.  For a command method an attempt fails at the
    command or at any of its polls. *)
Theorem sibling_methods_give_up configuration env retryCount st :
  tokenGranted env ->
  ((forall t bearer, exists e, getLocks env t bearer = Failed e) ->
   throwsAfter
     (fun fuel => getLocksAsync configuration env fuel retryCount)
     LocksEndpoint st
     (attemptsOf (orDefault retryCount (maximumApiRetry configuration)))) /\
  ((forall t bearer, exists e, getLocksSync env t bearer = Failed e) ->
   throwsAfter
     (fun fuel => syncLocksAsync configuration env fuel retryCount)
     LocksSyncEndpoint st
     (attemptsOf (orDefault retryCount (maximumApiRetry configuration)))) /\
  (forall id,
      (forall t bearer, exists e, getLockSync env t id bearer = Failed e) ->
      throwsAfter
        (fun fuel => syncLockAsync configuration env fuel id retryCount)
        LockSyncEndpoint st
        (attemptsOf (orDefault retryCount
                       (maximumApiRetry configuration)))) /\
  (forall command lock,
      (forall j, exists m,
          failsAfter env command
            (requests CommandEndpoint (trace st) + j) m) ->
      throwsAfter
        (fun fuel =>
           commandMethod configuration env command fuel lock retryCount)
        CommandEndpoint st
        (attemptsOf (orDefault retryCount
                       (maximumApiRetry configuration)))).
Proof.
  intro Hgranted. refine (conj _ (conj _ (conj _ _))).
  - apply getLocksAsync_spends_budget, Hgranted.
  - apply syncLocksAsync_spends_budget, Hgranted.
  - intro id. apply syncLockAsync_spends_budget, Hgranted.
  - intros command lock. apply commandMethod_spends_budget, Hgranted.
Qed.

Lemma sibling_methods_give_up_witness :
  let configuration := sampleConfiguration 2 in
  tokenGranted downEnv /\
  (forall t bearer, exists e, getLocks downEnv t bearer = Failed e) /\
  throwsAfter
    (fun fuel => getLocksAsync configuration downEnv fuel (Some 4%Z))
    LocksEndpoint initial 4 /\
  (forall j, exists m, failsAfter downEnv Close (0 + j) m) /\
  throwsAfter
    (fun fuel => closeAsync configuration downEnv fuel frontDoor None)
    CommandEndpoint initial 2.
Proof.
  intro configuration.
  destruct (sibling_methods_give_up configuration downEnv (Some 4%Z) initial
              downEnv_granted) as (Hlocks & _ & _ & _).
  destruct (sibling_methods_give_up configuration downEnv None initial
              downEnv_granted) as (_ & _ & _ & Hcommand).
  assert (H1 : forall t bearer,
             exists e, getLocks downEnv t bearer = Failed e)
    by (intros; eexists; reflexivity).
  assert (H2 : forall j, exists m, failsAfter downEnv Close (0 + j) m)
    by (intro j; exists 0%nat; apply downEnv_commands_fail).
  split; [ exact downEnv_granted | ].
  split; [ exact H1 | ].
  split; [ exact (Hlocks H1) | ].
  split; [ exact H2 | exact (Hcommand Close frontDoor H2) ].
Defined.

(** ** When no token can be had *)

(** X3.  The public methods fetch the token outside their [try]: when
    [getAccessTokenAsync] throws, each of them throws the same error at
    once, in the state the token call left; no request goes to a
    resource endpoint, nothing is waited for and nothing is retried,
    whatever the retry count. *)
Theorem token_failure_reaches_caller configuration env fuel st e st1 :
  getAccessTokenAsync configuration env fuel None st = (Throw e, st1) ->
  (forall retryCount,
      getLocksAsync configuration env fuel retryCount st = (Throw e, st1)) /\
  (forall name retryCount,
      getLockByNameAsync configuration env fuel name retryCount st
      = (Throw e, st1)) /\
  (forall retryCount,
      syncLocksAsync configuration env fuel retryCount st = (Throw e, st1)) /\
  (forall id retryCount,
      syncLockAsync configuration env fuel id retryCount st
      = (Throw e, st1)) /\
  (forall command lock retryCount,
      commandMethod configuration env command fuel lock retryCount st
      = (Throw e, st1)) /\
  (forall lock count retryCount,
      getDeviceActivityAsync configuration env fuel lock count retryCount st
      = (Throw e, st1)) /\
  (forall lock retryCount,
      getLatestDeviceActivityAsync configuration env fuel lock retryCount st
      = (Throw e, st1)).
Proof.
  intro Htoken. destruct fuel as [| fuel]; [ discriminate Htoken | ].
  assert (Hlocks : forall retryCount,
             getLocksAsync configuration env (S fuel) retryCount st
             = (Throw e, st1)).
  { intro retryCount. cbn [getLocksAsync]. unfold bind at 1.
    rewrite Htoken. reflexivity. }
  assert (Hactivity : forall lock count retryCount,
             getDeviceActivityAsync configuration env (S fuel) lock count
               retryCount st = (Throw e, st1)).
  { intros lock count retryCount. cbn [getDeviceActivityAsync].
    unfold bind at 1. rewrite Htoken. reflexivity. }
  refine (conj Hlocks (conj _ (conj _ (conj _ (conj _
            (conj Hactivity _)))))).
  - intros name retryCount. unfold getLockByNameAsync, bind.
    rewrite Hlocks. reflexivity.
  - intro retryCount. cbn [syncLocksAsync]. unfold bind at 1.
    rewrite Htoken. reflexivity.
  - intros id retryCount. cbn [syncLockAsync]. unfold bind at 1.
    rewrite Htoken. reflexivity.
  - intros command lock retryCount. rewrite commandMethod_commandAsync.
    cbn [commandAsync]. unfold bind at 1. rewrite Htoken. reflexivity.
  - intros lock retryCount. unfold getLatestDeviceActivityAsync, bind.
    rewrite Hactivity. reflexivity.
Qed.

Lemma token_failure_reaches_caller_witness :
  let configuration := sampleConfiguration 2 in
  let st1 := snd (getAccessTokenAsync configuration lockedOutEnv 3 None
                    initial) in
  getAccessTokenAsync configuration lockedOutEnv 3 None initial
    = (Throw "denied"%string, st1) /\
  getLocksAsync configuration lockedOutEnv 3 (Some 5%Z) initial
    = (Throw "denied"%string, st1) /\
  openAsync configuration lockedOutEnv 3 frontDoor None initial
    = (Throw "denied"%string, st1) /\
  requests LocksEndpoint (trace st1) = 0%nat /\
  requests CommandEndpoint (trace st1) = 0%nat.
Proof.
  intros configuration st1.
  assert (Htoken : getAccessTokenAsync configuration lockedOutEnv 3 None
                     initial = (Throw "denied"%string, st1)) by reflexivity.
  destruct (token_failure_reaches_caller configuration lockedOutEnv 3
              initial "denied"%string st1 Htoken)
    as (Hlocks & _ & _ & _ & Hcommand & _).
  split; [ exact Htoken | ].
  split; [ exact (Hlocks (Some 5%Z)) | ].
  split; [ exact (Hcommand Open frontDoor None) | ].
  split; reflexivity.
Defined.

(** X4.  A token that has been expired for more than 120 seconds is
    dropped before anything else: when the token endpoint then fails
    every request, the call throws and leaves both fields [null]; the old
    token is not kept. *)
Theorem expired_token_is_dropped_for_good
    configuration env retryCount fuel e token t :
  (e + 120 * 1000 < clock env t)%Z ->
  (forall t u p, exists err, postToken env t u p = Failed err) ->
  (attemptsOf (orDefault retryCount (maximumTokenRetry configuration))
   <= fuel)%nat ->
  exists err st',
    getAccessTokenAsync configuration env fuel retryCount
      {| client := {| expirationDateTime := Some e; accessToken := token |};
         trace := t |}
    = (Throw err, st') /\
    client st' = {| expirationDateTime := None; accessToken := None |}.
Proof.
  intros Hlate Hfails Hfuel.
  set (st := {| client := {| expirationDateTime := Some e;
                             accessToken := token |};
                trace := t |}).
  assert (Hcheck : afterExpiryCheck env st
                   = {| client := {| expirationDateTime := None;
                                     accessToken := None |};
                        trace := EvNow (clock env t) :: t |}).
  { unfold afterExpiryCheck, st. cbn [client expirationDateTime trace].
    replace (e <? clock env t - 120 * 1000)%Z with true
      by (symmetry; apply Z.ltb_lt; lia).
    reflexivity. }
  destruct (getAccessTokenAsync_runs_out configuration env retryCount st fuel
              Hfails) as (err & st' & Hrun & _ & _).
  { rewrite Hcheck. reflexivity. }
  { exact Hfuel. }
  exists err, st'. split; [ exact Hrun | ].
  destruct fuel as [| fuel]; [ discriminate Hrun | ].
  rewrite getAccessTokenAsync_step in Hrun. cbv zeta in Hrun.
  rewrite Hcheck in Hrun. cbn [client accessToken truthy trace] in Hrun.
  destruct (Hfails (EvNow (clock env t) :: t) (emailAddress configuration)
                   (password configuration)) as [err1 Herr1].
  rewrite Herr1 in Hrun.
  destruct (_ >? 0)%Z.
  - match type of Hrun with
    | getAccessTokenAsync _ _ _ ?rc ?s = _ =>
      pose proof (getAccessTokenAsync_fields configuration env fuel rc s)
        as Hfields
    end.
    cbv zeta in Hfields. rewrite Hrun in Hfields. cbn [snd] in Hfields.
    destruct Hfields as [Hsame | [Hnone | (t' & r & Hok & _)]].
    + exact Hsame.
    + exact Hnone.
    + destruct (Hfails t' (emailAddress configuration)
                       (password configuration)) as [err2 Herr2].
      congruence.
  - inversion Hrun. reflexivity.
Qed.

Lemma expired_token_is_dropped_for_good_witness :
  (2000 + 120 * 1000 < clock lockedOutEnv
                         (repeat (EvSleep 1) 200))%Z /\
  (forall t u p, exists err, postToken lockedOutEnv t u p = Failed err) /\
  (attemptsOf (orDefault None (maximumTokenRetry (sampleConfiguration 2)))
   <= 2)%nat /\
  exists err st',
    getAccessTokenAsync (sampleConfiguration 2) lockedOutEnv 2 None
      {| client := {| expirationDateTime := Some 2000%Z;
                      accessToken := Some "old"%string |};
         trace := repeat (EvSleep 1) 200 |}
    = (Throw err, st') /\
    client st' = {| expirationDateTime := None; accessToken := None |}.
Proof.
  assert (H1 : (2000 + 120 * 1000
                < clock lockedOutEnv (repeat (EvSleep 1) 200))%Z)
    by (vm_compute; reflexivity).
  assert (H3 : (attemptsOf (orDefault None
                              (maximumTokenRetry (sampleConfiguration 2)))
                <= 2)%nat) by (vm_compute; lia).
  split; [ exact H1 | ].
  split; [ exact lockedOutEnv_refuses | ].
  split; [ exact H3 | ].
  exact (expired_token_is_dropped_for_good (sampleConfiguration 2)
           lockedOutEnv None 2 2000 (Some "old"%string)
           (repeat (EvSleep 1) 200) H1 lockedOutEnv_refuses H3).
Defined.

(** ** Reusing a token *)

Lemma truthy_stored s token : truthy s = Some token -> s = Some token.
Proof.
  destruct s as [[| c s] |]; cbn [truthy]; intro H;
    [ discriminate | exact H | discriminate ].
Qed.

(** What [getAccessTokenAsync] returns is what the client then holds. *)
Lemma getAccessTokenAsync_returns_stored configuration env fuel :
  forall retryCount st token st1,
    getAccessTokenAsync configuration env fuel retryCount st
      = (Return token, st1) ->
    accessToken (client st1) = Some token.
Proof.
  induction fuel as [| fuel IH]; intros retryCount st token st1.
  - discriminate.
  - rewrite getAccessTokenAsync_step. cbv zeta.
    destruct (truthy _) as [cached |] eqn:Hcached.
    + intro H. inversion H; subst. apply truthy_stored. exact Hcached.
    + destruct (postToken env _ _ _) as [r | e].
      * intro H. inversion H; subst. reflexivity.
      * destruct (_ >? 0)%Z; [ apply IH | discriminate ].
Qed.

(** A truthy token whose expiry, if any, is not more than 120 seconds
    back is handed out again. *)
Lemma getAccessTokenAsync_reuses configuration env fuel retryCount st token :
  accessToken (client st) = Some token ->
  token <> EmptyString ->
  (forall e, expirationDateTime (client st) = Some e ->
             (clock env (trace st) <= e + 120 * 1000)%Z) ->
  exists st2,
    getAccessTokenAsync configuration env (S fuel) retryCount st
      = (Return token, st2) /\
    client st2 = client st /\
    requests TokenEndpoint (trace st2) = requests TokenEndpoint (trace st).
Proof.
  intros Hstored Htoken Hfresh. rewrite getAccessTokenAsync_step. cbv zeta.
  assert (Hcheck : client (afterExpiryCheck env st) = client st).
  { unfold afterExpiryCheck.
    destruct (expirationDateTime (client st)) as [e |] eqn:He;
      [ | reflexivity ].
    specialize (Hfresh e eq_refl).
    replace (e <? clock env (trace st) - 120 * 1000)%Z with false
      by (symmetry; apply Z.ltb_ge; lia).
    reflexivity. }
  rewrite Hcheck, Hstored.
  destruct token as [| c token]; [ congruence | ]. cbn [truthy].
  eexists. split; [ reflexivity | ].
  split; [ exact Hcheck | apply afterExpiryCheck_requests ].
Qed.

(** X5.  The token a call of [getAccessTokenAsync] returns is the one the
    client then holds, and a later call hands out that same token without
    asking the token endpoint and without touching the fields, as long as
    the token is not empty and the clock has not passed the stored expiry
    by more than 120 seconds. *)
Theorem returned_token_is_reused
    configuration env fuel retryCount st token st1 :
  getAccessTokenAsync configuration env fuel retryCount st
    = (Return token, st1) ->
  token <> EmptyString ->
  (forall e, expirationDateTime (client st1) = Some e ->
             (clock env (trace st1) <= e + 120 * 1000)%Z) ->
  accessToken (client st1) = Some token /\
  forall fuel' retryCount',
  exists st2,
    getAccessTokenAsync configuration env (S fuel') retryCount' st1
      = (Return token, st2) /\
    client st2 = client st1 /\
    requests TokenEndpoint (trace st2) = requests TokenEndpoint (trace st1).
Proof.
  intros Hrun Htoken Hfresh.
  pose proof (getAccessTokenAsync_returns_stored configuration env fuel
                retryCount st token st1 Hrun) as Hstored.
  split; [ exact Hstored | ].
  intros fuel' retryCount'.
  apply getAccessTokenAsync_reuses; assumption.
Qed.

Lemma returned_token_is_reused_witness :
  let configuration := sampleConfiguration 3 in
  let env := flakyEnv 0 0 in
  let st1 := snd (getAccessTokenAsync configuration env 1 None initial) in
  getAccessTokenAsync configuration env 1 None initial
    = (Return "bearer-1"%string, st1) /\
  "bearer-1"%string <> EmptyString /\
  (forall e, expirationDateTime (client st1) = Some e ->
             (clock env (trace st1) <= e + 120 * 1000)%Z) /\
  accessToken (client st1) = Some "bearer-1"%string /\
  exists st2,
    getAccessTokenAsync configuration env 1 None st1
      = (Return "bearer-1"%string, st2) /\
    client st2 = client st1 /\
    requests TokenEndpoint (trace st2) = requests TokenEndpoint (trace st1).
Proof.
  intros configuration env st1.
  assert (H1 : getAccessTokenAsync configuration env 1 None initial
               = (Return "bearer-1"%string, st1)) by reflexivity.
  assert (H2 : "bearer-1"%string <> EmptyString) by discriminate.
  assert (H3 : forall e, expirationDateTime (client st1) = Some e ->
                         (clock env (trace st1) <= e + 120 * 1000)%Z).
  { intros e He. vm_compute in He. inversion He; subst.
    vm_compute. discriminate. }
  destruct (returned_token_is_reused configuration env 1 None initial
              "bearer-1"%string st1 H1 H2 H3) as [Hstored Hagain].
  split; [ exact H1 | ].
  split; [ exact H2 | ].
  split; [ exact H3 | ].
  split; [ exact Hstored | exact (Hagain 0%nat None) ].
Defined.

(** X6.  With a truthy cached token that the expiry check lets through,
    a read whose first request is answered makes that one HTTP request
    and no other: it carries the cached token as bearer (and, for device
    activity, the [count] it was given), the answer is returned, and the
    fields stay as they were. *)
Theorem cached_token_one_request
    configuration env fuel retryCount e token t :
  token <> EmptyString ->
  (clock env t <= e + 120 * 1000)%Z ->
  let c := {| expirationDateTime := Some e; accessToken := Some token |} in
  let st := {| client := c; trace := t |} in
  let t1 := EvNow (clock env t) :: t in
  (forall r,
      getLocks env t1 token = Ok r ->
      getLocksAsync configuration env (S fuel) retryCount st
      = (Return r,
         {| client := c; trace := EvGetLocks token (Ok r) :: t1 |})) /\
  (forall r,
      getLocksSync env t1 token = Ok r ->
      syncLocksAsync configuration env (S fuel) retryCount st
      = (Return r,
         {| client := c; trace := EvGetLocksSync token (Ok r) :: t1 |})) /\
  (forall id r,
      getLockSync env t1 id token = Ok r ->
      syncLockAsync configuration env (S fuel) id retryCount st
      = (Return r,
         {| client := c; trace := EvGetLockSync id token (Ok r) :: t1 |})) /\
  (forall lock count r,
      getDeviceActivity env t1 (Lock.id lock) count token = Ok r ->
      getDeviceActivityAsync configuration env (S fuel) lock count
        retryCount st
      = (Return r,
         {| client := c;
            trace := EvGetDeviceActivity (Lock.id lock) count token (Ok r)
                     :: t1 |})).
Proof.
  intros Htoken Hfresh c st t1.
  assert (Hcached : getAccessTokenAsync configuration env (S fuel) None st
                    = (Return token, {| client := c; trace := t1 |})).
  { apply getAccessTokenAsync_cached; [ exact Htoken | ].
    apply Z.ltb_ge. lia. }
  refine (conj _ (conj _ (conj _ _))).
  - intros r Hanswer. cbn [getLocksAsync]. unfold bind at 1.
    rewrite Hcached. unfold tryCatch, axiosGetLocks, exchange.
    cbn [trace]. rewrite Hanswer. reflexivity.
  - intros r Hanswer. cbn [syncLocksAsync]. unfold bind at 1.
    rewrite Hcached. unfold tryCatch, axiosGetLocksSync, exchange.
    cbn [trace]. rewrite Hanswer. reflexivity.
  - intros id r Hanswer. cbn [syncLockAsync]. unfold bind at 1.
    rewrite Hcached. unfold tryCatch, axiosGetLockSync, exchange.
    cbn [trace]. rewrite Hanswer. reflexivity.
  - intros lock count r Hanswer. cbn [getDeviceActivityAsync].
    unfold bind at 1.
    rewrite Hcached. unfold tryCatch, axiosGetDeviceActivity, exchange.
    cbn [trace]. rewrite Hanswer. reflexivity.
Qed.

Lemma cached_token_one_request_witness :
  let env := lockedOutEnv in
  let t := [EvSleep 1] in
  "kept"%string <> EmptyString /\
  (clock env t <= 5000 + 120 * 1000)%Z /\
  getLocksAsync (sampleConfiguration 3) env 1 None
    {| client := {| expirationDateTime := Some 5000%Z;
                    accessToken := Some "kept"%string |};
       trace := t |}
  = (Return [frontDoor; backDoor],
     {| client := {| expirationDateTime := Some 5000%Z;
                     accessToken := Some "kept"%string |};
        trace := [EvGetLocks "kept" (Ok [frontDoor; backDoor]);
                  EvNow 1000; EvSleep 1] |}).
Proof.
  intros env t.
  assert (H1 : "kept"%string <> EmptyString) by discriminate.
  assert (H2 : (clock env t <= 5000 + 120 * 1000)%Z) by (cbn; lia).
  split; [ exact H1 | split; [ exact H2 | ] ].
  exact (proj1 (cached_token_one_request (sampleConfiguration 3) env 0 None
                  5000 "kept"%string t H1 H2)
           [frontDoor; backDoor] eq_refl).
Defined.

(** ** Termination and the bound on attempts *)

Lemma attemptsOf_next budget :
  (budget - 1 > 0)%Z ->
  orDefault (Some (budget - 1)%Z) 0 = (budget - 1)%Z /\
  S (attemptsOf (budget - 1)) = attemptsOf budget.
Proof.
  intro H. unfold attemptsOf. cbn [orDefault].
  destruct (Z.eqb_spec (budget - 1) 0); split; lia.
Qed.

Lemma orDefault_positive r dflt : (r > 0)%Z -> orDefault (Some r) dflt = r.
Proof. intro H. cbn [orDefault]. destruct (Z.eqb_spec r 0); lia. Qed.

Lemma attemptsOf_positive budget : (1 <= attemptsOf budget)%nat.
Proof. unfold attemptsOf. lia. Qed.

Section Bounds.

Variable configuration : Configuration.
Variable env : Env.

Lemma getAccessTokenAsync_endsWithin fuel :
  forall retryCount st,
    (attemptsOf (orDefault retryCount (maximumTokenRetry configuration))
     <= fuel)%nat ->
    endsWithin TokenEndpoint
      (attemptsOf (orDefault retryCount (maximumTokenRetry configuration)))
      (getAccessTokenAsync configuration env fuel retryCount) st.
Proof.
  induction fuel as [| fuel IH]; intros retryCount st Hfuel.
  - pose proof (attemptsOf_positive
                  (orDefault retryCount (maximumTokenRetry configuration))).
    lia.
  - unfold endsWithin. rewrite getAccessTokenAsync_step. cbv zeta.
    pose proof (attemptsOf_positive
                  (orDefault retryCount (maximumTokenRetry configuration)))
      as Hpos.
    pose proof (afterExpiryCheck_requests env TokenEndpoint st) as Hcheck.
    destruct (truthy _).
    + cbn [fst snd]. split; [ discriminate | lia ].
    + destruct (postToken env _ _ _) as [r | e].
      * cbn [fst snd afterStore record trace]. rewrite !requests_cons. cbn.
        split; [ discriminate | lia ].
      * destruct (Z.gtb_spec
                    (orDefault retryCount (maximumTokenRetry configuration)
                     - 1) 0) as [Hleft | Hleft].
        -- destruct (attemptsOf_next
                       (orDefault retryCount
                          (maximumTokenRetry configuration)) ltac:(lia))
             as [_ Hnext].
           destruct (IH (Some (orDefault retryCount
                                 (maximumTokenRetry configuration) - 1)%Z)
                        (record (EvSleep (tokenRetryInterval configuration))
                           (afterRefusal configuration e
                              (afterExpiryCheck env st))))
             as [Hends Hbound].
           { rewrite orDefault_positive by lia. lia. }
           split; [ exact Hends | ].
           rewrite orDefault_positive in Hbound by lia.
           cbn [record afterRefusal trace] in Hbound.
           rewrite !requests_cons in Hbound. cbn in Hbound. lia.
        -- cbn [fst snd afterRefusal record trace]. rewrite requests_cons.
           cbn. split; [ discriminate | lia ].
Qed.

Variable A : Type.
Variable attempt : nat -> string -> M A.
Variable ep : Endpoint.
Hypothesis ep_not_token : ep <> TokenEndpoint.

Hypothesis attempt_one :
  forall fuel token st,
    fst (attempt fuel token st) <> OutOfFuel /\
    requests ep (trace (snd (attempt fuel token st)))
      = S (requests ep (trace st)).

Lemma retrying_endsWithin fuel :
  forall retryCount st,
    (attemptsOf (maximumTokenRetry configuration)
     + attemptsOf (orDefault retryCount (maximumApiRetry configuration))
     <= fuel)%nat ->
    endsWithin ep
      (attemptsOf (orDefault retryCount (maximumApiRetry configuration)))
      (retrying configuration env attempt fuel retryCount) st.
Proof.
  induction fuel as [| fuel IH]; intros retryCount st Hfuel.
  - pose proof (attemptsOf_positive (maximumTokenRetry configuration)). lia.
  - unfold endsWithin. rewrite retrying_unfold.
    pose proof (attemptsOf_positive
                  (orDefault retryCount (maximumApiRetry configuration)))
      as Hpos.
    destruct (getAccessTokenAsync_endsWithin (S fuel) None st) as [Hends _].
    { cbn [orDefault]. lia. }
    pose proof (getAccessTokenAsync_requests configuration env ep (S fuel)
                  None st ep_not_token) as Hkeep.
    destruct (getAccessTokenAsync configuration env (S fuel) None st)
      as [[token | e |] st1]; cbn [fst snd] in *.
    + destruct (attempt_one fuel token st1) as [Hattempt Hone].
      destruct (attempt fuel token st1) as [[a | e |] st2];
        cbn [fst snd] in *.
      * split; [ discriminate | lia ].
      * cbv zeta.
        destruct (Z.gtb_spec
                    (orDefault retryCount (maximumApiRetry configuration)
                     - 1) 0) as [Hleft | Hleft].
        -- destruct (attemptsOf_next
                       (orDefault retryCount (maximumApiRetry configuration))
                       ltac:(lia)) as [_ Hnext].
           destruct (IH (Some (orDefault retryCount
                                 (maximumApiRetry configuration) - 1)%Z)
                        (record (EvSleep (apiRetryInterval configuration))
                                st2))
             as [Hends' Hbound].
           { rewrite orDefault_positive by lia. lia. }
           split; [ exact Hends' | ].
           rewrite orDefault_positive in Hbound by lia.
           cbn [record trace] in Hbound. rewrite requests_cons in Hbound.
           cbn in Hbound. lia.
        -- cbn [fst snd]. split; [ discriminate | lia ].
      * exfalso. apply Hattempt. reflexivity.
    + split; [ discriminate | lia ].
    + exfalso. apply Hends. reflexivity.
Qed.

End Bounds.

Lemma simpleAttempt_one A answer (ev : string -> HttpResult A -> Event) ep :
  (forall token r, isRequestTo ep (ev token r) = true) ->
  forall fuel token st,
    fst (simpleAttempt answer ev fuel token st) <> OutOfFuel /\
    requests ep (trace (snd (simpleAttempt answer ev fuel token st)))
      = S (requests ep (trace st)).
Proof.
  intros Hev fuel token st. unfold simpleAttempt, exchange.
  destruct (answer token (trace st)); cbn [fst snd record trace];
    rewrite requests_cons, Hev; split; try discriminate; reflexivity.
Qed.

(** X7.  In every environment [getAccessTokenAsync], [getLocksAsync],
    [syncLocksAsync] and [syncLockAsync] end, with a result or an
    exception, and none makes more requests to its endpoint than its
    budget says (the given [retryCount], or the configured maximum when
    that is falsy; one when the budget is below one). *)
Theorem reads_end_within_budget configuration env retryCount st fuel :
  (attemptsOf (maximumTokenRetry configuration)
   + attemptsOf (orDefault retryCount (maximumTokenRetry configuration))
   + attemptsOf (orDefault retryCount (maximumApiRetry configuration))
   <= fuel)%nat ->
  endsWithin TokenEndpoint
    (attemptsOf (orDefault retryCount (maximumTokenRetry configuration)))
    (getAccessTokenAsync configuration env fuel retryCount) st /\
  endsWithin LocksEndpoint
    (attemptsOf (orDefault retryCount (maximumApiRetry configuration)))
    (getLocksAsync configuration env fuel retryCount) st /\
  endsWithin LocksSyncEndpoint
    (attemptsOf (orDefault retryCount (maximumApiRetry configuration)))
    (syncLocksAsync configuration env fuel retryCount) st /\
  (forall id,
      endsWithin LockSyncEndpoint
        (attemptsOf (orDefault retryCount (maximumApiRetry configuration)))
        (syncLockAsync configuration env fuel id retryCount) st).
Proof.
  intro Hfuel. refine (conj _ (conj _ (conj _ _))).
  - apply getAccessTokenAsync_endsWithin. lia.
  - rewrite getLocksAsync_retrying.
    apply retrying_endsWithin; [ discriminate | | lia ].
    apply simpleAttempt_one. reflexivity.
  - rewrite syncLocksAsync_retrying.
    apply retrying_endsWithin; [ discriminate | | lia ].
    apply simpleAttempt_one. reflexivity.
  - intro id. rewrite syncLockAsync_retrying.
    apply retrying_endsWithin; [ discriminate | | lia ].
    apply simpleAttempt_one. reflexivity.
Qed.

Lemma reads_end_within_budget_witness :
  let configuration := sampleConfiguration 2 in
  (attemptsOf (maximumTokenRetry configuration)
   + attemptsOf (orDefault (Some 3%Z) (maximumTokenRetry configuration))
   + attemptsOf (orDefault (Some 3%Z) (maximumApiRetry configuration))
   <= 8)%nat /\
  endsWithin LocksEndpoint 3
    (getLocksAsync configuration downEnv 8 (Some 3%Z)) initial /\
  endsWithin LockSyncEndpoint 3
    (syncLockAsync configuration (flakyEnv 1 0) 8 17 (Some 3%Z)) initial.
Proof.
  intro configuration.
  assert (Hfuel : (attemptsOf (maximumTokenRetry configuration)
                   + attemptsOf (orDefault (Some 3%Z)
                                   (maximumTokenRetry configuration))
                   + attemptsOf (orDefault (Some 3%Z)
                                   (maximumApiRetry configuration))
                   <= 8)%nat) by (vm_compute; lia).
  split; [ exact Hfuel | ].
  split.
  - exact (proj1 (proj2 (reads_end_within_budget configuration downEnv
                           (Some 3%Z) initial 8 Hfuel))).
  - exact (proj2 (proj2 (proj2 (reads_end_within_budget configuration
                                  (flakyEnv 1 0) (Some 3%Z) initial 8
                                  Hfuel))) 17%Z).
Defined.

(** ** What a method never asks for *)

Lemma onlyLogs_refl P st : onlyLogs P st st.
Proof. exists []. split; reflexivity. Qed.

Lemma onlyLogs_trans P a b c :
  onlyLogs P a b -> onlyLogs P b c -> onlyLogs P a c.
Proof.
  intros (evs1 & H1 & F1) (evs2 & H2 & F2). exists (evs2 ++ evs1).
  rewrite H2, H1, app_assoc, forallb_app, F1, F2. split; reflexivity.
Qed.

Lemma onlyLogs_one (P : Event -> bool) ev st :
  P ev = true -> onlyLogs P st (record ev st).
Proof.
  intro H. exists [ev]. cbn [forallb]. rewrite H. split; reflexivity.
Qed.

Section Logs.

Variable P : Event -> bool.
Hypothesis P_token : forall ev, tokenEvent ev = true -> P ev = true.

Variable configuration : Configuration.
Variable env : Env.

Lemma onlyLogs_token fuel retryCount :
  respects (onlyLogs P)
    (getAccessTokenAsync configuration env fuel retryCount).
Proof.
  intro st.
  destruct (getAccessTokenAsync_trace configuration env fuel retryCount st)
    as (evs & Hevs & Htoken).
  exists evs. split; [ exact Hevs | ].
  apply forallb_forall. intros ev Hin. apply P_token.
  exact (proj1 (forallb_forall _ _) Htoken ev Hin).
Qed.

Lemma onlyLogs_sleep ms : respects (onlyLogs P) (sleep ms).
Proof. intro st. apply onlyLogs_one, P_token. reflexivity. Qed.

Lemma onlyLogs_exchange A answer (ev : HttpResult A -> Event) :
  (forall r, P (ev r) = true) ->
  respects (onlyLogs P) (exchange answer ev).
Proof.
  intros Hev st. unfold exchange.
  destruct (answer (trace st)); apply onlyLogs_one, Hev.
Qed.

Variable A : Type.
Variable attempt : nat -> string -> M A.
Hypothesis attempt_logs :
  forall fuel token, respects (onlyLogs P) (attempt fuel token).

Lemma retrying_onlyLogs fuel :
  forall retryCount,
    respects (onlyLogs P)
      (retrying configuration env attempt fuel retryCount).
Proof.
  induction fuel as [| fuel IH]; intros retryCount; cbn [retrying].
  - intro st. apply onlyLogs_refl.
  - apply (respects_bind (onlyLogs P) (onlyLogs_trans P));
      [ apply onlyLogs_token | intro token ].
    apply (respects_tryCatch (onlyLogs P) (onlyLogs_trans P));
      [ apply attempt_logs | intro e ].
    destruct (_ >? 0)%Z.
    + apply (respects_bind (onlyLogs P) (onlyLogs_trans P));
        [ apply onlyLogs_sleep | intros _; apply IH ].
    + intro st. apply onlyLogs_refl.
Qed.

End Logs.

Lemma readEvent_token ep ev : tokenEvent ev = true -> readEvent ep ev = true.
Proof. intro H. unfold readEvent. rewrite H. reflexivity. Qed.

Lemma commandEvent_token command deviceId ev :
  tokenEvent ev = true -> commandEvent command deviceId ev = true.
Proof. destruct ev; cbn; intro H; try exact H; discriminate H. Qed.

Lemma simpleAttempt_onlyLogs A answer (ev : string -> HttpResult A -> Event)
    ep fuel token :
  (forall token r, isRequestTo ep (ev token r) = true) ->
  respects (onlyLogs (readEvent ep)) (simpleAttempt answer ev fuel token).
Proof.
  intro Hev. unfold simpleAttempt. apply onlyLogs_exchange.
  intro r. unfold readEvent. rewrite Hev. apply orb_true_r.
Qed.

Lemma pollOperation_onlyLogs env command deviceId fuel :
  forall token op,
    respects (onlyLogs (commandEvent command deviceId))
      (pollOperation env fuel token op).
Proof.
  induction fuel as [| fuel IH]; intros token op; cbn [pollOperation];
    destruct (OperationStatus_eqb _ _);
    try (intro st; apply onlyLogs_refl).
  apply (respects_bind _ (onlyLogs_trans _)).
  - apply onlyLogs_sleep. apply commandEvent_token.
  - intros _. apply (respects_bind _ (onlyLogs_trans _)).
    + apply onlyLogs_exchange. reflexivity.
    + intro response. apply IH.
Qed.

Lemma Command_eqb_refl command : Command_eqb command command = true.
Proof. destruct command; reflexivity. Qed.

Lemma commandAttempt_onlyLogs env command lock fuel token :
  respects (onlyLogs (commandEvent command (Lock.id lock)))
    (commandAttempt env command lock fuel token).
Proof.
  unfold commandAttempt. apply (respects_bind _ (onlyLogs_trans _)).
  - apply onlyLogs_exchange. intro r. cbn [commandEvent].
    rewrite Command_eqb_refl, Z.eqb_refl. reflexivity.
  - intro response. apply pollOperation_onlyLogs.
Qed.

Lemma getDeviceActivityAsync_onlyLogs configuration env fuel :
  forall lock count retryCount,
    respects (onlyLogs (readEvent ActivityEndpoint))
      (getDeviceActivityAsync configuration env fuel lock count retryCount).
Proof.
  induction fuel as [| fuel IH]; intros lock count retryCount;
    cbn [getDeviceActivityAsync].
  - intro st. apply onlyLogs_refl.
  - apply (respects_bind _ (onlyLogs_trans _));
      [ apply onlyLogs_token, readEvent_token | intro token ].
    apply (respects_tryCatch _ (onlyLogs_trans _)).
    + apply onlyLogs_exchange. reflexivity.
    + intro e. destruct (_ >? 0)%Z.
      * apply (respects_bind _ (onlyLogs_trans _));
          [ apply onlyLogs_sleep, readEvent_token | intros _; apply IH ].
      * intro st. apply onlyLogs_refl.
Qed.

(** X8.  Each method talks to the token endpoint and to its own endpoint
    only.  The reading methods log nothing but clock reads, waits, token
    requests and requests to the one endpoint they read, so they never
    send a command and never poll an operation; a command method logs,
    besides clock reads, waits and token requests, only status polls and
    command requests for its own command and the device id of the lock it
    was given. *)
Theorem methods_keep_to_their_endpoint configuration env :
  (forall fuel retryCount,
      respects (onlyLogs (readEvent LocksEndpoint))
        (getLocksAsync configuration env fuel retryCount)) /\
  (forall fuel name retryCount,
      respects (onlyLogs (readEvent LocksEndpoint))
        (getLockByNameAsync configuration env fuel name retryCount)) /\
  (forall fuel retryCount,
      respects (onlyLogs (readEvent LocksSyncEndpoint))
        (syncLocksAsync configuration env fuel retryCount)) /\
  (forall fuel id retryCount,
      respects (onlyLogs (readEvent LockSyncEndpoint))
        (syncLockAsync configuration env fuel id retryCount)) /\
  (forall fuel lock count retryCount,
      respects (onlyLogs (readEvent ActivityEndpoint))
        (getDeviceActivityAsync configuration env fuel lock count
           retryCount)) /\
  (forall fuel lock retryCount,
      respects (onlyLogs (readEvent ActivityEndpoint))
        (getLatestDeviceActivityAsync configuration env fuel lock
           retryCount)) /\
  (forall command fuel lock retryCount,
      respects (onlyLogs (commandEvent command (Lock.id lock)))
        (commandMethod configuration env command fuel lock retryCount)).
Proof.
  assert (Hlocks : forall fuel retryCount,
             respects (onlyLogs (readEvent LocksEndpoint))
               (getLocksAsync configuration env fuel retryCount)).
  { intros fuel retryCount. rewrite getLocksAsync_retrying.
    apply retrying_onlyLogs; [ apply readEvent_token | ].
    intros f token. apply simpleAttempt_onlyLogs. reflexivity. }
  refine (conj Hlocks (conj _ (conj _ (conj _ (conj _ (conj _ _)))))).
  - intros fuel name retryCount. unfold getLockByNameAsync.
    apply (respects_bind _ (onlyLogs_trans _)); [ apply Hlocks | ].
    intros locks st. apply onlyLogs_refl.
  - intros fuel retryCount. rewrite syncLocksAsync_retrying.
    apply retrying_onlyLogs; [ apply readEvent_token | ].
    intros f token. apply simpleAttempt_onlyLogs. reflexivity.
  - intros fuel id retryCount. rewrite syncLockAsync_retrying.
    apply retrying_onlyLogs; [ apply readEvent_token | ].
    intros f token. apply simpleAttempt_onlyLogs. reflexivity.
  - intros fuel lock count retryCount.
    apply getDeviceActivityAsync_onlyLogs.
  - intros fuel lock retryCount. unfold getLatestDeviceActivityAsync.
    apply (respects_bind _ (onlyLogs_trans _));
      [ apply getDeviceActivityAsync_onlyLogs | ].
    intros activities st. apply onlyLogs_refl.
  - intros command fuel lock retryCount.
    rewrite commandMethod_commandAsync, commandAsync_retrying.
    apply retrying_onlyLogs; [ apply commandEvent_token | ].
    intros f token. apply commandAttempt_onlyLogs.
Qed.

(** ** The shape of the polling *)

Lemma chained_cons ev t :
  match ev with EvGetOperation _ _ _ => False | _ => True end ->
  chained t = true -> chained (ev :: t) = true.
Proof. destruct ev; cbn [chained]; intros H Ht; try exact Ht; tauto. Qed.

Lemma chained_tokenEvents evs t :
  forallb tokenEvent evs = true ->
  chained t = true -> chained (evs ++ t) = true.
Proof.
  induction evs as [| ev evs IH]; cbn [forallb app]; intros H Ht.
  - exact Ht.
  - apply andb_true_iff in H. destruct H as [Hev Hevs].
    apply chained_cons; [ | apply IH; assumption ].
    destruct ev; try exact I; discriminate Hev.
Qed.

Lemma chained_poll operationId bearer r prev rest :
  namesOperation operationId bearer prev = true ->
  chained (prev :: rest) = true ->
  chained (EvGetOperation operationId bearer r :: EvSleep 1000 :: prev
           :: rest) = true.
Proof.
  intros Hnames Hrest.
  change (((1000 =? 1000)%Z && namesOperation operationId bearer prev)
          && (true && chained (prev :: rest)) = true).
  rewrite Hnames, Hrest. reflexivity.
Qed.

Section Chained.

Variable configuration : Configuration.
Variable env : Env.

Lemma pollOperation_chained fuel :
  forall token op st prev rest,
    trace st = prev :: rest ->
    namesOperation (Operation.operationId op) token prev = true ->
    chained (trace st) = true ->
    chained (trace (snd (pollOperation env fuel token op st))) = true.
Proof.
  induction fuel as [| fuel IH]; intros token op st prev rest Htrace Hnames
    Hchained; destruct (completed op) eqn:Hop.
  - rewrite (pollOperation_done env token _ _ _ Hop). exact Hchained.
  - rewrite (pollOperation_out env token _ _ Hop). exact Hchained.
  - rewrite (pollOperation_done env token _ _ _ Hop). exact Hchained.
  - rewrite (pollOperation_step env token _ _ _ Hop). cbv zeta.
    rewrite Htrace in Hchained.
    destruct (getOperation env _ _ _) as [op' | e].
    + eapply IH.
      * reflexivity.
      * cbn [namesOperation]. rewrite !String.eqb_refl. reflexivity.
      * cbn [record trace]. rewrite Htrace.
        apply chained_poll; assumption.
    + cbn [snd record trace]. rewrite Htrace.
      apply chained_poll; assumption.
Qed.

Lemma commandAttempt_chained command lock fuel token st :
  chained (trace st) = true ->
  chained (trace (snd (commandAttempt env command lock fuel token st)))
    = true.
Proof.
  intro Hchained. unfold commandAttempt, bind, axiosPostCommand, exchange.
  destruct (postCommand env _ _ _ _) as [op | e].
  - eapply pollOperation_chained.
    + reflexivity.
    + cbn [namesOperation]. rewrite !String.eqb_refl. reflexivity.
    + cbn [record trace]. apply chained_cons; [ exact I | exact Hchained ].
  - cbn [snd record trace]. apply chained_cons; [ exact I | exact Hchained ].
Qed.

Lemma commandAsync_chained command lock fuel :
  forall retryCount st,
    chained (trace st) = true ->
    chained (trace (snd (commandAsync configuration env command fuel lock
                           retryCount st))) = true.
Proof.
  rewrite commandAsync_retrying.
  induction fuel as [| fuel IH]; intros retryCount st Hchained.
  - exact Hchained.
  - rewrite retrying_unfold.
    destruct (getAccessTokenAsync_trace configuration env (S fuel) None st)
      as (evs & Hevs & Htoken).
    pose proof (chained_tokenEvents evs (trace st) Htoken Hchained)
      as Hchained1.
    rewrite <- Hevs in Hchained1.
    destruct (getAccessTokenAsync configuration env (S fuel) None st)
      as [[token | e |] st1]; cbn [snd] in *; try exact Hchained1.
    pose proof (commandAttempt_chained command lock fuel token st1
                  Hchained1) as Hchained2.
    destruct (commandAttempt env command lock fuel token st1)
      as [[[] | e |] st2]; cbn [snd] in *; try exact Hchained2.
    cbv zeta. destruct (_ >? 0)%Z; [ | exact Hchained2 ].
    apply IH. cbn [record trace].
    apply chained_cons; [ exact I | exact Hchained2 ].
Qed.

End Chained.

(** X9.  In a run of [closeAsync], [openAsync] or [pullSpringAsync] every
    status poll comes right after a wait of exactly one second, and asks,
    with the same bearer token, for the operation id carried by the
    response received just before that wait: the command's response for
    the first poll, the previous poll's response afterwards.  A trace in
    which all polls have this shape keeps it. *)
Theorem polls_follow_the_latest_response
    configuration env command fuel lock retryCount st :
  chained (trace st) = true ->
  chained (trace (snd (commandMethod configuration env command fuel lock
                         retryCount st))) = true.
Proof.
  intro Hchained. rewrite commandMethod_commandAsync.
  apply commandAsync_chained. exact Hchained.
Qed.

Lemma polls_follow_the_latest_response_witness :
  chained (trace initial) = true /\
  chained (trace (snd (openAsync (sampleConfiguration 3) (flakyEnv 1 2) 6
                         frontDoor None initial))) = true /\
  requests OperationEndpoint
    (trace (snd (openAsync (sampleConfiguration 3) (flakyEnv 1 2) 6
                   frontDoor None initial))) = 2%nat.
Proof.
  assert (H : chained (trace initial) = true) by reflexivity.
  split; [ exact H | split; [ | reflexivity ] ].
  exact (polls_follow_the_latest_response (sampleConfiguration 3)
           (flakyEnv 1 2) Open 6 frontDoor None initial H).
Defined.

(** X10.  A command method whose first attempt sees [m] pending
    responses and then a completed one returns after exactly one command
    request and exactly [m] status polls, for every [m]; when the
    command's own response reports [Completed] ([m = 0]) no poll is made
    at all. *)
Theorem command_polls_until_completed
    configuration env command lock retryCount st m fuel :
  tokenGranted env ->
  completesAfter env command (requests CommandEndpoint (trace st)) m ->
  (m < fuel)%nat ->
  exists st',
    commandMethod configuration env command fuel lock retryCount st
      = (Return tt, st') /\
    requests OperationEndpoint (trace st')
      = (requests OperationEndpoint (trace st) + m)%nat /\
    requests CommandEndpoint (trace st')
      = (requests CommandEndpoint (trace st) + 1)%nat.
Proof.
  intros Hgranted Hscript Hfuel. rewrite commandMethod_commandAsync.
  apply commandAsync_first_attempt; assumption.
Qed.

Lemma command_polls_until_completed_witness :
  tokenGranted (flakyEnv 0 2) /\
  completesAfter (flakyEnv 0 2) Close 0 2 /\
  (2 < 3)%nat /\
  exists st',
    closeAsync (sampleConfiguration 3) (flakyEnv 0 2) 3 backDoor None initial
      = (Return tt, st') /\
    requests OperationEndpoint (trace st') = 2%nat /\
    requests CommandEndpoint (trace st') = 1%nat.
Proof.
  assert (H2 : completesAfter (flakyEnv 0 2) Close 0 2)
    by (apply flakyEnv_completes; lia).
  split; [ apply flakyEnv_granted | ].
  split; [ exact H2 | ].
  split; [ lia | ].
  exact (command_polls_until_completed (sampleConfiguration 3) (flakyEnv 0 2)
           Close backDoor None initial 2 3 (flakyEnv_granted 0 2) H2
           (le_n 3)).
Defined.

(** ** Waiting between attempts *)

Lemma paced_request ep ev : isRequestTo ep ev = true -> paced ep ev = true.
Proof. destruct ev; cbn; intro H; try exact H; reflexivity. Qed.

Lemma alternating_one ep ms r :
  isRequestTo ep r = true -> alternating ep ms [r] = true.
Proof. intro H. cbn [alternating]. rewrite H. reflexivity. Qed.

(** One more wait and one more request, at the old end. *)
Lemma alternating_more ep ms r :
  isRequestTo ep r = true ->
  forall n evs,
    (List.length evs <= n)%nat ->
    alternating ep ms evs = true ->
    alternating ep ms (evs ++ [EvSleep ms; r]) = true.
Proof.
  intro Hr. induction n as [| n IH]; intros evs Hlen Halt.
  - destruct evs; [ discriminate Halt | cbn in Hlen; lia ].
  - destruct evs as [| x [| w rest]].
    + discriminate Halt.
    + cbn [alternating app isWait] in *.
      apply andb_true_iff in Halt. destruct Halt as [Hx _].
      rewrite Hx, Hr, Z.eqb_refl. reflexivity.
    + cbn [alternating app] in *.
      apply andb_true_iff in Halt. destruct Halt as [Hx Hrest].
      apply andb_true_iff in Hrest. destruct Hrest as [Hw Hrest].
      rewrite Hx, Hw. cbn [andb]. apply IH; [ cbn in Hlen; lia | ].
      exact Hrest.
Qed.

Section Waits.

Variable configuration : Configuration.
Variable env : Env.
Hypothesis granted : tokenGranted env.
Variable ep : Endpoint.
Hypothesis ep_not_token : ep <> TokenEndpoint.

Lemma paced_token u p r : paced ep (EvPostToken u p r) = false.
Proof. cbn. destruct ep; try reflexivity. congruence. Qed.

(** A token call that is granted at once logs nothing that makes the
    pace. *)
Lemma granted_token_unpaced fuel retryCount st :
  exists token st1 evs,
    getAccessTokenAsync configuration env (S fuel) retryCount st
      = (Return token, st1) /\
    trace st1 = evs ++ trace st /\
    filter (paced ep) evs = [].
Proof.
  rewrite getAccessTokenAsync_step. cbv zeta.
  assert (Hcheck : exists evs,
             trace (afterExpiryCheck env st) = evs ++ trace st /\
             filter (paced ep) evs = []).
  { unfold afterExpiryCheck.
    destruct (expirationDateTime (client st)) as [e |].
    - destruct (e <? _)%Z; eexists [_]; split; reflexivity.
    - exists []. split; reflexivity. }
  destruct Hcheck as (evs & Hevs & Hnone).
  destruct (truthy _) as [token |].
  - exists token, (afterExpiryCheck env st), evs. auto.
  - destruct (granted (trace (afterExpiryCheck env st))
                      (emailAddress configuration) (password configuration))
      as [r Hr].
    rewrite Hr. eexists _, _, (_ :: _ :: evs).
    split; [ reflexivity | ].
    cbn [afterStore record trace]. rewrite Hevs.
    split; [ reflexivity | ].
    cbn [filter]. rewrite paced_token. cbn [paced isRequestTo endpointOf].
    exact Hnone.
Qed.

Variable A : Type.
Variable attempt : nat -> string -> M A.

Hypothesis attempt_one :
  forall fuel token st,
    fst (attempt fuel token st) <> OutOfFuel /\
    exists ev,
      isRequestTo ep ev = true /\
      trace (snd (attempt fuel token st)) = ev :: trace st.

Lemma retrying_waitsBetween fuel :
  forall retryCount st,
    fst (retrying configuration env attempt fuel retryCount st)
      <> OutOfFuel ->
    waitsBetween ep (apiRetryInterval configuration) st
      (snd (retrying configuration env attempt fuel retryCount st)).
Proof.
  induction fuel as [| fuel IH]; intros retryCount st Hends.
  - exfalso. apply Hends. reflexivity.
  - destruct (granted_token_unpaced fuel None st)
      as (token & st1 & evs1 & Htoken & Hevs1 & Hnone1).
    rewrite (retrying_step _ _ _ _ _ _ _ _ _ Htoken) in *.
    destruct (attempt_one fuel token st1) as (_ & ev & Hev & Hevs2).
    assert (Hlast : forall st2,
               trace st2 = ev :: trace st1 ->
               waitsBetween ep (apiRetryInterval configuration) st st2).
    { intros st2 Hst2. exists (ev :: evs1). rewrite Hst2, Hevs1.
      split; [ reflexivity | ].
      cbn [filter]. rewrite (paced_request ep ev Hev), Hnone1.
      apply alternating_one. exact Hev. }
    destruct (attempt fuel token st1) as [[a | e |] st2];
      cbn [fst snd] in *.
    + apply Hlast. exact Hevs2.
    + cbv zeta in *. destruct (_ >? 0)%Z.
      * destruct (IH _ _ Hends) as (evs3 & Hevs3 & Halt).
        exists (evs3 ++ EvSleep (apiRetryInterval configuration)
                     :: ev :: evs1).
        rewrite Hevs3. cbn [record trace]. rewrite Hevs2, Hevs1.
        split; [ rewrite <- app_assoc; reflexivity | ].
        rewrite filter_app. cbn [filter paced].
        rewrite (paced_request ep ev Hev), Hnone1.
        apply (alternating_more ep (apiRetryInterval configuration) ev Hev
                 (List.length (filter (paced ep) evs3))).
        -- apply le_n.
        -- exact Halt.
      * cbn [snd]. apply Hlast. exact Hevs2.
    + exfalso. apply Hends. reflexivity.
Qed.

End Waits.

Lemma simpleAttempt_logs_one A answer (ev : string -> HttpResult A -> Event)
    ep :
  (forall token r, isRequestTo ep (ev token r) = true) ->
  forall fuel token st,
    fst (simpleAttempt answer ev fuel token st) <> OutOfFuel /\
    exists ev',
      isRequestTo ep ev' = true /\
      trace (snd (simpleAttempt answer ev fuel token st)) = ev' :: trace st.
Proof.
  intros Hev fuel token st. unfold simpleAttempt, exchange.
  destruct (answer token (trace st)) as [a | e]; cbn [fst snd record trace];
    (split; [ discriminate | ]); eexists; split;
    [ apply Hev | reflexivity | apply Hev | reflexivity ].
Qed.

Lemma getDeviceActivityAsync_waitsBetween configuration env fuel :
  tokenGranted env ->
  forall lock count retryCount st,
    fst (getDeviceActivityAsync configuration env fuel lock count retryCount
           st) <> OutOfFuel ->
    waitsBetween ActivityEndpoint (apiRetryInterval configuration) st
      (snd (getDeviceActivityAsync configuration env fuel lock count
              retryCount st)).
Proof.
  intro granted.
  induction fuel as [| fuel IH]; intros lock count retryCount st Hends.
  - exfalso. apply Hends. reflexivity.
  - destruct (granted_token_unpaced configuration env granted
                ActivityEndpoint activity_not_token fuel None st)
      as (token & st1 & evs1 & Htoken & Hevs1 & Hnone1).
    rewrite (getDeviceActivityAsync_step _ _ _ _ _ _ _ _ _ Htoken) in *.
    assert (Hlast : forall r,
               waitsBetween ActivityEndpoint (apiRetryInterval configuration)
                 st
                 (record (EvGetDeviceActivity (Lock.id lock) count token r)
                         st1)).
    { intro r. exists (EvGetDeviceActivity (Lock.id lock) count token r
                       :: evs1).
      cbn [record trace]. rewrite Hevs1. split; [ reflexivity | ].
      cbn [filter paced isRequestTo endpointOf Endpoint_eqb].
      rewrite Hnone1. reflexivity. }
    destruct (getDeviceActivity env _ _ _ _) as [r | e].
    + cbn [snd]. apply Hlast.
    + cbv zeta in *. destruct (_ >? 0)%Z.
      * destruct (IH _ _ _ _ Hends) as (evs3 & Hevs3 & Halt).
        exists (evs3 ++ EvSleep (apiRetryInterval configuration)
                     :: EvGetDeviceActivity (Lock.id lock) count token
                          (Failed e)
                     :: evs1).
        rewrite Hevs3. cbn [record trace]. rewrite Hevs1.
        split; [ rewrite <- app_assoc; reflexivity | ].
        rewrite filter_app.
        cbn [filter paced isRequestTo endpointOf Endpoint_eqb].
        rewrite Hnone1.
        apply (alternating_more ActivityEndpoint
                 (apiRetryInterval configuration)
                 (EvGetDeviceActivity (Lock.id lock) count token (Failed e))
                 eq_refl
                 (List.length (filter (paced ActivityEndpoint) evs3))).
        -- apply le_n.
        -- exact Halt.
      * cbn [snd]. apply Hlast.
Qed.

(** X11.  With tokens granted at once, a run of [getLocksAsync],
    [syncLocksAsync], [syncLockAsync] or [getDeviceActivityAsync] that
    ends has waited exactly once between two consecutive attempts, each
    time for [apiRetryInterval]: its requests and waits read request,
    wait, request, ..., request, with no wait before the first attempt
    and none after the last. *)
Theorem one_wait_between_attempts configuration env :
  tokenGranted env ->
  (forall fuel retryCount st,
      fst (getLocksAsync configuration env fuel retryCount st)
        <> OutOfFuel ->
      waitsBetween LocksEndpoint (apiRetryInterval configuration) st
        (snd (getLocksAsync configuration env fuel retryCount st))) /\
  (forall fuel retryCount st,
      fst (syncLocksAsync configuration env fuel retryCount st)
        <> OutOfFuel ->
      waitsBetween LocksSyncEndpoint (apiRetryInterval configuration) st
        (snd (syncLocksAsync configuration env fuel retryCount st))) /\
  (forall fuel id retryCount st,
      fst (syncLockAsync configuration env fuel id retryCount st)
        <> OutOfFuel ->
      waitsBetween LockSyncEndpoint (apiRetryInterval configuration) st
        (snd (syncLockAsync configuration env fuel id retryCount st))) /\
  (forall fuel lock count retryCount st,
      fst (getDeviceActivityAsync configuration env fuel lock count
             retryCount st) <> OutOfFuel ->
      waitsBetween ActivityEndpoint (apiRetryInterval configuration) st
        (snd (getDeviceActivityAsync configuration env fuel lock count
                retryCount st))).
Proof.
  intro Hgranted. refine (conj _ (conj _ (conj _ _))).
  - intros fuel retryCount st. rewrite getLocksAsync_retrying.
    apply retrying_waitsBetween; [ exact Hgranted | discriminate | ].
    apply simpleAttempt_logs_one. reflexivity.
  - intros fuel retryCount st. rewrite syncLocksAsync_retrying.
    apply retrying_waitsBetween; [ exact Hgranted | discriminate | ].
    apply simpleAttempt_logs_one. reflexivity.
  - intros fuel id retryCount st. rewrite syncLockAsync_retrying.
    apply retrying_waitsBetween; [ exact Hgranted | discriminate | ].
    apply simpleAttempt_logs_one. reflexivity.
  - intros fuel. apply getDeviceActivityAsync_waitsBetween. exact Hgranted.
Qed.

Lemma one_wait_between_attempts_witness :
  let run := getLocksAsync (sampleConfiguration 3) (flakyEnv 2 0) 5 None
               initial in
  tokenGranted (flakyEnv 2 0) /\
  fst run <> OutOfFuel /\
  waitsBetween LocksEndpoint 500 initial (snd run) /\
  filter (paced LocksEndpoint) (trace (snd run))
  = [EvGetLocks "bearer-1"%string (Ok [frontDoor; backDoor]);
     EvSleep 500;
     EvGetLocks "bearer-1"%string (Failed "unreachable"%string);
     EvSleep 500;
     EvGetLocks "bearer-1"%string (Failed "unreachable"%string)].
Proof.
  intro run.
  assert (Hends : fst run <> OutOfFuel) by discriminate.
  split; [ apply flakyEnv_granted | ].
  split; [ exact Hends | ].
  split; [ | reflexivity ].
  exact (proj1 (one_wait_between_attempts (sampleConfiguration 3)
                  (flakyEnv 2 0) (flakyEnv_granted 2 0))
           5%nat None initial Hends).
Defined.

(** ** Device activity at its edges *)

(** X12.  The first device-activity request of
    [getLatestDeviceActivityAsync] asks for exactly one element of the
    lock's device id; when it is answered, the call returns the first
    record of the answer, or [null] for an empty answer, after that one
    request. *)
Theorem latest_activity_first_request
    configuration env fuel lock retryCount st token st1 r :
  getAccessTokenAsync configuration env (S fuel) None st
    = (Return token, st1) ->
  getDeviceActivity env (trace st1) (Lock.id lock) 1 token = Ok r ->
  getLatestDeviceActivityAsync configuration env (S fuel) lock retryCount st
  = (Return match r with
            | [] => None
            | first :: _ => Some first
            end,
     record (EvGetDeviceActivity (Lock.id lock) 1 token (Ok r)) st1).
Proof.
  intros Htoken Hanswer.
  rewrite (getLatestDeviceActivityAsync_first_request configuration env fuel
             lock retryCount st token st1 r Htoken Hanswer).
  destruct r; reflexivity.
Qed.

Lemma latest_activity_first_request_witness :
  let configuration := sampleConfiguration 3 in
  let env := flakyEnv 0 0 in
  let st1 := snd (getAccessTokenAsync configuration env 2 None initial) in
  getAccessTokenAsync configuration env 2 None initial
    = (Return "bearer-1"%string, st1) /\
  getDeviceActivity env (trace st1) (Lock.id frontDoor) 1 "bearer-1"%string
    = Ok [sampleActivity] /\
  getLatestDeviceActivityAsync configuration env 2 frontDoor None initial
  = (Return (Some sampleActivity),
     record (EvGetDeviceActivity 17 1 "bearer-1"%string
               (Ok [sampleActivity])) st1).
Proof.
  intros configuration env st1.
  assert (H1 : getAccessTokenAsync configuration env 2 None initial
               = (Return "bearer-1"%string, st1)) by reflexivity.
  assert (H2 : getDeviceActivity env (trace st1) (Lock.id frontDoor) 1
                 "bearer-1"%string = Ok [sampleActivity]) by reflexivity.
  split; [ exact H1 | split; [ exact H2 | ] ].
  exact (latest_activity_first_request configuration env 1 frontDoor None
           initial "bearer-1"%string st1 [sampleActivity] H1 H2).
Defined.

(** X13.  How [getDeviceActivityAsync] behaves when every device-activity
    request fails (tokens granted).  The given [retryCount] (or
    [maximumApiRetry] when it is falsy) only decides whether a second
    attempt is made; from the second attempt on the budget is
    [maximumApiRetry] anew each time.  So: with a first budget below two
    the call throws after one request; with a first budget of two or more
    and [maximumApiRetry] below two it throws after exactly two; with
    both at two or more it never throws.  The error thrown is that of the
    last request. *)
Theorem getDeviceActivityAsync_budget_edges
    configuration env lock count retryCount st :
  tokenGranted env ->
  (forall t deviceId elements bearer,
      exists e, getDeviceActivity env t deviceId elements bearer = Failed e) ->
  ((orDefault retryCount (maximumApiRetry configuration) <= 1)%Z ->
   forall fuel,
   exists e st',
     getDeviceActivityAsync configuration env (S fuel) lock count
       retryCount st = (Throw e, st') /\
     requests ActivityEndpoint (trace st')
       = S (requests ActivityEndpoint (trace st)) /\
     newestFailure (trace st') = Some e) /\
  ((2 <= orDefault retryCount (maximumApiRetry configuration))%Z ->
   (maximumApiRetry configuration <= 1)%Z ->
   forall fuel,
   exists e st',
     getDeviceActivityAsync configuration env (S (S fuel)) lock count
       retryCount st = (Throw e, st') /\
     requests ActivityEndpoint (trace st')
       = S (S (requests ActivityEndpoint (trace st))) /\
     newestFailure (trace st') = Some e) /\
  ((2 <= orDefault retryCount (maximumApiRetry configuration))%Z ->
   (2 <= maximumApiRetry configuration)%Z ->
   forall fuel,
   exists st',
     getDeviceActivityAsync configuration env fuel lock count retryCount st
       = (OutOfFuel, st') /\
     requests ActivityEndpoint (trace st')
       = (requests ActivityEndpoint (trace st) + fuel)%nat).
Proof.
  intros Hgranted Hfails.
  assert (Hone : forall lock count retryCount st fuel,
             (orDefault retryCount (maximumApiRetry configuration) <= 1)%Z ->
             exists e st',
               getDeviceActivityAsync configuration env (S fuel) lock count
                 retryCount st = (Throw e, st') /\
               requests ActivityEndpoint (trace st')
                 = S (requests ActivityEndpoint (trace st)) /\
               newestFailure (trace st') = Some e).
  { intros lock0 count0 retryCount0 st0 fuel Hsmall.
    destruct (getAccessTokenAsync_granted configuration env fuel None st0
                Hgranted) as (token & st1 & Htoken).
    rewrite (getDeviceActivityAsync_step _ _ _ _ _ _ _ _ _ Htoken).
    destruct (Hfails (trace st1) (Lock.id lock0) count0 token) as [e He].
    rewrite He. cbv zeta.
    destruct (Z.gtb_spec
                (orDefault retryCount0 (maximumApiRetry configuration) - 1)
                0); [ lia | ].
    eexists _, _. split; [ reflexivity | ].
    cbn [record trace]. rewrite requests_cons. cbn.
    rewrite (token_keeps_requests configuration env ActivityEndpoint
               activity_not_token _ _ _ _ _ Htoken).
    split; reflexivity. }
  refine (conj _ (conj _ _)).
  - intros Hsmall fuel. apply Hone. exact Hsmall.
  - intros Hfirst Hmax fuel.
    destruct (getAccessTokenAsync_granted configuration env (S fuel) None st
                Hgranted) as (token & st1 & Htoken).
    rewrite (getDeviceActivityAsync_step _ _ _ _ _ _ _ _ _ Htoken).
    destruct (Hfails (trace st1) (Lock.id lock) count token) as [e He].
    rewrite He. cbv zeta.
    destruct (Z.gtb_spec
                (orDefault retryCount (maximumApiRetry configuration) - 1)
                0); [ | lia ].
    match goal with
    | |- context [getDeviceActivityAsync _ _ (S fuel) lock ?c None ?s] =>
      destruct (Hone lock c None s fuel Hmax)
        as (e' & st' & Hrun & Hcount & Herror)
    end.
    exists e', st'. split; [ exact Hrun | split; [ | exact Herror ] ].
    rewrite Hcount. cbn [record trace]. rewrite !requests_cons. cbn.
    rewrite (token_keeps_requests configuration env ActivityEndpoint
               activity_not_token _ _ _ _ _ Htoken).
    reflexivity.
  - intros Hfirst Hmax [| fuel].
    + exists st. split; [ reflexivity | lia ].
    + destruct (getAccessTokenAsync_granted configuration env fuel None st
                  Hgranted) as (token & st1 & Htoken).
      rewrite (getDeviceActivityAsync_step _ _ _ _ _ _ _ _ _ Htoken).
      destruct (Hfails (trace st1) (Lock.id lock) count token) as [e He].
      rewrite He. cbv zeta.
      destruct (Z.gtb_spec
                  (orDefault retryCount (maximumApiRetry configuration) - 1)
                  0); [ | lia ].
      match goal with
      | |- context [getDeviceActivityAsync _ _ fuel lock ?c None ?s] =>
        destruct (getDeviceActivityAsync_never_gives_up configuration env
                    Hgranted fuel Hmax Hfails lock c s)
          as (st' & Hrun & Hcount)
      end.
      exists st'. split; [ exact Hrun | ].
      rewrite Hcount. cbn [record trace]. rewrite !requests_cons. cbn.
      rewrite (token_keeps_requests configuration env ActivityEndpoint
                 activity_not_token _ _ _ _ _ Htoken).
      lia.
Qed.

Lemma downEnv_activity_fails :
  forall t deviceId elements bearer,
  exists e, getDeviceActivity downEnv t deviceId elements bearer = Failed e.
Proof. intros. eexists. reflexivity. Qed.

Lemma getDeviceActivityAsync_budget_edges_witness :
  tokenGranted downEnv /\
  (forall t deviceId elements bearer,
      exists e,
        getDeviceActivity downEnv t deviceId elements bearer = Failed e) /\
  (orDefault None (maximumApiRetry (sampleConfiguration 1)) <= 1)%Z /\
  (exists e st',
      getDeviceActivityAsync (sampleConfiguration 1) downEnv 1 frontDoor 5
        None initial = (Throw e, st') /\
      requests ActivityEndpoint (trace st') = 1%nat /\
      newestFailure (trace st') = Some e) /\
  (2 <= orDefault (Some 7%Z) (maximumApiRetry (sampleConfiguration 1)))%Z /\
  (maximumApiRetry (sampleConfiguration 1) <= 1)%Z /\
  (exists e st',
      getDeviceActivityAsync (sampleConfiguration 1) downEnv 2 frontDoor 5
        (Some 7%Z) initial = (Throw e, st') /\
      requests ActivityEndpoint (trace st') = 2%nat /\
      newestFailure (trace st') = Some e) /\
  (2 <= maximumApiRetry (sampleConfiguration 2))%Z /\
  (exists st',
      getDeviceActivityAsync (sampleConfiguration 2) downEnv 30 frontDoor 5
        (Some 7%Z) initial = (OutOfFuel, st') /\
      requests ActivityEndpoint (trace st') = 30%nat).
Proof.
  destruct (getDeviceActivityAsync_budget_edges (sampleConfiguration 1)
              downEnv frontDoor 5 None initial downEnv_granted
              downEnv_activity_fails) as (Hone & _ & _).
  destruct (getDeviceActivityAsync_budget_edges (sampleConfiguration 1)
              downEnv frontDoor 5 (Some 7%Z) initial downEnv_granted
              downEnv_activity_fails) as (_ & Htwo & _).
  destruct (getDeviceActivityAsync_budget_edges (sampleConfiguration 2)
              downEnv frontDoor 5 (Some 7%Z) initial downEnv_granted
              downEnv_activity_fails) as (_ & _ & Hforever).
  assert (H1 : (orDefault None (maximumApiRetry (sampleConfiguration 1))
                <= 1)%Z) by (cbn; lia).
  assert (H2 : (2 <= orDefault (Some 7%Z)
                       (maximumApiRetry (sampleConfiguration 1)))%Z)
    by (cbn; lia).
  assert (H3 : (maximumApiRetry (sampleConfiguration 1) <= 1)%Z)
    by (cbn; lia).
  assert (H4 : (2 <= maximumApiRetry (sampleConfiguration 2))%Z)
    by (cbn; lia).
  split; [ exact downEnv_granted | ].
  split; [ exact downEnv_activity_fails | ].
  split; [ exact H1 | ].
  split; [ exact (Hone H1 0%nat) | ].
  split; [ exact H2 | ].
  split; [ exact H3 | ].
  split; [ exact (Htwo H2 H3 0%nat) | ].
  split; [ exact H4 | ].
  exact (Hforever ltac:(cbn; lia) H4 30%nat).
Defined.
